(** * go-octree: point-region octrees (package [octree], file octree.go)

    A shallow embedding of the package's data model and operations,
    followed by the properties established about them.

    Conventions of the embedding.
    - [float64] is IEEE 754 binary64: Rocq's primitive [float], whose
      operations round to nearest-even like Go's (no fused operations).
    - [int] is modelled by [Z]; the counters that follow a slice length
      ([masterNodeIdx], node counts) cannot wrap, the free-running iteration
      counter of the geometric median wraps as a 64-bit integer.
    - [DataSet], a Go [map[string]DataCoords], is a [gmap string DataCoords];
      a [range] over it is a [map_fold] (Go leaves the order of the visit
      unspecified; the order of [map_fold] is one admissible order).
    - The package keeps its tree in the globals [_octree] and [_stats]; they
      form the record [State], threaded explicitly.
    - [halt] ends the process with a message: outcome [Halt] with the error
      the message stands for; a Go run-time panic (index out of range, nil
      dereference) is outcome [Panic]; loops and recursions that Go does not
      bound take a [fuel] argument and give [OutOfFuel] when it is used up.
    - The operating system and the JSON codec are seen through what they
      deliver to the package: the call that fails, if one does, the content
      of the file read, the bytes the allocator can still provide ([heap]). *)

From Stdlib Require Import ZArith Floats Ascii String List Lia Bool.
From stdpp Require Import base gmap strings list fin_maps.

Open Scope Z_scope.

(* ===================================================================== *)
(** ** Outcomes *)
(* ===================================================================== *)

(** The messages passed to [halt], by the condition they report. *)
Inductive error : Type :=
| InvalidThreshold        (* Make: invalid termination criterion *)
| EmptyInput              (* Make: there are no points to process *)
| InvalidMethod           (* makeCalcCenter: unrecognized method name *)
| EmptyTree               (* Query, Export, Histogram, Summarize: no octree *)
| MaxIterationsExceeded   (* maximum number of iterations exceeded *)
| MissingFileName         (* Export: the filename was not specified *)
| CreateFailed            (* Export: os.Create - ... *)
| MarshalFailed           (* Export: Marshal/MarshalIndent - ... *)
| WriteFailed             (* Export: writer.Write - ... *)
| SyncFailed              (* Export: writer.Sync - ... *)
| CloseFailed             (* Export: writer.Close - ... *)
| FileMissingOrEmpty      (* Import: the input file cannot be located or is empty *)
| ReadFileFailed          (* Import: ioutil.ReadFile - ... *)
| UnmarshalFailed.        (* Import: json.Unmarshal - ... *)

Inductive panic : Type :=
| IndexOutOfRange
| NilDereference
| MakeSliceLen             (* makeslice: len out of range *)
| OutOfMemory.             (* fatal error: out of memory; it ends the process as a
                              panic does *)

Inductive result (A : Type) : Type :=
| Ok (a : A)
| Halt (e : error)
| Panic (p : panic)
| OutOfFuel.
Arguments Ok {A} a.
Arguments Halt {A} e.
Arguments Panic {A} p.
Arguments OutOfFuel {A}.

(** The error monad of the embedding; [x ← m; k] is stdpp's notation for
    its bind. *)
#[global] Instance result_ret : MRet result := fun A a => Ok a.
#[global] Instance result_bind : MBind result := fun A B k m =>
  match m with
  | Ok a => k a
  | Halt e => Halt e
  | Panic p => Panic p
  | OutOfFuel => OutOfFuel
  end.

(** An outcome that is a result or a run-time panic: neither a [halt]
    nor a divergence. *)
Definition okOrPanic {A : Type} (r : result A) : Prop :=
  (∃ a, r = Ok a) ∨ (∃ p, r = Panic p).



(** Monadic left fold: a Go [for] loop over a fixed range whose body may
    halt or panic. *)
Fixpoint foldM {A B : Type} (f : A → B → result A) (l : list B) (a : A) : result A :=
  match l with
  | [] => Ok a
  | b :: l' => a' ← f a b; foldM f l' a'
  end.

(* ===================================================================== *)
(** ** Go library functions used by the package *)
(* ===================================================================== *)

Module GoMath.
(** Go's [x > y] on float64. *)
Definition gtb (x y : float) : bool := PrimFloat.ltb y x.
Definition isNaN (x : float) : bool := negb (PrimFloat.eqb x x).
Definition isPosInf (x : float) : bool := PrimFloat.eqb x infinity.
Definition isNegInf (x : float) : bool := PrimFloat.eqb x neg_infinity.
Definition isZero (x : float) : bool := PrimFloat.eqb x 0%float.
(** [math.Signbit] is needed on zeros only: [1/x] is negative for -0. *)
Definition signbit0 (x : float) : bool := PrimFloat.ltb (1 / x)%float 0%float.

(** [math.Max]: +Inf wins, then NaN; Max(+0,-0) = +0. *)
Definition Max (x y : float) : float :=
  if isPosInf x || isPosInf y then infinity
  else if isNaN x || isNaN y then nan
  else if isZero x && PrimFloat.eqb x y then (if signbit0 x then y else x)
  else if gtb x y then x else y.

(** [math.Min]: -Inf wins, then NaN; Min(+0,-0) = -0. *)
Definition Min (x y : float) : float :=
  if isNegInf x || isNegInf y then neg_infinity
  else if isNaN x || isNaN y then nan
  else if isZero x && PrimFloat.eqb x y then (if signbit0 x then x else y)
  else if PrimFloat.ltb x y then x else y.

Definition Abs (x : float) : float := PrimFloat.abs x.
Definition Sqrt (x : float) : float := PrimFloat.sqrt x.

(** [float64(n)] for an [int] n: rounds to nearest.  The least [int],
    whose opposite is no [int], is a power of two. *)
Definition float64 (n : Z) : float :=
  if n <? 0 then
    if n =? - 2 ^ 63 then (-9223372036854775808)%float
    else (- PrimFloat.of_uint63 (Uint63.of_Z (- n)))%float
  else PrimFloat.of_uint63 (Uint63.of_Z n).

(** [math.IsInf(x, 0) || math.IsNaN(x)]. *)
Definition notFinite (x : float) : bool := isPosInf x || isNegInf x || isNaN x.

(** 64-bit two's-complement wrap-around of an [int] result. *)
Definition wrap (z : Z) : Z := (z + 2 ^ 63) mod 2 ^ 64 - 2 ^ 63.
End GoMath.

Module GoStrings.
(** [strings.Join(elems, sep)]. *)
Fixpoint Join (elems : list string) (sep : string) : string :=
  match elems with
  | [] => EmptyString
  | x :: rest =>
      match rest with
      | [] => x
      | _ :: _ => String.append x (String.append sep (Join rest sep))
      end
  end.

(** [strings.Split(s, sep)] for a separator [sep] of one byte: the pieces
    of [s] between the occurrences of [sep]; the empty string gives one
    empty piece. *)
Fixpoint Split (s : string) (sep : ascii) : list string :=
  match s with
  | EmptyString => [EmptyString]
  | String c s' =>
      if Ascii.eqb c sep then EmptyString :: Split s' sep
      else match Split s' sep with
           | [] => [String c EmptyString]
           | h :: t => String c h :: t
           end
  end.

(** [strings.IndexByte(s, c) < 0]. *)
Fixpoint lacksByte (s : string) (c : ascii) : bool :=
  match s with
  | EmptyString => true
  | String c' s' => negb (Ascii.eqb c' c) && lacksByte s' c
  end.
End GoStrings.

Definition comma : ascii := ","%char.

(** Package [unicode/utf8], on strings as sequences of bytes. *)
Module GoUtf8.
Definition byte (c : ascii) : Z := Z.of_N (N_of_ascii c).

Definition within (lo hi : Z) (c : ascii) : bool := (lo <=? byte c) && (byte c <=? hi).

(** A continuation byte: [locb <= c <= hicb]. *)
Definition cont (c : ascii) : bool := within 0x80 0xBF c.

(** The table [first] with [acceptRanges], for a leading byte that is not
    ASCII: the size of the encoding and the range of its second byte. *)
Definition first (b0 : ascii) : option (nat * Z * Z) :=
  if within 0xC2 0xDF b0 then Some (2%nat, 0x80, 0xBF)
  else if byte b0 =? 0xE0 then Some (3%nat, 0xA0, 0xBF)
  else if within 0xE1 0xEC b0 then Some (3%nat, 0x80, 0xBF)
  else if byte b0 =? 0xED then Some (3%nat, 0x80, 0x9F)
  else if within 0xEE 0xEF b0 then Some (3%nat, 0x80, 0xBF)
  else if byte b0 =? 0xF0 then Some (4%nat, 0x90, 0xBF)
  else if within 0xF1 0xF3 b0 then Some (4%nat, 0x80, 0xBF)
  else if byte b0 =? 0xF4 then Some (4%nat, 0x80, 0x8F)
  else None.

(** [utf8.DecodeRuneInString] on the string [String b0 rest]: the number
    of bytes that follow [b0] in the encoding it starts, or [None] where Go
    returns [(RuneError, 1)]. *)
Definition DecodeRuneInString (b0 : ascii) (rest : string) : option nat :=
  if byte b0 <? 0x80 then Some 0%nat
  else
    match first b0 with
    | None => None
    | Some (sz, lo, hi) =>
        match rest with
        | EmptyString => None
        | String b1 r1 =>
            if negb (within lo hi b1) then None
            else if (sz <=? 2)%nat then Some 1%nat
            else
              match r1 with
              | EmptyString => None
              | String b2 r2 =>
                  if negb (cont b2) then None
                  else if (sz <=? 3)%nat then Some 2%nat
                  else
                    match r2 with
                    | EmptyString => None
                    | String b3 _ => if negb (cont b3) then None else Some 3%nat
                    end
              end
        end
    end.

(** [utf8.ValidString], [skip] bytes of the current encoding still to
    pass. *)
Fixpoint validFrom (skip : nat) (s : string) : bool :=
  match s with
  | EmptyString => Nat.eqb skip 0
  | String b rest =>
      match skip with
      | S k => validFrom k rest
      | O =>
          match DecodeRuneInString b rest with
          | Some k => validFrom k rest
          | None => false
          end
      end
  end.

Definition ValidString (s : string) : bool := validFrom 0 s.

(** U+FFFD, the replacement character, in UTF-8. *)
Definition replacement : string :=
  String (ascii_of_N 0xEF) (String (ascii_of_N 0xBF) (String (ascii_of_N 0xBD) EmptyString)).

(** Every byte that is part of no valid encoding replaced by U+FFFD. *)
Fixpoint coerceFrom (skip : nat) (s : string) : string :=
  match s with
  | EmptyString => EmptyString
  | String b rest =>
      match skip with
      | S k => String b (coerceFrom k rest)
      | O =>
          match DecodeRuneInString b rest with
          | Some k => String b (coerceFrom k rest)
          | None => String.append replacement (coerceFrom 0 rest)
          end
      end
  end.

Definition ToValidUTF8 (s : string) : string := coerceFrom 0 s.
End GoUtf8.

(* ===================================================================== *)
(** ** Exported types *)
(* ===================================================================== *)

(** [type DataCoords [3]float64]. *)
Record DataCoords : Type := mkCoords { c0 : float; c1 : float; c2 : float }.

Definition coord (p : DataCoords) (k : nat) : float :=
  match k with
  | O => c0 p
  | S O => c1 p
  | _ => c2 p
  end.

Definition setCoord (p : DataCoords) (k : nat) (x : float) : DataCoords :=
  match k with
  | O => mkCoords x (c1 p) (c2 p)
  | S O => mkCoords (c0 p) x (c2 p)
  | _ => mkCoords (c0 p) (c1 p) x
  end.

(** The zero value of [DataCoords]. *)
Definition zeroCoords : DataCoords := mkCoords 0%float 0%float 0%float.

(** [for k := range <[3]float64>]. *)
Definition axes : list nat := [0%nat; 1%nat; 2%nat].

(** [type DataSet map[string]DataCoords]. *)
Abbreviation DataSet := (gmap string DataCoords).

#[global] Instance DataCoords_inhabited : Inhabited DataCoords := populate zeroCoords.

(** [for k := range a { a[k] = f k }] on a [[3]float64]. *)
Definition perAxis (f : nat → float) : DataCoords :=
  mkCoords (f 0%nat) (f 1%nat) (f 2%nat).

(** The length of the map behind [refPoints]. *)
Definition len (pts : DataSet) : Z := Z.of_nat (size pts).


(* ===================================================================== *)
(** ** Private types *)
(* ===================================================================== *)

(** [nodeLinks [8]int]: the links to the child nodes, one per octant. *)
Abbreviation nodeLinks := (list Z).
Definition zeroLinks : nodeLinks := replicate 8 0.

(** [for k := range childPts], [childPts] being a [[8]DataSet]. *)
Definition octants : list Z := [0; 1; 2; 3; 4; 5; 6; 7].

(** Indexing a slice or an array with an [int]: out of range panics. *)
Definition index {A : Type} (l : list A) (i : Z) : result A :=
  if i <? 0 then Panic IndexOutOfRange
  else match l !! Z.to_nat i with
       | Some a => Ok a
       | None => Panic IndexOutOfRange
       end.

(** [l[i] = f(l[i])]: an assignment to (a field of) the element at [i]. *)
Definition update {A : Type} (l : list A) (i : Z) (f : A → A) : result (list A) :=
  a ← index l i; Ok (<[Z.to_nat i := f a]> l).

(** The struct [node]. *)
Module node.
Record t : Type := mk {
  N : Z;                 (* number of data points associated with the node *)
  CENTER : DataCoords;   (* the parent's partition point *)
  CHILDREN : nodeLinks;  (* links to the child nodes *)
  KEYS : string          (* CSV of the identifiers of a leaf's points *)
}.
Definition blank : t := mk 0 zeroCoords zeroLinks EmptyString.
Definition setN (n : Z) (nd : t) : t := mk n (CENTER nd) (CHILDREN nd) (KEYS nd).
Definition setCENTER (c : DataCoords) (nd : t) : t := mk (N nd) c (CHILDREN nd) (KEYS nd).
Definition setCHILDREN (l : nodeLinks) (nd : t) : t := mk (N nd) (CENTER nd) l (KEYS nd).
Definition setKEYS (k : string) (nd : t) : t := mk (N nd) (CENTER nd) (CHILDREN nd) k.
End node.

(** The struct [jsonNode]; a nil pointer (a field left out of the JSON
    text under [omitempty]) is [None]. *)
Module jsonNode.
Record t : Type := mk {
  ID : Z;
  N : Z;
  CENTER : option DataCoords;
  CHILDREN : option nodeLinks;
  KEYS : string
}.
Definition zero : t := mk 0 0 None None EmptyString.
End jsonNode.

(** The struct [jsonOctree]. *)
Module jsonOctree.
Record t : Type := mk {
  HOW : string;
  STOP : Z;
  TIME : Z;
  SIZE : Z;
  OCTREE : list jsonNode.t
}.
End jsonOctree.

(** The struct [statistics].  The fields that Go keeps as formatted text
    ([humanize.Comma], [Sprintf] with two decimals) hold here the number
    that is formatted. *)
Module statistics.
Record t : Type := mk {
  HOW : string;
  SIZE : Z;
  STOP : Z;
  TIME : Z;
  LEAFCOUNTS : list Z;
  MINPTS : Z;
  MAXPTS : Z;
  NUMPARENTS : Z;
  NUMPTS : Z;
  NUMLEAVES : Z;
  NUMEMPTY : Z;
  OCTREELEN : Z;
  TERMINAL_N : Z;
  MU : float;
  SIGMA : float;
  LOWER : float;
  UPPER : float;
  XMIN : Z;
  XMAX : Z
}.
Definition zero : t :=
  mk EmptyString 0 0 0 [] 0 0 0 0 0 0 0 0 0%float 0%float 0%float 0%float 0 0.
(** The four fields set by [Make] and [Import]. *)
Definition setMeta (how : string) (size stop time : Z) (s : t) : t :=
  mk how size stop time (LEAFCOUNTS s) (MINPTS s) (MAXPTS s) (NUMPARENTS s)
     (NUMPTS s) (NUMLEAVES s) (NUMEMPTY s) (OCTREELEN s) (TERMINAL_N s)
     (MU s) (SIGMA s) (LOWER s) (UPPER s) (XMIN s) (XMAX s).
End statistics.

(** The package globals [_octree] and [_stats]. *)
Record State : Type := mkState {
  _octree : list node.t;
  _stats : statistics.t
}.

(** The globals when the package is loaded. *)
Definition initial : State := mkState [] statistics.zero.

(** [centerFn func(refPoints *DataSet) DataCoords]; it may halt. *)
Definition centerFn : Type := DataSet → result DataCoords.

(* ===================================================================== *)
(** ** Octant rule *)
(* ===================================================================== *)

(** [func assignOctant(refCenter, refPoint) (octant int)]. *)
Definition assignOctant (refCenter refPoint : DataCoords) : Z :=
  fold_left
    (fun octant k =>
       if GoMath.gtb (coord refPoint k) (coord refCenter k)
       then octant + Z.shiftl 1 (Z.of_nat k)
       else octant)
    axes 0.

(* ===================================================================== *)
(** ** Center strategies *)
(* ===================================================================== *)

(** [func calcAitkenEstimate(e []DataCoords) (aitken DataCoords)]. *)
Definition calcAitkenEstimate (e : list DataCoords) : DataCoords :=
  perAxis (fun k =>
    let num := (coord (e !!! 1%nat) k - coord (e !!! 0%nat) k)%float in
    let num := (num * num)%float in
    let denom := (coord (e !!! 2%nat) k - 2 * coord (e !!! 1%nat) k
                  + coord (e !!! 0%nat) k)%float in
    if negb (PrimFloat.eqb denom 0%float)
    then (coord (e !!! 0%nat) k - num / denom)%float
    else coord (e !!! 2%nat) k).

(** An infinity or NaN. *)
Definition nonFinite (x : float) : Prop :=
  match Prim2SF x with
  | S754_infinity _ | S754_nan => True
  | _ => False
  end.

(** The value of [DataCoords] with NaN on every axis. *)
Definition nanCoords : DataCoords := mkCoords nan nan nan.

(** The Euclidean distance [metric] of a point to the estimate. *)
Definition metricTo (refEstimate v : DataCoords) : float :=
  GoMath.Sqrt
    (fold_left (fun metric k =>
                  let diff := (coord v k - coord refEstimate k)%float in
                  (metric + diff * diff)%float)
               axes 0%float).

(** [func calcWeiszfeldEstimate(refPoints, refEstimate) (weiszfeld DataCoords)];
    the accumulator is the pair ([denom], [num]). *)
Definition calcWeiszfeldEstimate (refPoints : DataSet) (refEstimate : DataCoords)
  : DataCoords :=
  let '(denom, num) :=
    map_fold (fun _ v '(denom, num) =>
                let metric := metricTo refEstimate v in
                ((denom + 1 / metric)%float,
                 perAxis (fun k => (coord num k + coord v k / metric)%float)))
             (0%float, zeroCoords) refPoints in
  perAxis (fun k => (coord num k / denom)%float).

(** Case [Centroid] of [makeCalcCenter]. *)
Definition calcCentroid (refPoints : DataSet) : DataCoords :=
  let numPts := GoMath.float64 (len refPoints) in
  let centroid :=
    map_fold (fun _ v centroid => perAxis (fun k => (coord centroid k + coord v k)%float))
             zeroCoords refPoints in
  perAxis (fun k => (coord centroid k / numPts)%float).

(** Case [DataMidPoint]: [dataBounds] is kept as the pair of the per-axis
    minima and the per-axis maxima. *)
Definition calcDataMidPoint (refPoints : DataSet) : DataCoords :=
  let '(MIN, MAX) :=
    map_fold (fun _ v '(MIN, MAX) =>
                (perAxis (fun k => GoMath.Min (coord v k) (coord MIN k)),
                 perAxis (fun k => GoMath.Max (coord v k) (coord MAX k))))
             (perAxis (fun _ => infinity), perAxis (fun _ => neg_infinity))
             refPoints in
  perAxis (fun k => (0.5 * (coord MIN k + coord MAX k))%float).

(** [sort.Float64Slice.Less]: NaNs sort first. *)
Definition Float64Less (x y : float) : bool :=
  PrimFloat.ltb x y || (GoMath.isNaN x && negb (GoMath.isNaN y)).

Fixpoint insertFloat64 (x : float) (l : list float) : list float :=
  match l with
  | [] => [x]
  | y :: l' => if Float64Less y x then y :: insertFloat64 x l' else x :: l
  end.

(** [sort.Sort(sort.Float64Slice(ordinates))]: the slice in ascending order
    of [Less] (values that [Less] does not separate, the two zeros, may come
    out in either order in Go). *)
Definition sortFloat64s (l : list float) : list float :=
  foldr insertFloat64 [] l.

(** The slice [ordinates] once the loop over the points has filled it
    for axis [k]. *)
Definition ordinatesOf (refPoints : DataSet) (k : nat) : list float :=
  map_fold (fun _ v ordinates => ordinates ++ [coord v k]) [] refPoints.

(** Case [XYZ Medians].  [midIdx] is [int(math.Trunc(float64(numPts)/2.))],
    the integer quotient for every length a map can have. *)
Definition calcXYZMedians (refPoints : DataSet) : result DataCoords :=
  let numPts := len refPoints in
  let midIdx := Z.quot numPts 2 in
  let median (k : nat) : result float :=
    let ordinates :=
      sortFloat64s (map_fold (fun _ v ordinates => ordinates ++ [coord v k]) [] refPoints) in
    if negb (Z.rem numPts 2 =? 0) then index ordinates midIdx
    else a ← index ordinates (midIdx - 1);
         b ← index ordinates midIdx;
         Ok ((a + b) / 2)%float in
  m0 ← median 0%nat; m1 ← median 1%nat; m2 ← median 2%nat;
  Ok (mkCoords m0 m1 m2).

Section GeometricMedian.
(** The package variables [MaxIterations] and [Tol]. *)
Variable MaxIterations : Z.
Variable Tol : float.
Variable refPoints : DataSet.

(** The arrays [medians [4]DataCoords] and [diffs [4][3]float64]. *)
Record estimates : Type := mkEstimates {
  medians : list DataCoords;
  diffs : list DataCoords
}.

(** The body of [for ctrl := 1; ctrl < 4; ctrl++]: [inl] is the value
    returned from inside the loop, [inr] the arrays after the pass. *)
Definition ctrlBody (e : estimates) (ctrl : nat) : DataCoords + estimates :=
  let estimate :=
    if negb (ctrl =? 3)%nat
    then calcWeiszfeldEstimate refPoints (medians e !!! (ctrl - 1)%nat)
    else calcAitkenEstimate (take 3 (medians e)) in
  let medians' := <[ctrl := estimate]> (medians e) in
  let diff :=
    perAxis (fun k => GoMath.Abs (coord (medians' !!! ctrl) k
                                  - coord (medians' !!! (ctrl - 1)%nat) k)%float) in
  let diffs' := <[ctrl := diff]> (diffs e) in
  if PrimFloat.ltb
       (GoMath.Max (coord (diffs' !!! ctrl) 0)
                   (GoMath.Max (coord (diffs' !!! ctrl) 1) (coord (diffs' !!! ctrl) 2)))
       Tol
  then inl (medians' !!! ctrl)
  else inr (mkEstimates medians' diffs').

Fixpoint ctrlLoop (ctrls : list nat) (e : estimates) : DataCoords + estimates :=
  match ctrls with
  | [] => inr e
  | ctrl :: rest =>
      match ctrlBody e ctrl with
      | inl r => inl r
      | inr e' => ctrlLoop rest e'
      end
  end.

(** The update of [medians[0]] that ends a pass without convergence. *)
Definition nextGuess (e : estimates) : estimates :=
  let guess :=
    perAxis (fun k =>
      if GoMath.gtb (coord (diffs e !!! 1%nat) k) (coord (diffs e !!! 2%nat) k)
         && GoMath.gtb (coord (diffs e !!! 2%nat) k) (coord (diffs e !!! 3%nat) k)
      then coord (medians e !!! 3%nat) k
      else coord (medians e !!! 2%nat) k) in
  mkEstimates (<[0%nat := guess]> (medians e)) (diffs e).

(** [for iterations < MaxIterations { ... }] and the [halt] after it. *)
Fixpoint medianLoop (fuel : nat) (iterations : Z) (e : estimates) : result DataCoords :=
  if iterations <? MaxIterations then
    match fuel with
    | O => OutOfFuel
    | S fuel' =>
        match ctrlLoop [1%nat; 2%nat; 3%nat] e with
        | inl r => Ok r
        | inr e' => medianLoop fuel' (GoMath.wrap (iterations + 3)) (nextGuess e')
        end
    end
  else Halt MaxIterationsExceeded.

(** Case [Geometric Median], the loop given [fuel] passes. *)
Definition calcGeometricMedianFuel (fuel : nat) : result DataCoords :=
  let medians := <[0%nat := calcCentroid refPoints]> (replicate 4 zeroCoords) in
  medianLoop fuel 0 (mkEstimates medians (replicate 4 zeroCoords)).
End GeometricMedian.

(** The passes [for iterations < MaxIterations] can make: the counter grows
    by 3 from 0. *)
Definition medianFuel (MaxIterations : Z) : nat := Z.to_nat ((MaxIterations + 2) / 3).

Definition calcGeometricMedian (MaxIterations : Z) (Tol : float) : centerFn :=
  fun refPoints =>
    calcGeometricMedianFuel MaxIterations Tol refPoints (medianFuel MaxIterations).

(** *** The estimator in the words of the specification

    The definitions of this section follow the description of the
    geometric-median estimator (specification, section 4.3), not the code;
    they are what [medianLoop] is compared with. *)
Section EstimatorSpec.
Variable MaxIterations : Z.
Variable Tol : float.
Variable refPoints : DataSet.

(** The per-axis absolute differences of two successive estimates. *)
Definition absDiff (e e' : DataCoords) : DataCoords :=
  perAxis (fun k => GoMath.Abs (coord e k - coord e' k)%float).

(** The maximum over the axes is below the tolerance. *)
Definition belowTol (diff : DataCoords) : bool :=
  PrimFloat.ltb (GoMath.Max (coord diff 0) (GoMath.Max (coord diff 1) (coord diff 2))) Tol.

Inductive macroOutcome : Type :=
| Converged (e : DataCoords)   (* the estimate returned at once *)
| NextGuess (e : DataCoords).  (* no sub-step converged *)

(** One macro-iteration from the guess [e0]: two Weiszfeld steps, then
    one Aitken step, the convergence test after each of the three. *)
Definition macroIteration (e0 : DataCoords) : macroOutcome :=
  let e1 := calcWeiszfeldEstimate refPoints e0 in
  let diff1 := absDiff e1 e0 in
  if belowTol diff1 then Converged e1
  else
    let e2 := calcWeiszfeldEstimate refPoints e1 in
    let diff2 := absDiff e2 e1 in
    if belowTol diff2 then Converged e2
    else
      let e3 := calcAitkenEstimate [e0; e1; e2] in
      let diff3 := absDiff e3 e2 in
      if belowTol diff3 then Converged e3
      else
        NextGuess
          (perAxis (fun k =>
             if GoMath.gtb (coord diff1 k) (coord diff2 k)
                && GoMath.gtb (coord diff2 k) (coord diff3 k)
             then coord e3 k else coord e2 k)).

(** Macro-iterations until one converges or the counter, advanced by 3
    after each, has reached [MaxIterations]. *)
Fixpoint estimator (fuel : nat) (counter : Z) (e0 : DataCoords) : result DataCoords :=
  if MaxIterations <=? counter then Halt MaxIterationsExceeded
  else
    match fuel with
    | O => OutOfFuel
    | S fuel' =>
        match macroIteration e0 with
        | Converged e => Ok e
        | NextGuess e0' => estimator fuel' (GoMath.wrap (counter + 3)) e0'
        end
    end.
End EstimatorSpec.

(** [func makeCalcCenter(method string) centerFn]. *)
Definition makeCalcCenter (MaxIterations : Z) (Tol : float) (method : string)
  : result centerFn :=
  if String.eqb method "Centroid" then Ok (fun refPoints => Ok (calcCentroid refPoints))
  else if String.eqb method "DataMidPoint" then Ok (fun refPoints => Ok (calcDataMidPoint refPoints))
  else if String.eqb method "Geometric Median" then Ok (calcGeometricMedian MaxIterations Tol)
  else if String.eqb method "XYZ Medians" then Ok calcXYZMedians
  else Halt InvalidMethod.

(* ===================================================================== *)
(** ** Octree builder *)
(* ===================================================================== *)

(** What the builder closure works on: the global [_octree] and the
    variable [masterNodeIdx] captured from [makeBuilder].  (The captured
    [current] and [total] only feed the progress bar written to the
    terminal, which is left out.) *)
Record build : Type := mkBuild {
  octree : list node.t;
  masterNodeIdx : Z
}.

(** [keys[i] = k; i++] for every key of the map. *)
Definition keysOf (refPoints : DataSet) : list string :=
  map_fold (fun k _ keys => keys ++ [k]) [] refPoints.

(** [for k, v := range *refPoints { childPts[assignOctant(&center,&v)][k] = v }]
    on the eight empty maps. *)
Definition segregate (center : DataCoords) (refPoints : DataSet) : list DataSet :=
  map_fold (fun k v childPts =>
              let o := Z.to_nat (assignOctant center v) in
              <[o := <[k := v]> (childPts !!! o)]> childPts)
           (replicate 8 ∅) refPoints.

Section Builder.
(** The variables captured by the closure that [makeBuilder] returns. *)
Variable calcCenter : centerFn.
Variable terminal_N : Z.

(** One pass of [for k := range childPts]: the next index is reserved
    and recorded as the link for octant [k], then the builder is called
    on the octant's points ([_builder], the closure itself). *)
Definition createChild (_builder : DataSet → build → result build)
    (thisNodeIdx : Z) (childPts : list DataSet) (b : build) (k : Z) : result build :=
  let m := masterNodeIdx b + 1 in
  oct ← update (octree b) thisNodeIdx
          (fun nd => node.setCHILDREN (<[Z.to_nat k := m]> (node.CHILDREN nd)) nd);
  pts ← index childPts k;
  _builder pts (mkBuild oct m).

(** The closure returned by [makeBuilder]. *)
Fixpoint builder (fuel : nat) (refPoints : DataSet) (b : build) : result build :=
  match fuel with
  | O => OutOfFuel
  | S fuel' =>
      let numPts := len refPoints in
      (* Initialize *)
      let oct := octree b ++ [node.blank] in
      let thisNodeIdx := masterNodeIdx b in
      oct ← update oct thisNodeIdx (node.setN numPts);
      (* Check for a leaf node *)
      if numPts <=? terminal_N then
        oct ← update oct thisNodeIdx (node.setKEYS (GoStrings.Join (keysOf refPoints) ","));
        Ok (mkBuild oct (masterNodeIdx b))
      else
        (* Compute the partition point *)
        center ← calcCenter refPoints;
        oct ← update oct thisNodeIdx (node.setCENTER center);
        (* Segregate the data points relative to the partition point *)
        let childPts := segregate center refPoints in
        (* Create the child nodes *)
        foldM (createChild (builder fuel') thisNodeIdx childPts) octants
              (mkBuild oct (masterNodeIdx b))
  end.

(** The points that fall in octant [o] of [center]. *)
Definition childSet (center : DataCoords) (refPoints : DataSet) (o : nat) : DataSet :=
  filter (fun kv => assignOctant center kv.2 = Z.of_nat o) refPoints.

(** The links of a parent whose octant [o] starts at node [bnd o]. *)
Definition linksOf (bnd : nat → nat) : nodeLinks :=
  (fun o => Z.of_nat (bnd o)) <$> seq 0 8.

(** [encodes oct i pts n]: the nodes [i .. n-1] of the node list [oct] are
    the subtree that the builder lays out for the points [pts], its root
    at [i]: a leaf alone, or a parent followed by the subtrees of its
    eight octants in order, octant [o] occupying [bnd o .. bnd (o+1) - 1]. *)
Inductive encodes (oct : list node.t) : nat → DataSet → nat → Prop :=
| enc_leaf (i : nat) (pts : DataSet) :
    len pts <= terminal_N →
    oct !! i = Some (node.mk (len pts) zeroCoords zeroLinks
                             (GoStrings.Join (keysOf pts) ",")) →
    encodes oct i pts (S i)
| enc_parent (i : nat) (pts : DataSet) (center : DataCoords) (bnd : nat → nat) :
    terminal_N < len pts →
    calcCenter pts = Ok center →
    oct !! i = Some (node.mk (len pts) center (linksOf bnd) EmptyString) →
    bnd 0%nat = S i →
    (∀ o, (o < 8)%nat → encodes oct (bnd o) (childSet center pts o) (bnd (S o))) →
    encodes oct i pts (bnd 8%nat).

(** The state of the build when the loop over the octants of a parent is
    about to create octant [o]: the parent, at index [length pre], has its
    first [o] links set, and their subtrees follow it. *)
Definition kidsInv (pre : list node.t) (pts : DataSet) (center : DataCoords)
    (o : nat) (b : build) : Prop :=
  ∃ (bnd : nat → nat) (links : nodeLinks) (kids : list node.t),
    octree b = pre ++ node.mk (len pts) center links EmptyString :: kids
    ∧ masterNodeIdx b = Z.of_nat (length (octree b)) - 1
    ∧ length links = 8%nat
    ∧ (∀ j, (j < o)%nat → links !! j = Some (Z.of_nat (bnd j)))
    ∧ bnd 0%nat = S (length pre)
    ∧ bnd o = length (octree b)
    ∧ (∀ j, (j < o)%nat →
         encodes (octree b) (bnd j) (childSet center pts j) (bnd (S j))).

(** The two shapes of a node at index [j] of the node list [oct]: a
    parent, whose count exceeds the threshold, carries eight links to
    later nodes of the list and no keys; a leaf carries no center and no
    links. *)
Definition parentShaped (oct : list node.t) (j : nat) (nd : node.t) : Prop :=
  terminal_N < node.N nd
  ∧ node.KEYS nd = EmptyString
  ∧ length (node.CHILDREN nd) = 8%nat
  ∧ ∀ o c, node.CHILDREN nd !! o = Some c → Z.of_nat j < c < Z.of_nat (length oct).

Definition leafShaped (nd : node.t) : Prop :=
  0 <= node.N nd <= terminal_N
  ∧ node.CENTER nd = zeroCoords
  ∧ node.CHILDREN nd = zeroLinks.

(** What a call of the builder achieves, from a state where the next
    index is the length of the node list. *)
Definition builderSpec (_builder : DataSet → build → result build) : Prop :=
  ∀ pts b b',
    masterNodeIdx b = Z.of_nat (length (octree b)) →
    _builder pts b = Ok b' →
    ∃ new, octree b' = octree b ++ new
           ∧ masterNodeIdx b' = Z.of_nat (length (octree b')) - 1
           ∧ encodes (octree b') (length (octree b)) pts (length (octree b')).

(** A build has completed with node list [oct] on the points [pts]. *)
Definition built (refPoints : DataSet) (oct : list node.t) : Prop :=
  ∃ fuel b, builder fuel refPoints (mkBuild [] 0) = Ok b ∧ octree b = oct.
End Builder.

(* ===================================================================== *)
(** ** Statistics *)
(* ===================================================================== *)

(** [mathutil.MaxInt] and [mathutil.MinInt] of a 64-bit [int]. *)
Definition MaxInt : Z := 2 ^ 63 - 1.
Definition MinInt : Z := - 2 ^ 63.

(** The tallies of the first loop of [calcStats]. *)
Record tally : Type := mkTally {
  minPts : Z; maxPts : Z;
  numParents : Z; numLeaves : Z; numEmpty : Z;
  leafCounts : list Z
}.

Definition tallyNode (STOP : Z) (t : tally) (v : node.t) : tally :=
  if node.N v >? STOP then
    mkTally (minPts t) (maxPts t) (numParents t + 1) (numLeaves t) (numEmpty t)
            (leafCounts t)
  else
    mkTally (Z.min (minPts t) (node.N v)) (Z.max (maxPts t) (node.N v))
            (numParents t) (numLeaves t + 1)
            (if node.N v =? 0 then numEmpty t + 1 else numEmpty t)
            (leafCounts t ++ [node.N v]).

(** The counts of the leaves among the nodes [l], in order: what the loop
    of [calcStats] collects in [LEAFCOUNTS]. *)
Definition leafCountsOf (STOP : Z) (l : list node.t) : list Z :=
  node.N <$> filter (fun nd => node.N nd <= STOP) l.

Definition sumZ (l : list Z) : Z := foldr Z.add 0 l.

(** The elements [i .. n-1] of a list. *)
Definition segment {A : Type} (l : list A) (i n : nat) : list A :=
  take (n - i) (drop i l).

(** The number of parents among the nodes [l]. *)
Definition parentCount (STOP : Z) (l : list node.t) : nat :=
  length (filter (fun nd => STOP < node.N nd) l).

(** [func calcStats()]. *)
Definition calcStats (s : State) : result State :=
  let st := _stats s in
  let STOP := statistics.STOP st in
  let t := fold_left (tallyNode STOP) (_octree s) (mkTally MaxInt MinInt 0 0 0 []) in
  let mu := fold_left (fun mu v => (mu + GoMath.float64 v)%float) (leafCounts t) 0%float in
  let mu := (mu / GoMath.float64 (numLeaves t))%float in
  let sigma :=
    fold_left (fun sigma v =>
                 let diff := (GoMath.float64 v - mu)%float in (sigma + diff * diff)%float)
              (leafCounts t) 0%float in
  let sigma := GoMath.Sqrt (sigma / GoMath.float64 (numLeaves t)) in
  root ← index (_octree s) 0;
  Ok (mkState (_octree s)
        (statistics.mk (statistics.HOW st) (statistics.SIZE st) STOP (statistics.TIME st)
           (leafCounts t) (minPts t) (maxPts t) (numParents t) (node.N root)
           (numLeaves t) (numEmpty t) (statistics.SIZE st) STOP
           mu sigma (mu - sigma)%float (mu + sigma)%float (minPts t) (maxPts t))).

(* ===================================================================== *)
(** ** Exported functions *)
(* ===================================================================== *)

Section Exported.
Variable MaxIterations : Z.
Variable Tol : float.

(** [func Make(method string, terminal_N int, refPoints *DataSet)].
    [elapsed] is the wall-clock duration measured around the build. *)
Definition Make (fuel : nat) (method : string) (terminal_N : Z) (refPoints : DataSet)
    (elapsed : Z) (s : State) : result State :=
  if negb (terminal_N >? 1) then Halt InvalidThreshold
  else if len refPoints =? 0 then Halt EmptyInput
  else
    (* makeBuilder: a fresh closure, masterNodeIdx = 0 *)
    calcCenter ← makeCalcCenter MaxIterations Tol method;
    let HOW := method in
    let STOP := terminal_N in
    b ← builder calcCenter terminal_N fuel refPoints (mkBuild [] 0);
    let TIME := elapsed in
    let SIZE := Z.of_nat (length (octree b)) in
    calcStats (mkState (octree b) (statistics.setMeta HOW SIZE STOP TIME (_stats s))).

(** The loop of [Query]. *)
Fixpoint descend (fuel : nat) (oct : list node.t) (STOP : Z) (refQueryPt : DataCoords)
    (nodeIdx : Z) : result string :=
  nd ← index oct nodeIdx;
  if node.N nd >? STOP then  (* while node is a parent node *)
    match fuel with
    | O => OutOfFuel
    | S fuel' =>
        next ← index (node.CHILDREN nd) (assignOctant (node.CENTER nd) refQueryPt);
        descend fuel' oct STOP refQueryPt next
    end
  else Ok (node.KEYS nd).

(** [func Query(refQueryPt *DataCoords) string]. *)
Definition Query (fuel : nat) (refQueryPt : DataCoords) (s : State) : result string :=
  if statistics.SIZE (_stats s) =? 0 then Halt EmptyTree
  else descend fuel (_octree s) (statistics.STOP (_stats s)) refQueryPt 0.

(** The loop of [Export] that fills [nodeData]. *)
Definition exportNode (STOP : Z) (k : Z) (v : node.t) : jsonNode.t :=
  if node.N v >? STOP then
    jsonNode.mk k (node.N v) (Some (node.CENTER v)) (Some (node.CHILDREN v)) EmptyString
  else
    jsonNode.mk k (node.N v) None None (node.KEYS v).

(** A slice with the positions of its elements, as [range] yields them. *)
Definition ranged {A : Type} (l : list A) : list (Z * A) :=
  imap (fun k v => (Z.of_nat k, v)) l.

(** The largest size in bytes of one allocation ([maxAlloc] of the Go run
    time on 64-bit Linux) and the sizes in bytes of the structs [node]
    (an int, three float64, eight ints, a string header) and [jsonNode]
    (two ints, two pointers, a string header). *)
Definition maxAlloc : Z := 2 ^ 48.
Definition nodeSize : Z := 112.
Definition jsonNodeSize : Z := 48.

(** [make([]T, n)] for elements of [elemSize] bytes, when the allocator
    can provide [heap] bytes: n zero values; the run time panics for a
    negative n and for a size above [maxAlloc], and gives up when the memory
    cannot be had. *)
Definition makeSlice {A : Type} (elemSize heap : Z) (zero : A) (n : Z) : result (list A) :=
  if (n <? 0) || (maxAlloc <? elemSize * n) then Panic MakeSliceLen
  else if heap <? elemSize * n then Panic OutOfMemory
  else Ok (replicate (Z.to_nat n) zero).

(** What the operating system does to the calls [os.Create],
    [writer.Write], [writer.Sync] and [writer.Close] of [Export]: the first
    of them to return an error, if one does. *)
Inductive osFault : Type :=
| NoFault
| CreateFails
| WriteFails
| SyncFails
| CloseFails.

(** What the file named to [Import] holds, as [os.Stat], [ioutil.ReadFile]
    and [json.Unmarshal] report it. *)
Inductive fileData : Type :=
| NoFile                             (* os.Stat returns an error *)
| EmptyFile                          (* the size of the file is 0 *)
| Unreadable                         (* ioutil.ReadFile returns an error *)
| Undecodable                        (* json.Unmarshal returns an error *)
| Document (jsonIn : jsonOctree.t).  (* json.Unmarshal decodes the record jsonIn *)

(** A node record with a center that [json.Marshal] refuses: a float64
    that is NaN or infinite is an unsupported value. *)
Definition unsupportedValue (v : jsonNode.t) : bool :=
  match jsonNode.CENTER v with
  | Some c => existsb (fun k => GoMath.notFinite (coord c k)) axes
  | None => false
  end.

(** A node record as it is read back from its JSON text: in a string,
    the encoder writes each byte that belongs to no valid UTF-8 sequence as
    U+FFFD; integers, finite float64 (written with the fewest digits that
    identify them) and absent fields are read back as they were. *)
Definition readBack (v : jsonNode.t) : jsonNode.t :=
  jsonNode.mk (jsonNode.ID v) (jsonNode.N v) (jsonNode.CENTER v) (jsonNode.CHILDREN v)
    (GoUtf8.ToValidUTF8 (jsonNode.KEYS v)).

(** [json.Marshal(jsonData)], its output given by the record that
    [json.Unmarshal] decodes from it. *)
Definition jsonMarshal (jsonData : jsonOctree.t) : result jsonOctree.t :=
  if existsb unsupportedValue (jsonOctree.OCTREE jsonData) then Halt MarshalFailed
  else Ok (jsonOctree.mk (GoUtf8.ToValidUTF8 (jsonOctree.HOW jsonData))
             (jsonOctree.STOP jsonData) (jsonOctree.TIME jsonData)
             (jsonOctree.SIZE jsonData) (readBack <$> jsonOctree.OCTREE jsonData)).

(** [json.MarshalIndent(jsonData, "", " ")]: the text of [json.Marshal]
    with newlines and indentation, which decodes alike. *)
Definition jsonMarshalIndent (jsonData : jsonOctree.t) : result jsonOctree.t :=
  jsonMarshal jsonData.

(** The body of the loop of [Export]: [nodeData[k] = jsonNode{...}]. *)
Definition exportStep (STOP : Z) (nodeData : list jsonNode.t) (kv : Z * node.t)
  : result (list jsonNode.t) :=
  let '(k, v) := kv in update nodeData k (fun _ => exportNode STOP k v).

(** [nodeData] and [jsonData] of [Export]. *)
Definition exportRecord (heap : Z) (s : State) : result jsonOctree.t :=
  let st := _stats s in
  nodeData ← makeSlice jsonNodeSize heap jsonNode.zero (statistics.SIZE st);
  nodeData ← foldM (exportStep (statistics.STOP st)) (ranged (_octree s)) nodeData;
  Ok (jsonOctree.mk (statistics.HOW st) (statistics.STOP st) (statistics.TIME st)
        (statistics.SIZE st) nodeData).

(** [func Export(file string, compact bool)]; the outcome of a call
    that returns is what the file holds after it. *)
Definition Export (file : string) (compact : bool) (os : osFault) (heap : Z) (s : State)
  : result fileData :=
  if statistics.SIZE (_stats s) =? 0 then Halt EmptyTree
  else if String.eqb file "" then Halt MissingFileName
  else
    match os with
    | CreateFails => Halt CreateFailed
    | _ =>
        jsonData ← exportRecord heap s;
        output ← (if compact then jsonMarshal jsonData else jsonMarshalIndent jsonData);
        match os with
        | WriteFails => Halt WriteFailed
        | SyncFails => Halt SyncFailed
        | CloseFails => Halt CloseFailed
        | _ => Ok (Document output)
        end
    end.

(** The body of the loop of [Import]. *)
Definition importStep (STOP : Z) (oct : list node.t) (kv : Z * jsonNode.t)
  : result (list node.t) :=
  let '(k, v) := kv in
  oct ← update oct k (node.setN (jsonNode.N v));
  if jsonNode.N v >? STOP then  (* parent node *)
    match jsonNode.CENTER v, jsonNode.CHILDREN v with
    | Some center, Some children =>
        update oct k (fun nd => node.setCHILDREN children (node.setCENTER center nd))
    | _, _ => Panic NilDereference
    end
  else  (* leaf node *)
    update oct k (node.setKEYS (jsonNode.KEYS v)).

(** [Import] from the record [jsonIn] that [json.Unmarshal] decoded. *)
Definition importRecord (jsonIn : jsonOctree.t) (heap : Z) (s : State) : result State :=
  let st := statistics.setMeta (jsonOctree.HOW jsonIn) (jsonOctree.SIZE jsonIn)
              (jsonOctree.STOP jsonIn) (jsonOctree.TIME jsonIn) (_stats s) in
  oct ← makeSlice nodeSize heap node.blank (statistics.SIZE st);
  oct ← foldM (importStep (statistics.STOP st)) (ranged (jsonOctree.OCTREE jsonIn)) oct;
  calcStats (mkState oct st).

(** [func Import(file string)], [input] being what the file holds. *)
Definition Import (input : fileData) (heap : Z) (s : State) : result State :=
  match input with
  | NoFile | EmptyFile => Halt FileMissingOrEmpty
  | Unreadable => Halt ReadFileFailed
  | Undecodable => Halt UnmarshalFailed
  | Document jsonIn => importRecord jsonIn heap s
  end.

(** The centers of the parents of a tree are finite on every axis. *)
Definition finiteCenters (STOP : Z) (oct : list node.t) : bool :=
  forallb (fun nd => negb (node.N nd >? STOP)
                     || forallb (fun k => negb (GoMath.notFinite (coord (node.CENTER nd) k)))
                                axes)
          oct.

(** A record of a parent (by its count) carries the two pointers that
    [Import] dereferences. *)
Definition dereferenceable (STOP : Z) (v : jsonNode.t) : Prop :=
  STOP < jsonNode.N v →
  is_Some (jsonNode.CENTER v) ∧ is_Some (jsonNode.CHILDREN v).

(** The node that [Import] makes of a record: the count decides which of
    the record's fields are read. *)
Definition importNode (STOP : Z) (v : jsonNode.t) : node.t :=
  if jsonNode.N v >? STOP then
    node.mk (jsonNode.N v) (default zeroCoords (jsonNode.CENTER v))
            (default zeroLinks (jsonNode.CHILDREN v)) EmptyString
  else
    node.mk (jsonNode.N v) zeroCoords zeroLinks (jsonNode.KEYS v).

(** A record as [Export] writes them: at position [k] of the node list,
    with [k] as its id, the center and the children and no keys when its
    count makes it a parent, the keys alone when it makes it a leaf. *)
Definition canonicalNode (STOP : Z) (k : nat) (v : jsonNode.t) : Prop :=
  jsonNode.ID v = Z.of_nat k
  ∧ (STOP < jsonNode.N v →
     is_Some (jsonNode.CENTER v) ∧ is_Some (jsonNode.CHILDREN v)
     ∧ jsonNode.KEYS v = EmptyString)
  ∧ (jsonNode.N v <= STOP →
     jsonNode.CENTER v = None ∧ jsonNode.CHILDREN v = None).

(** An exchange record whose node count is the length of its non-empty
    node list and whose node records are all canonical. *)
Definition canonical (jsonIn : jsonOctree.t) : Prop :=
  jsonOctree.SIZE jsonIn = Z.of_nat (length (jsonOctree.OCTREE jsonIn))
  ∧ jsonOctree.OCTREE jsonIn ≠ []
  ∧ ∀ k v, jsonOctree.OCTREE jsonIn !! k = Some v →
           canonicalNode (jsonOctree.STOP jsonIn) k v.

(** An exchange record that [json.Marshal] renders and that is read back
    from the text unchanged: no center with a NaN or an infinity, every
    string valid UTF-8. *)
Definition encodable (jsonIn : jsonOctree.t) : Prop :=
  GoUtf8.ValidString (jsonOctree.HOW jsonIn) = true
  ∧ Forall (fun v => unsupportedValue v = false
                     ∧ GoUtf8.ValidString (jsonNode.KEYS v) = true)
           (jsonOctree.OCTREE jsonIn).

(** A node that carries nothing beside what its count calls for: no keys
    on a parent, neither center nor links on a leaf. *)
Definition normalNode (STOP : Z) (nd : node.t) : Prop :=
  (STOP < node.N nd → node.KEYS nd = EmptyString)
  ∧ (node.N nd <= STOP → node.CENTER nd = zeroCoords ∧ node.CHILDREN nd = zeroLinks).

(** The four method names, as the demo program lists them. *)
Definition methods : list string :=
  ["Centroid"; "DataMidPoint"; "Geometric Median"; "XYZ Medians"].
End Exported.

(** The identifiers in the CSV string that [Query] returns, as the demo
    program reads them: [strings.Split(octree.Query(&v), ",")]. *)
Definition identifiers (keys : string) : list string := GoStrings.Split keys comma.

(** The default values of [MaxIterations] and [Tol]. *)
Definition defaultMaxIterations : Z := 1000.
Definition defaultTol : float := 0x1.19799812dea11p-40%float.  (* 1.0E-12 *)

(* ===================================================================== *)
(** ** Sample inputs *)
(* ===================================================================== *)

(** Three points: A at the origin, B at (1,1,1), C at (2,0,0). *)
Definition samplePoints : DataSet :=
  list_to_map [("A", mkCoords 0 0 0); ("B", mkCoords 1 1 1); ("C", mkCoords 2 0 0)]%float.

(** A single point whose identifier holds a comma. *)
Definition commaPoints : DataSet := {[ "a,b" := zeroCoords ]}.

(** Three points whose centroid, the first guess of the geometric median,
    is one of them. *)
Definition degeneratePoints : DataSet :=
  list_to_map [("a", mkCoords 0 0 0); ("b", mkCoords 1 1 1);
               ("c", mkCoords (-1) (-1) (-1))]%float.

(** Three points at the same place. *)
Definition coincidentPoints : DataSet :=
  list_to_map [("p", mkCoords 1 2 3); ("q", mkCoords 1 2 3); ("r", mkCoords 1 2 3)]%float.


(** Three points with the abscissa 2^1023: the sum of their abscissas
    overflows, and their centroid is infinite on the first axis. *)
Definition hugePoints : DataSet :=
  list_to_map [("a", mkCoords 0x1p1023 0 0); ("b", mkCoords 0x1p1023 1 0);
               ("c", mkCoords 0x1p1023 2 0)]%float.

(** A single point whose identifier, the byte 0xFF, is not valid UTF-8. *)
Definition invalidKey : string := String (ascii_of_N 0xFF) EmptyString.
Definition invalidKeyPoints : DataSet := {[ invalidKey := zeroCoords ]}.

(** An exchange record of one parent whose eight links lead back to it. *)
Definition cyclicRecord : jsonOctree.t :=
  jsonOctree.mk "Centroid" 2 0 1
    [jsonNode.mk 0 5 (Some zeroCoords) (Some zeroLinks) ""].

(** A canonical exchange record: a parent of three points and its eight
    leaves. *)
Definition canonicalRecord : jsonOctree.t :=
  jsonOctree.mk "Centroid" 2 7 9
    [jsonNode.mk 0 3 (Some (mkCoords 1 0.5 0.5)) (Some [1; 2; 3; 4; 5; 6; 7; 8]) "";
     jsonNode.mk 1 1 None None "A"; jsonNode.mk 2 1 None None "C";
     jsonNode.mk 3 0 None None ""; jsonNode.mk 4 0 None None "";
     jsonNode.mk 5 0 None None ""; jsonNode.mk 6 0 None None "";
     jsonNode.mk 7 1 None None "B"; jsonNode.mk 8 0 None None ""].

(** An exchange record that declares two nodes and lists one. *)
Definition shortRecord : jsonOctree.t :=
  jsonOctree.mk "Centroid" 2 0 2 [jsonNode.mk 0 1 None None "A"].

(** An exchange record that declares one node and lists two. *)
Definition longRecord : jsonOctree.t :=
  jsonOctree.mk "Centroid" 2 0 1
    [jsonNode.mk 0 1 None None "A"; jsonNode.mk 1 1 None None "B"].

(** An exchange record whose only node is a parent by its count, 5 above
    the threshold 2, and has neither center nor children. *)
Definition orphanRecord : jsonOctree.t :=
  jsonOctree.mk "Centroid" 2 0 1 [jsonNode.mk 0 5 None None "A"].

(* ===================================================================== *)
(** ** Properties *)
(* ===================================================================== *)

Section OctantRule.

Lemma SFcompare_finite_refl (s : bool) (m : positive) (e : Z) :
  SFcompare (S754_finite s m e) (S754_finite s m e) = Some Eq.
Proof.
  simpl. rewrite Z.compare_refl.
  change (PosDef.Pos.compare_cont Eq m m) with (Pos.compare m m).
  rewrite Pos.compare_refl. by destruct s.
Qed.

Lemma SFcompare_Eq_sym (x y : spec_float) :
  SFcompare x y = Some Eq → SFcompare y x = Some Eq.
Proof.
  destruct x as [s|s| |s m e], y as [s'|s'| |s' m' e']; simpl; try congruence;
    try (destruct s; congruence); try (destruct s'; congruence).
  - destruct s, s'; simpl; congruence.
  - intros H. injection H as H.
    assert (s = s' ∧ e = e' ∧ m = m') as (-> & -> & ->).
    { destruct s, s'; try discriminate;
        destruct (Z.compare_spec e e') as [He|He|He]; try discriminate;
        change (PosDef.Pos.compare_cont Eq m m') with (Pos.compare m m') in H;
        destruct (Pos.compare_spec m m'); try discriminate; auto. }
    apply SFcompare_finite_refl.
Qed.

Lemma gtb_irrefl (x : float) : GoMath.gtb x x = false.
Proof.
  unfold GoMath.gtb. rewrite ltb_spec. unfold SFltb.
  destruct (Prim2SF x) as [s|s| |s m e]; try reflexivity.
  - by destruct s.
  - by rewrite SFcompare_finite_refl.
Qed.

Lemma gtb_eqb (x y : float) : PrimFloat.eqb x y = true → GoMath.gtb x y = false.
Proof.
  unfold GoMath.gtb. rewrite FloatAxioms.eqb_spec, ltb_spec. unfold SFeqb, SFltb.
  destruct (SFcompare (Prim2SF x) (Prim2SF y)) as [[]|] eqn:E; try discriminate.
  intros _. by rewrite (SFcompare_Eq_sym _ _ E).
Qed.

Lemma assignOctant_unfold (c p : DataCoords) :
  assignOctant c p =
    Z.b2z (GoMath.gtb (coord p 0) (coord c 0))
    + 2 * Z.b2z (GoMath.gtb (coord p 1) (coord c 1))
    + 4 * Z.b2z (GoMath.gtb (coord p 2) (coord c 2)).
Proof.
  unfold assignOctant, axes. simpl.
  destruct (GoMath.gtb (c0 p) (c0 c)), (GoMath.gtb (c1 p) (c1 c)),
    (GoMath.gtb (c2 p) (c2 c)); reflexivity.
Qed.

Lemma assignOctant_range (c p : DataCoords) : 0 <= assignOctant c p <= 7.
Proof.
  rewrite assignOctant_unfold.
  destruct (GoMath.gtb _ _), (GoMath.gtb _ _), (GoMath.gtb _ _); simpl; lia.
Qed.

Lemma assignOctant_testbit (c p : DataCoords) (k : nat) :
  (k < 3)%nat →
  Z.testbit (assignOctant c p) (Z.of_nat k) = GoMath.gtb (coord p k) (coord c k).
Proof.
  intros Hk. rewrite assignOctant_unfold.
  destruct k as [|[|[|k]]]; try lia; simpl;
    destruct (GoMath.gtb (c0 p) (c0 c)), (GoMath.gtb (c1 p) (c1 c)),
      (GoMath.gtb (c2 p) (c2 c)); reflexivity.
Qed.

(** C4. Octant assignment is a total function of (center, point) whose
    value lies in [0,7]; bit k of the value (bit 0 = x, 1 = y, 2 = z) is set
    exactly when the point's coordinate on axis k is strictly greater than
    the center's; a coordinate equal to the center's (identical, or equal
    under Go's [==]) leaves the bit unset, and a point equal to the center
    on all three axes is assigned octant 0. *)
Theorem C4_assignOctant_rule (c p : DataCoords) :
  0 <= assignOctant c p <= 7
  ∧ (∀ k, (k < 3)%nat →
       Z.testbit (assignOctant c p) (Z.of_nat k) = GoMath.gtb (coord p k) (coord c k))
  ∧ (∀ k, (k < 3)%nat →
       coord p k = coord c k ∨ PrimFloat.eqb (coord p k) (coord c k) = true →
       Z.testbit (assignOctant c p) (Z.of_nat k) = false)
  ∧ ((∀ k, (k < 3)%nat →
        coord p k = coord c k ∨ PrimFloat.eqb (coord p k) (coord c k) = true) →
     assignOctant c p = 0).
Proof.
  split; [apply assignOctant_range|].
  split; [apply assignOctant_testbit|].
  assert (Hlow : ∀ k, coord p k = coord c k ∨ PrimFloat.eqb (coord p k) (coord c k) = true →
                      GoMath.gtb (coord p k) (coord c k) = false).
  { intros k [->|H]; [apply gtb_irrefl|by apply gtb_eqb]. }
  split.
  - intros k Hk H. rewrite assignOctant_testbit by done. by apply Hlow.
  - intros H. rewrite assignOctant_unfold.
    rewrite (Hlow 0%nat), (Hlow 1%nat), (Hlow 2%nat); try (apply H; lia). reflexivity.
Qed.

End OctantRule.

(** An instance of C4: a point above the center on x and z and equal to it
    on y lies in octant 5, and the center itself in octant 0. *)
Lemma C4_assignOctant_rule_witness :
  assignOctant (mkCoords 0.5 0.5 0.5) (mkCoords 1 0.5 2) = 5
  ∧ Z.testbit (assignOctant (mkCoords 0.5 0.5 0.5) (mkCoords 1 0.5 2)) 1 = false
  ∧ assignOctant (mkCoords 0.5 0.5 0.5) (mkCoords 0.5 0.5 0.5) = 0.
Proof.
  split; [reflexivity|]. split.
  - apply (C4_assignOctant_rule (mkCoords 0.5 0.5 0.5) (mkCoords 1 0.5 2)) with (k := 1%nat);
      [lia | left; reflexivity].
  - apply (C4_assignOctant_rule (mkCoords 0.5 0.5 0.5) (mkCoords 0.5 0.5 0.5)).
    intros k Hk. left. reflexivity.
Defined.

(* ===================================================================== *)
(** ** Slices, keys and the segregation of points *)
(* ===================================================================== *)

Section Basics.

Lemma bind_Ok {A B : Type} (m : result A) (k : A → result B) (b : B) :
  (m ≫= k) = Ok b ↔ ∃ a, m = Ok a ∧ k a = Ok b.
Proof.
  destruct m; simpl; split; try (intros (? & ? & ?)); try discriminate; eauto.
  by simplify_eq.
Qed.

Lemma index_Ok {A : Type} (l : list A) (i : Z) (a : A) :
  index l i = Ok a ↔ 0 <= i ∧ l !! Z.to_nat i = Some a.
Proof.
  unfold index. destruct (Z.ltb_spec i 0).
  - split; [discriminate | lia].
  - destruct (l !! Z.to_nat i); split; intros; simplify_eq; try done.
    + destruct_and!. by simplify_eq.
    + destruct_and!. by simplify_eq.
Qed.

Lemma index_nat {A : Type} (l : list A) (i : nat) (a : A) :
  l !! i = Some a → index l (Z.of_nat i) = Ok a.
Proof. intros H. apply index_Ok. rewrite Nat2Z.id. split; [lia | done]. Qed.

Lemma update_Ok {A : Type} (l l' : list A) (i : Z) (f : A → A) :
  update l i f = Ok l' ↔
  ∃ a, 0 <= i ∧ l !! Z.to_nat i = Some a ∧ l' = <[Z.to_nat i := f a]> l.
Proof.
  unfold update. rewrite bind_Ok. split.
  - intros (a & Hi & Hk). apply index_Ok in Hi as [? ?]. exists a. by simplify_eq.
  - intros (a & ? & ? & ->). exists a. split; [by apply index_Ok | done].
Qed.

Lemma update_nat {A : Type} (l : list A) (i : nat) (f : A → A) (a : A) :
  l !! i = Some a → update l (Z.of_nat i) f = Ok (<[i := f a]> l).
Proof.
  intros H. apply update_Ok. exists a. rewrite Nat2Z.id. split; [lia | done].
Qed.

Lemma elem_of_keysOf (pts : DataSet) (k : string) :
  k ∈ keysOf pts ↔ is_Some (pts !! k).
Proof.
  unfold keysOf.
  apply (map_fold_weak_ind (fun keys (m : DataSet) => k ∈ keys ↔ is_Some (m !! k))).
  - rewrite lookup_empty. split; [by intros ?%elem_of_nil | by intros [? ?]].
  - intros i x m r Hi IH. rewrite elem_of_app, list_elem_of_singleton, IH.
    destruct (decide (i = k)) as [->|Hne].
    + rewrite lookup_insert_eq. split; [eauto | by right].
    + rewrite lookup_insert_ne by done. split; [by intros [?|?] | by left].
Qed.

Lemma length_keysOf (pts : DataSet) : length (keysOf pts) = size pts.
Proof.
  unfold keysOf.
  apply (map_fold_weak_ind (fun keys (m : DataSet) => length keys = size m)).
  - by rewrite map_size_empty.
  - intros i x m r Hi IH. rewrite length_app, IH, map_size_insert_None by done.
    simpl. lia.
Qed.

End Basics.

Section Segregation.
Variable center : DataCoords.

Lemma octant_nat (v : DataCoords) :
  (Z.to_nat (assignOctant center v) < 8)%nat
  ∧ assignOctant center v = Z.of_nat (Z.to_nat (assignOctant center v)).
Proof. pose proof (assignOctant_range center v). lia. Qed.

Lemma childSet_empty (o : nat) : childSet center ∅ o = ∅.
Proof. apply map_filter_empty. Qed.

Lemma childSet_insert (pts : DataSet) (k : string) (v : DataCoords) (o : nat) :
  pts !! k = None →
  childSet center (<[k := v]> pts) o =
    if decide (Z.to_nat (assignOctant center v) = o)
    then <[k := v]> (childSet center pts o) else childSet center pts o.
Proof.
  intros Hk. unfold childSet. destruct (octant_nat v) as [_ Ho].
  case_decide as Hd.
  - rewrite map_filter_insert_True; [done | simpl; lia].
  - rewrite map_filter_insert_False, delete_id; [done | done | simpl; lia].
Qed.

Lemma childSet_lookup (pts : DataSet) (k : string) (v : DataCoords) (o : nat) :
  childSet center pts o !! k = Some v ↔
  pts !! k = Some v ∧ assignOctant center v = Z.of_nat o.
Proof. unfold childSet. by rewrite map_lookup_filter_Some. Qed.

(** The loop that fills [childPts] leaves in slot [o] the points of
    octant [o]. *)
Lemma segregate_childSet (pts : DataSet) :
  segregate center pts = childSet center pts <$> seq 0 8.
Proof.
  unfold segregate.
  apply (map_fold_weak_ind
           (fun childPts (m : DataSet) => childPts = childSet center m <$> seq 0 8)).
  - simpl. by rewrite !childSet_empty.
  - intros k v m r Hk ->. destruct (octant_nat v) as [Ho _].
    simpl. rewrite !childSet_insert by done.
    destruct (Z.to_nat (assignOctant center v)) as [|[|[|[|[|[|[|[|o]]]]]]]];
      [reflexivity .. | lia].
Qed.

Lemma segregate_index (pts : DataSet) (o : nat) :
  (o < 8)%nat → index (segregate center pts) (Z.of_nat o) = Ok (childSet center pts o).
Proof.
  intros Ho. apply index_nat. rewrite segregate_childSet, list_lookup_fmap.
  rewrite lookup_seq_lt by done. reflexivity.
Qed.

(** The eight octants share out the points. *)
Lemma childSet_sizes (pts : DataSet) :
  sum_list ((fun o => size (childSet center pts o)) <$> seq 0 8) = size pts.
Proof.
  induction pts as [|k v m Hk IH] using map_ind.
  - simpl. by rewrite !childSet_empty, !map_size_empty.
  - rewrite map_size_insert_None by done. rewrite <- IH. clear IH.
    destruct (octant_nat v) as [Ho _]. simpl. rewrite !childSet_insert by done.
    assert (Hnone : ∀ o, childSet center m o !! k = None).
    { intros o. destruct (childSet center m o !! k) eqn:E; [|done].
      apply childSet_lookup in E as [E _]. congruence. }
    destruct (Z.to_nat (assignOctant center v)) as [|[|[|[|[|[|[|[|o]]]]]]]];
      try lia; simpl; rewrite map_size_insert_None by apply Hnone; lia.
Qed.

End Segregation.

(* ===================================================================== *)
(** ** The layout of a built tree *)
(* ===================================================================== *)

Section Layout.
Variable calcCenter : centerFn.
Variable terminal_N : Z.

Local Abbreviation encodes := (encodes calcCenter terminal_N).
Local Abbreviation builder := (builder calcCenter terminal_N).

(** Octant boundaries that increase step by step are ordered. *)
Lemma bnd_ordered (bnd : nat → nat) (n : nat) :
  (∀ o, (o < n)%nat → (bnd o < bnd (S o))%nat) →
  ∀ a b, (a <= b <= n)%nat → (bnd a <= bnd b)%nat.
Proof.
  intros H a b. induction b as [|b IH]; intros Hab.
  - by replace a with 0%nat by lia.
  - destruct (decide (a = S b)) as [->|Hne]; [done|].
    pose proof (H b ltac:(lia)). pose proof (IH ltac:(lia)). lia.
Qed.

Lemma encodes_bounds (oct : list node.t) (i : nat) (pts : DataSet) (n : nat) :
  encodes oct i pts n → (i < n)%nat ∧ (n <= length oct)%nat.
Proof.
  induction 1 as [i pts Hn Hi | i pts center bnd Hn Hc Hi H0 Hkids IH].
  - apply lookup_lt_Some in Hi. lia.
  - pose proof (bnd_ordered bnd 8 (fun o Ho => proj1 (IH o Ho)) 0%nat 7%nat ltac:(lia)).
    pose proof (IH 7%nat ltac:(lia)). lia.
Qed.

Lemma encodes_kids_ordered (oct : list node.t) (center : DataCoords) (pts : DataSet)
    (bnd : nat → nat) (n : nat) :
  (∀ o, (o < n)%nat → encodes oct (bnd o) (childSet center pts o) (bnd (S o))) →
  ∀ o, (o < n)%nat →
    (bnd 0 <= bnd o)%nat ∧ (bnd o < bnd (S o))%nat ∧ (bnd (S o) <= bnd n)%nat.
Proof.
  intros H o Ho.
  assert (Hlt : ∀ o, (o < n)%nat → (bnd o < bnd (S o))%nat).
  { intros o' Ho'. by apply (encodes_bounds _ _ _ _ (H o' Ho')). }
  pose proof (bnd_ordered bnd n Hlt 0%nat o ltac:(lia)).
  pose proof (bnd_ordered bnd n Hlt (S o) n ltac:(lia)).
  pose proof (Hlt o Ho). lia.
Qed.

(** The predicate reads the nodes [i .. n-1] only. *)
Lemma encodes_local (oct oct' : list node.t) (i : nat) (pts : DataSet) (n : nat) :
  encodes oct i pts n →
  (∀ j, (i <= j < n)%nat → oct' !! j = oct !! j) →
  encodes oct' i pts n.
Proof.
  intros H. revert oct'.
  induction H as [i pts Hn Hi | i pts center bnd Hn Hc Hi H0 Hkids IH]; intros oct' Heq.
  - apply enc_leaf; [done|]. rewrite Heq; [done | lia].
  - pose proof (encodes_kids_ordered oct center pts bnd 8 Hkids) as Hord.
    pose proof (Hord 0%nat ltac:(lia)).
    apply enc_parent with (center := center); try done.
    + rewrite Heq; [done | lia].
    + intros o Ho. apply IH; [done|]. intros j Hj. apply Heq.
      pose proof (Hord o Ho). lia.
Qed.

Lemma encodes_app (oct more : list node.t) (i : nat) (pts : DataSet) (n : nat) :
  encodes oct i pts n → encodes (oct ++ more) i pts n.
Proof.
  intros H. apply (encodes_local oct); [done|]. intros j Hj.
  apply lookup_app_l. pose proof (encodes_bounds _ _ _ _ H). lia.
Qed.

Lemma createChild_kidsInv (_builder : DataSet → build → result build)
    (pre : list node.t) (pts : DataSet) (center : DataCoords) (o : nat) (b b' : build) :
  builderSpec calcCenter terminal_N _builder →
  (o < 8)%nat →
  kidsInv calcCenter terminal_N pre pts center o b →
  createChild _builder (Z.of_nat (length pre)) (segregate center pts) b (Z.of_nat o) = Ok b' →
  kidsInv calcCenter terminal_N pre pts center (S o) b'.
Proof.
  intros Hrec Ho (bnd & links & kids & Hoct & Hm & Hlen & Hlinks & Hb0 & Hbo & Henc).
  unfold createChild. rewrite bind_Ok. intros (oct' & Hupd & Hrest).
  rewrite Hoct in Hupd.
  rewrite (update_nat _ _ _ (node.mk (len pts) center links EmptyString)) in Hupd
    by (by rewrite list_lookup_middle).
  injection Hupd as <-. simpl in Hrest. rewrite Nat2Z.id in Hrest.
  rewrite segregate_index in Hrest by done. simpl in Hrest.
  set (links' := <[o := masterNodeIdx b + 1]> links) in *.
  set (parent' := node.setCHILDREN links' (node.mk (len pts) center links EmptyString)) in *.
  assert (Hins : <[length pre := parent']>
                   (pre ++ node.mk (len pts) center links EmptyString :: kids)
                 = pre ++ parent' :: kids).
  { rewrite insert_app_r_alt, Nat.sub_diag by lia. reflexivity. }
  rewrite Hins in Hrest.
  assert (Hlen' : length (pre ++ parent' :: kids) = length (octree b)).
  { rewrite Hoct, !length_app. simpl. lia. }
  apply Hrec in Hrest as (new & Hoct1 & Hm1 & Henc1); simpl in *; [|lia].
  rewrite Hlen' in Henc1.
  exists (fun j => if decide (j = S o) then length (octree b') else bnd j),
         links', (kids ++ new).
  split; [by rewrite Hoct1, <- app_assoc|].
  split; [done|].
  split; [subst links'; by rewrite length_insert|].
  split.
  { intros j Hj. rewrite decide_False by lia. subst links'.
    destruct (decide (j = o)) as [->|Hne].
    - rewrite list_lookup_insert_eq by lia. f_equal. lia.
    - rewrite list_lookup_insert_ne by done. apply Hlinks. lia. }
  split; [by rewrite decide_False by lia|].
  split; [by rewrite decide_True|].
  intros j Hj. rewrite (decide_False (P := j = S o)) by lia.
  destruct (decide (j = o)) as [->|Hne].
  - rewrite decide_True by done. by rewrite Hbo.
  - rewrite decide_False by lia.
    assert (Hjo : (j < o)%nat) by lia.
    pose proof (encodes_kids_ordered _ _ _ _ o Henc j Hjo) as Hord.
    apply (encodes_local (octree b)); [by apply Henc|].
    intros i Hi. rewrite Hoct1, Hoct.
    assert ((i < length (octree b))%nat) by lia.
    rewrite lookup_app_l by lia.
    rewrite !lookup_app_r by lia.
    destruct (i - length pre)%nat as [|d] eqn:Hd; [lia | done].
Qed.

Lemma createChildren_kidsInv (_builder : DataSet → build → result build)
    (pre : list node.t) (pts : DataSet) (center : DataCoords) (n : nat) :
  builderSpec calcCenter terminal_N _builder →
  ∀ (o : nat) (b b' : build),
    (o + n = 8)%nat →
    kidsInv calcCenter terminal_N pre pts center o b →
    foldM (createChild _builder (Z.of_nat (length pre)) (segregate center pts))
          (Z.of_nat <$> seq o n) b = Ok b' →
    kidsInv calcCenter terminal_N pre pts center 8 b'.
Proof.
  intros Hrec. induction n as [|n IH]; intros o b b' Hon Hinv; simpl.
  - intros [= <-]. by replace 8%nat with o by lia.
  - fold (@mbind result _). rewrite bind_Ok. intros (b1 & Hstep & Hrest).
    apply (IH (S o) b1); [lia | | done].
    apply (createChild_kidsInv _builder pre pts center o b); [done | lia | done | done].
Qed.

Lemma linksOf_eq (bnd : nat → nat) (links : nodeLinks) :
  length links = 8%nat →
  (∀ j, (j < 8)%nat → links !! j = Some (Z.of_nat (bnd j))) →
  links = linksOf bnd.
Proof.
  intros Hlen H.
  destruct links as [|l0 [|l1 [|l2 [|l3 [|l4 [|l5 [|l6 [|l7 [|l8 links]]]]]]]]];
    try discriminate.
  pose proof (H 0%nat ltac:(lia)). pose proof (H 1%nat ltac:(lia)).
  pose proof (H 2%nat ltac:(lia)). pose proof (H 3%nat ltac:(lia)).
  pose proof (H 4%nat ltac:(lia)). pose proof (H 5%nat ltac:(lia)).
  pose proof (H 6%nat ltac:(lia)). pose proof (H 7%nat ltac:(lia)).
  simpl in *. by simplify_eq.
Qed.

(** Every call of the builder that returns has appended to the node list
    the encoding of the subtree of its points. *)
Lemma builder_builderSpec (fuel : nat) :
  builderSpec calcCenter terminal_N (builder fuel).
Proof.
  induction fuel as [|fuel IH]; intros pts b b' Hm; simpl; [discriminate|].
  rewrite Hm.
  rewrite (update_nat _ _ _ node.blank) by (by rewrite list_lookup_middle).
  simpl. rewrite insert_app_r_alt, Nat.sub_diag by lia. simpl.
  destruct (Z.leb_spec (len pts) terminal_N) as [Hle|Hgt].
  - rewrite (update_nat _ _ _ (node.setN (len pts) node.blank))
      by (by rewrite list_lookup_middle).
    simpl. rewrite insert_app_r_alt, Nat.sub_diag by lia. simpl.
    intros [= <-]. simpl.
    eexists. split; [reflexivity|].
    rewrite length_app. simpl. split; [lia|].
    replace (length (octree b) + 1)%nat with (S (length (octree b))) by lia.
    apply enc_leaf; [done|]. by rewrite list_lookup_middle.
  - destruct (calcCenter pts) as [center| | |] eqn:Hc; simpl; try discriminate.
    rewrite (update_nat _ _ _ (node.setN (len pts) node.blank))
      by (by rewrite list_lookup_middle).
    simpl. rewrite insert_app_r_alt, Nat.sub_diag by lia. simpl.
    intros Hloop.
    apply (createChildren_kidsInv (builder fuel) (octree b) pts center 8 IH 0%nat)
      in Hloop as (bnd & links & kids & Hoct & Hm' & Hlen & Hlinks & Hb0 & Hb8 & Henc);
      [|done|].
    + exists (node.mk (len pts) center links EmptyString :: kids).
      split; [done|]. split; [done|].
      rewrite <- Hb8.
      apply enc_parent with (center := center); try done.
      rewrite Hoct, list_lookup_middle by done.
      by rewrite (linksOf_eq bnd links).
    + exists (fun _ => S (length (octree b))), zeroLinks, [].
      simpl. rewrite length_app. simpl.
      split; [done|]. split; [lia|]. split; [done|].
      split; [intros; lia|]. split; [done|]. split; [lia|]. intros; lia.
Qed.

Lemma built_encodes (pts : DataSet) (oct : list node.t) :
  built calcCenter terminal_N pts oct → encodes oct 0 pts (length oct).
Proof.
  intros (fuel & b & Hb & <-).
  apply builder_builderSpec in Hb as (new & Hnew & _ & Henc); [|done].
  exact Henc.
Qed.

End Layout.

(* ===================================================================== *)
(** ** Descending a built tree *)
(* ===================================================================== *)

Section Descent.
Variable calcCenter : centerFn.
Variable terminal_N : Z.

Local Abbreviation encodes := (encodes calcCenter terminal_N).

Lemma linksOf_index (bnd : nat → nat) (center q : DataCoords) :
  ∃ o, (o < 8)%nat ∧ assignOctant center q = Z.of_nat o
       ∧ index (linksOf bnd) (assignOctant center q) = Ok (Z.of_nat (bnd o)).
Proof.
  destruct (octant_nat center q) as [Ho Heq].
  exists (Z.to_nat (assignOctant center q)). split; [done|]. split; [done|].
  rewrite Heq at 1. apply index_nat. unfold linksOf.
  rewrite list_lookup_fmap, lookup_seq_lt by done. reflexivity.
Qed.

Lemma linksOf_lookup (bnd : nat → nat) (o : nat) (c : Z) :
  linksOf bnd !! o = Some c ↔ (o < 8)%nat ∧ c = Z.of_nat (bnd o).
Proof.
  unfold linksOf. rewrite list_lookup_fmap. split.
  - intros H. destruct (seq 0 8 !! o) as [o'|] eqn:E; [|done].
    apply lookup_seq in E as [-> ?]. simpl in H. by simplify_eq.
  - intros [Ho ->]. by rewrite lookup_seq_lt.
Qed.

(** From the root of an encoded subtree the descent reaches one of its
    leaves, for any query point, within as many steps as it has nodes. *)
Lemma descend_encodes (oct : list node.t) (i : nat) (pts : DataSet) (n : nat)
    (q : DataCoords) :
  encodes oct i pts n →
  ∀ fuel, (n - i <= fuel)%nat →
    ∃ j nd, (i <= j < n)%nat ∧ oct !! j = Some nd ∧ node.N nd <= terminal_N
            ∧ descend fuel oct terminal_N q (Z.of_nat i) = Ok (node.KEYS nd).
Proof.
  induction 1 as [i pts Hn Hi | i pts center bnd Hn Hc Hi H0 Hkids IH]; intros fuel Hfuel.
  - exists i, (node.mk (len pts) zeroCoords zeroLinks (GoStrings.Join (keysOf pts) ",")).
    split; [lia|]. split; [done|]. split; [done|].
    destruct fuel; simpl; rewrite (index_nat _ _ _ Hi); simpl;
      destruct (Z.gtb_spec (len pts) terminal_N); try lia; done.
  - pose proof (encodes_kids_ordered _ _ _ _ _ _ 8 Hkids) as Hord.
    destruct (linksOf_index bnd center q) as (o & Ho & _ & Hidx).
    pose proof (Hord o Ho) as Ho3. pose proof (Hord 0%nat ltac:(lia)).
    destruct fuel as [|fuel]; [lia|].
    destruct (IH o Ho fuel ltac:(lia)) as (j & nd & Hj & Hnd & Hleaf & Hdesc).
    exists j, nd. split; [lia|]. split; [done|]. split; [done|].
    simpl. rewrite (index_nat _ _ _ Hi). simpl.
    destruct (Z.gtb_spec (len pts) terminal_N); [|lia].
    rewrite Hidx. simpl. exact Hdesc.
Qed.

(** Queried with the coordinates of one of its points, an encoded subtree
    answers with the keys of a leaf that holds the point's key. *)
Lemma descend_member (oct : list node.t) (i : nat) (pts : DataSet) (n : nat)
    (k : string) (v : DataCoords) :
  encodes oct i pts n →
  pts !! k = Some v →
  ∀ fuel, (n - i <= fuel)%nat →
    ∃ keys, k ∈ keys
            ∧ descend fuel oct terminal_N v (Z.of_nat i) = Ok (GoStrings.Join keys ",").
Proof.
  induction 1 as [i pts Hn Hi | i pts center bnd Hn Hc Hi H0 Hkids IH];
    intros Hk fuel Hfuel.
  - exists (keysOf pts). split; [apply elem_of_keysOf; eauto|].
    destruct fuel; simpl; rewrite (index_nat _ _ _ Hi); simpl;
      destruct (Z.gtb_spec (len pts) terminal_N); try lia; done.
  - pose proof (encodes_kids_ordered _ _ _ _ _ _ 8 Hkids) as Hord.
    destruct (linksOf_index bnd center v) as (o & Ho & Hoct & Hidx).
    pose proof (Hord o Ho) as Ho3. pose proof (Hord 0%nat ltac:(lia)).
    destruct fuel as [|fuel]; [lia|].
    destruct (IH o Ho) with (fuel := fuel) as (keys & Hin & Hdesc);
      [by apply childSet_lookup | lia |].
    exists keys. split; [done|].
    simpl. rewrite (index_nat _ _ _ Hi). simpl.
    destruct (Z.gtb_spec (len pts) terminal_N); [|lia].
    rewrite Hidx. simpl. exact Hdesc.
Qed.

End Descent.

(* ===================================================================== *)
(** ** Shape and counts of a built tree *)
(* ===================================================================== *)

Section Shape.
Variable calcCenter : centerFn.
Variable terminal_N : Z.

Local Abbreviation encodes := (encodes calcCenter terminal_N).

(** An index within the span of the eight octants lies in one of them. *)
Lemma bnd_locate (bnd : nat → nat) (j : nat) :
  (∀ o, (o < 8)%nat → (bnd o < bnd (S o))%nat) →
  (bnd 0 <= j < bnd 8)%nat →
  ∃ o, (o < 8)%nat ∧ (bnd o <= j < bnd (S o))%nat.
Proof.
  intros Hlt Hj.
  assert (H : ∀ m, (m <= 8)%nat → (j < bnd m)%nat →
                   ∃ o, (o < m)%nat ∧ (bnd o <= j < bnd (S o))%nat).
  { induction m as [|m IH]; intros Hm Hjm; [lia|].
    destruct (decide (j < bnd m)%nat) as [Hlt'|Hge].
    - destruct (IH ltac:(lia) Hlt') as (o & ? & ?). exists o. split; [lia | done].
    - exists m. split; lia. }
  destruct (H 8%nat ltac:(lia) ltac:(lia)) as (o & ? & ?). eauto.
Qed.

(** Every node of an encoded subtree has one of the two shapes. *)
Lemma encodes_shape (oct : list node.t) (i : nat) (pts : DataSet) (n : nat) :
  encodes oct i pts n →
  ∀ j nd, (i <= j < n)%nat → oct !! j = Some nd →
    parentShaped terminal_N oct j nd ∨ leafShaped terminal_N nd.
Proof.
  induction 1 as [i pts Hn Hi | i pts center bnd Hn Hc Hi H0 Hkids IH];
    intros j nd Hj Hnd.
  - replace j with i in * by lia. simplify_eq. right.
    split; [simpl; unfold len in *; lia | done].
  - pose proof (encodes_kids_ordered _ _ _ _ _ _ 8 Hkids) as Hord.
    destruct (decide (j = i)) as [->|Hne].
    + simplify_eq. left. split; [done|]. split; [done|]. split; [done|].
      simpl. intros o c [Ho ->]%linksOf_lookup.
      pose proof (Hord o Ho). pose proof (Hord 0%nat ltac:(lia)).
      pose proof (encodes_bounds _ _ _ _ _ _ (Hkids 7%nat ltac:(lia))). lia.
    + destruct (bnd_locate bnd j) as (o & Ho & Hjo);
        [intros o Ho; apply (Hord o Ho) | lia |].
      by apply (IH o Ho).
Qed.

(** Every node but the first of an encoded subtree is linked from a
    parent that precedes it. *)
Lemma encodes_linked (oct : list node.t) (i : nat) (pts : DataSet) (n : nat) :
  encodes oct i pts n →
  ∀ j, (i < j < n)%nat →
    ∃ p nd o, (i <= p < j)%nat ∧ oct !! p = Some nd ∧ terminal_N < node.N nd
              ∧ node.CHILDREN nd !! o = Some (Z.of_nat j).
Proof.
  induction 1 as [i pts Hn Hi | i pts center bnd Hn Hc Hi H0 Hkids IH]; intros j Hj;
    [lia|].
  pose proof (encodes_kids_ordered _ _ _ _ _ _ 8 Hkids) as Hord.
  destruct (bnd_locate bnd j) as (o & Ho & Hjo);
    [intros o Ho; apply (Hord o Ho) | lia |].
  destruct (decide (j = bnd o)) as [->|Hne].
  - eexists i, _, o. split; [lia|]. split; [done|]. split; [done|].
    simpl. by apply linksOf_lookup.
  - destruct (IH o Ho j ltac:(lia)) as (p & nd & o' & Hp & Hnd & Hpar & Hlink).
    exists p, nd, o'. pose proof (Hord o Ho). split; [lia | done].
Qed.

Lemma segment_split {A : Type} (l : list A) (a b c : nat) :
  (a <= b <= c)%nat → segment l a c = segment l a b ++ segment l b c.
Proof.
  intros H. unfold segment.
  replace (c - a)%nat with ((b - a) + (c - b))%nat by lia.
  rewrite <- take_take_drop, drop_drop. do 3 f_equal. lia.
Qed.

Lemma segment_cons {A : Type} (l : list A) (i n : nat) (x : A) :
  l !! i = Some x → (i < n)%nat → segment l i n = x :: segment l (S i) n.
Proof.
  intros Hx Hn. unfold segment.
  replace (n - i)%nat with (S (n - S i)) by lia.
  rewrite (drop_S _ _ _ Hx). reflexivity.
Qed.

Lemma segment_all {A : Type} (l : list A) : segment l 0 (length l) = l.
Proof. unfold segment. rewrite Nat.sub_0_r, drop_0. apply firstn_all. Qed.

Lemma leafCountsOf_app (l1 l2 : list node.t) :
  leafCountsOf terminal_N (l1 ++ l2)
  = leafCountsOf terminal_N l1 ++ leafCountsOf terminal_N l2.
Proof. unfold leafCountsOf. by rewrite filter_app, fmap_app. Qed.

Lemma sumZ_app (l1 l2 : list Z) : sumZ (l1 ++ l2) = sumZ l1 + sumZ l2.
Proof. unfold sumZ. induction l1 as [|x l1 IH]; simpl; lia. Qed.

Lemma sum_list_snoc (l : list nat) (x : nat) :
  sum_list (l ++ [x]) = (sum_list l + x)%nat.
Proof. induction l as [|y l IH]; simpl; lia. Qed.

(** The leaves of an encoded subtree hold, all together, as many points
    as the subtree was built for. *)
Lemma encodes_leafSum (oct : list node.t) (i : nat) (pts : DataSet) (n : nat) :
  encodes oct i pts n →
  sumZ (leafCountsOf terminal_N (segment oct i n)) = len pts.
Proof.
  induction 1 as [i pts Hn Hi | i pts center bnd Hn Hc Hi H0 Hkids IH].
  - rewrite (segment_cons _ _ _ _ Hi) by lia.
    unfold segment. rewrite Nat.sub_diag, take_0.
    unfold leafCountsOf. rewrite filter_cons_True by done. simpl. lia.
  - pose proof (encodes_kids_ordered _ _ _ _ _ _ 8 Hkids) as Hord.
    pose proof (Hord 0%nat ltac:(lia)).
    rewrite (segment_cons _ _ _ _ Hi) by lia.
    unfold leafCountsOf at 1. rewrite filter_cons_False by (simpl; lia).
    fold (leafCountsOf terminal_N (segment oct (S i) (bnd 8%nat))).
    rewrite <- H0.
    assert (Hm : ∀ m, (m <= 8)%nat →
              sumZ (leafCountsOf terminal_N (segment oct (bnd 0%nat) (bnd m)))
              = Z.of_nat (sum_list ((fun o => size (childSet center pts o)) <$> seq 0 m))).
    { induction m as [|m IHm]; intros Hm.
      - unfold segment. by rewrite Nat.sub_diag, take_0.
      - pose proof (Hord m ltac:(lia)).
        rewrite (segment_split _ _ (bnd m)) by lia.
        rewrite leafCountsOf_app, sumZ_app, IHm, IH by lia.
        rewrite seq_S, fmap_app. simpl. rewrite sum_list_snoc. unfold len. lia. }
    rewrite Hm by lia. rewrite childSet_sizes. reflexivity.
Qed.

Lemma tally_leafCounts (l : list node.t) (t : tally) :
  leafCounts (fold_left (tallyNode terminal_N) l t)
  = leafCounts t ++ leafCountsOf terminal_N l.
Proof.
  revert t. induction l as [|nd l IH]; intros t; simpl.
  - by rewrite app_nil_r.
  - rewrite IH. unfold tallyNode, leafCountsOf.
    destruct (Z.gtb_spec (node.N nd) terminal_N).
    + rewrite filter_cons_False by lia. done.
    + rewrite filter_cons_True by lia. simpl. by rewrite <- app_assoc.
Qed.

End Shape.

(* ===================================================================== *)
(** ** Identifiers in a CSV of keys *)
(* ===================================================================== *)

Section Identifiers.
Import GoStrings.

Lemma Split_nonempty (s : string) (sep : ascii) : Split s sep ≠ [].
Proof.
  destruct s as [|c s]; simpl; [done|].
  destruct (Ascii.eqb c sep); [done|]. by destruct (Split s sep).
Qed.

Lemma Split_append (a b : string) (sep : ascii) :
  Split (String.append a (String sep b)) sep = Split a sep ++ Split b sep.
Proof.
  induction a as [|c a IH]; simpl.
  - by rewrite Ascii.eqb_refl.
  - destruct (Ascii.eqb c sep); [by rewrite IH|].
    rewrite IH. pose proof (Split_nonempty a sep).
    by destruct (Split a sep).
Qed.

Lemma Split_lacksByte (s : string) (sep : ascii) :
  lacksByte s sep = true → Split s sep = [s].
Proof.
  induction s as [|c s IH]; simpl; [done|].
  intros [Hc Hs]%andb_prop. apply negb_true_iff in Hc. rewrite Hc.
  by rewrite IH.
Qed.

(** A key without a comma is one of the identifiers of any CSV it was
    joined into. *)
Lemma identifiers_Join (keys : list string) (k : string) :
  k ∈ keys → lacksByte k comma = true → k ∈ identifiers (Join keys ",").
Proof.
  unfold identifiers. intros Hin Hk.
  induction keys as [|x rest IH]; [by apply elem_of_nil in Hin|].
  destruct rest as [|y rest].
  - apply list_elem_of_singleton in Hin as ->. simpl.
    rewrite Split_lacksByte by done. by apply list_elem_of_singleton.
  - change (Join (x :: y :: rest) ",")
      with (String.append x (String comma (Join (y :: rest) ","))).
    rewrite Split_append. apply elem_of_app.
    apply elem_of_cons in Hin as [->|Hin].
    + left. rewrite Split_lacksByte by done. by apply list_elem_of_singleton.
    + right. by apply IH.
Qed.

End Identifiers.

(* ===================================================================== *)
(** ** Statistics and completed builds *)
(* ===================================================================== *)

Section CompletedBuild.
Variable MaxIterations : Z.
Variable Tol : float.

Local Abbreviation Make := (Make MaxIterations Tol).

(** [calcStats] succeeds exactly on a non-empty node list; it leaves the
    tree and the four recorded fields alone and derives the rest. *)
Lemma calcStats_Ok (s s' : State) :
  calcStats s = Ok s' →
  _octree s' = _octree s
  ∧ statistics.HOW (_stats s') = statistics.HOW (_stats s)
  ∧ statistics.SIZE (_stats s') = statistics.SIZE (_stats s)
  ∧ statistics.STOP (_stats s') = statistics.STOP (_stats s)
  ∧ statistics.TIME (_stats s') = statistics.TIME (_stats s)
  ∧ statistics.LEAFCOUNTS (_stats s')
    = leafCountsOf (statistics.STOP (_stats s)) (_octree s)
  ∧ ∃ root, _octree s !! 0%nat = Some root ∧ statistics.NUMPTS (_stats s') = node.N root.
Proof.
  unfold calcStats. rewrite bind_Ok. intros (root & Hroot & [= <-]).
  apply index_Ok in Hroot as [_ Hroot]. simpl.
  rewrite tally_leafCounts. simpl. eauto 10.
Qed.

Lemma calcStats_total (s : State) :
  _octree s ≠ [] → ∃ s', calcStats s = Ok s'.
Proof.
  intros Hne. unfold calcStats.
  destruct (_octree s) as [|root oct] eqn:E; [done|].
  unfold index. simpl. eauto.
Qed.

(** The statistics are a function of the tree and the recorded fields. *)
Lemma calcStats_ext (s1 s2 : State) :
  _octree s1 = _octree s2 →
  statistics.HOW (_stats s1) = statistics.HOW (_stats s2) →
  statistics.SIZE (_stats s1) = statistics.SIZE (_stats s2) →
  statistics.STOP (_stats s1) = statistics.STOP (_stats s2) →
  statistics.TIME (_stats s1) = statistics.TIME (_stats s2) →
  calcStats s1 = calcStats s2.
Proof. unfold calcStats. by intros -> -> -> -> ->. Qed.

(** What a completed [Make] went through. *)
Lemma Make_Ok (fuel : nat) (method : string) (terminal_N : Z) (refPoints : DataSet)
    (elapsed : Z) (s s' : State) :
  Make fuel method terminal_N refPoints elapsed s = Ok s' →
  1 < terminal_N
  ∧ 0 < len refPoints
  ∧ ∃ calcCenter,
      makeCalcCenter MaxIterations Tol method = Ok calcCenter
      ∧ built calcCenter terminal_N refPoints (_octree s')
      ∧ calcStats (mkState (_octree s')
                     (statistics.setMeta method (Z.of_nat (length (_octree s')))
                        terminal_N elapsed (_stats s))) = Ok s'.
Proof.
  unfold Make.
  destruct (Z.gtb_spec terminal_N 1) as [Ht|Ht]; simpl; [|discriminate].
  destruct (Z.eqb_spec (len refPoints) 0) as [Hlen|Hlen]; [discriminate|].
  rewrite bind_Ok. intros (calcCenter & Hcc & Hrest).
  apply bind_Ok in Hrest as (b & Hb & Hstats).
  pose proof (calcStats_Ok _ _ Hstats) as (Hoct & _). simpl in Hoct.
  split; [lia|]. split; [unfold len in *; lia|].
  exists calcCenter. split; [done|]. rewrite Hoct.
  split; [by exists fuel, b | done].
Qed.

Lemma Make_stats (fuel : nat) (method : string) (terminal_N : Z) (refPoints : DataSet)
    (elapsed : Z) (s s' : State) :
  Make fuel method terminal_N refPoints elapsed s = Ok s' →
  statistics.HOW (_stats s') = method
  ∧ statistics.SIZE (_stats s') = Z.of_nat (length (_octree s'))
  ∧ statistics.STOP (_stats s') = terminal_N
  ∧ statistics.TIME (_stats s') = elapsed
  ∧ statistics.LEAFCOUNTS (_stats s') = leafCountsOf terminal_N (_octree s')
  ∧ _octree s' ≠ [].
Proof.
  intros (_ & _ & calcCenter & _ & Hbuilt & Hstats)%Make_Ok.
  apply calcStats_Ok in Hstats as (_ & -> & -> & -> & -> & -> & root & Hroot & _).
  simpl in *. repeat split; try done. by intros E; rewrite E in Hroot.
Qed.

End CompletedBuild.

(* ===================================================================== *)
(** ** Queries on a built tree *)
(* ===================================================================== *)

Section QueryClaims.
Variable MaxIterations : Z.
Variable Tol : float.

Local Abbreviation Make := (Make MaxIterations Tol).

Lemma Query_descend (fuel : nat) (method : string) (terminal_N : Z)
    (refPoints : DataSet) (elapsed : Z) (s s' : State) (qfuel : nat) (q : DataCoords) :
  Make fuel method terminal_N refPoints elapsed s = Ok s' →
  Query qfuel q s' = descend qfuel (_octree s') terminal_N q 0.
Proof.
  intros (_ & HSIZE & HSTOP & _ & _ & Hne)%Make_stats.
  unfold Query. rewrite HSIZE, HSTOP.
  destruct (Z.eqb_spec (Z.of_nat (length (_octree s'))) 0) as [E|E]; [|done].
  destruct (_octree s'); [done | simpl in E; lia].
Qed.

(** C1 (as amended). For every completed build (one of the four methods,
    threshold above 1, non-empty point set) and every point of the input
    whose identifier holds no comma, the query with the point's exact
    coordinates returns a CSV of keys among whose identifiers is the
    point's own. *)
Theorem C1_query_self (fuel : nat) (method : string) (terminal_N : Z)
    (refPoints : DataSet) (elapsed : Z) (s s' : State) (k : string) (v : DataCoords)
    (qfuel : nat) :
  Make fuel method terminal_N refPoints elapsed s = Ok s' →
  refPoints !! k = Some v →
  GoStrings.lacksByte k comma = true →
  (length (_octree s') <= qfuel)%nat →
  ∃ keys, Query qfuel v s' = Ok keys ∧ k ∈ identifiers keys.
Proof.
  intros HMake Hk Hcomma Hfuel.
  rewrite (Query_descend _ _ _ _ _ _ _ _ _ HMake).
  destruct (Make_Ok _ _ _ _ _ _ _ _ _ HMake) as (_ & _ & calcCenter & _ & Hbuilt & _).
  apply built_encodes in Hbuilt.
  destruct (descend_member _ _ _ _ _ _ k v Hbuilt Hk qfuel ltac:(lia))
    as (keys & Hin & Hdesc).
  exists (GoStrings.Join keys ","). split; [exact Hdesc|].
  by apply identifiers_Join.
Qed.

(** C10. For every completed build and every query point, the descent
    of [Query] terminates: each step from a parent moves to a link that
    is greater than the parent's index and within the node list, and
    within as many steps as the list has nodes a leaf is reached, whose
    keys are returned. *)
Theorem C10_query_terminates (fuel : nat) (method : string) (terminal_N : Z)
    (refPoints : DataSet) (elapsed : Z) (s s' : State) (q : DataCoords) :
  Make fuel method terminal_N refPoints elapsed s = Ok s' →
  (∀ j nd, _octree s' !! j = Some nd →
     statistics.STOP (_stats s') < node.N nd →
     ∃ next, index (node.CHILDREN nd) (assignOctant (node.CENTER nd) q) = Ok next
             ∧ Z.of_nat j < next < Z.of_nat (length (_octree s')))
  ∧ (∀ qfuel, (length (_octree s') <= qfuel)%nat →
       ∃ j nd, _octree s' !! j = Some nd
               ∧ node.N nd <= statistics.STOP (_stats s')
               ∧ Query qfuel q s' = Ok (node.KEYS nd)).
Proof.
  intros HMake.
  destruct (Make_Ok _ _ _ _ _ _ _ _ _ HMake) as (_ & _ & calcCenter & _ & Hbuilt & _).
  destruct (Make_stats _ _ _ _ _ _ _ _ _ HMake) as (_ & _ & HSTOP & _).
  apply built_encodes in Hbuilt. rewrite HSTOP. split.
  - intros j nd Hnd Hparent.
    destruct (encodes_shape _ _ _ _ _ _ Hbuilt j nd) as [Hp|Hl];
      [pose proof (lookup_lt_Some _ _ _ Hnd); lia | done | | destruct Hl; lia].
    destruct Hp as (_ & _ & Hlen & Hlinks).
    destruct (octant_nat (node.CENTER nd) q) as [Ho Heq].
    destruct (lookup_lt_is_Some_2 (node.CHILDREN nd)
                (Z.to_nat (assignOctant (node.CENTER nd) q)) ltac:(lia)) as [next Hnext].
    exists next. split; [|by apply (Hlinks _ _ Hnext)].
    rewrite Heq. by apply index_nat.
  - intros qfuel Hq. rewrite (Query_descend _ _ _ _ _ _ _ _ _ HMake).
    destruct (descend_encodes _ _ _ _ _ _ q Hbuilt qfuel ltac:(lia))
      as (j & nd & _ & Hnd & Hleaf & Hdesc).
    by exists j, nd.
Qed.

End QueryClaims.

(** An instance of C1: the sample points under the centroid method. *)
Lemma C1_query_self_witness :
  ∃ s', Make defaultMaxIterations defaultTol 10 "Centroid" 2 samplePoints 0 initial = Ok s'
        ∧ ∃ keys, Query 9 (mkCoords 1 1 1) s' = Ok keys ∧ "B" ∈ identifiers keys.
Proof.
  eexists. split; [vm_compute; reflexivity|].
  apply (C1_query_self defaultMaxIterations defaultTol 10 "Centroid" 2 samplePoints 0
           initial _ "B" (mkCoords 1 1 1) 9);
    [vm_compute; reflexivity | reflexivity | reflexivity | vm_compute; lia].
Defined.

(** C1 as stated fails for an identifier that holds a comma: the build on
    the single point "a,b" completes, the query with the point's coordinates
    returns the string "a,b", and the identifiers read from it are "a" and
    "b", not the point's own. *)
Lemma C1_comma_counterexample :
  ∃ s', Make defaultMaxIterations defaultTol 1 "Centroid" 2 commaPoints 0 initial = Ok s'
        ∧ commaPoints !! "a,b" = Some zeroCoords
        ∧ (∀ qfuel, Query qfuel zeroCoords s' = Ok "a,b")
        ∧ identifiers "a,b" = ["a"; "b"]
        ∧ "a,b" ∉ identifiers "a,b".
Proof.
  eexists. split; [vm_compute; reflexivity|].
  split; [reflexivity|]. split; [by intros []|]. split; [reflexivity|].
  intros H. vm_compute in H. by repeat (apply elem_of_cons in H as [H|H]; [discriminate|]);
    apply elem_of_nil in H.
Qed.

(** An instance of C10: a query far outside the sample points. *)
Lemma C10_query_terminates_witness :
  ∃ s', Make defaultMaxIterations defaultTol 10 "XYZ Medians" 2 samplePoints 0 initial = Ok s'
        ∧ ∃ j nd, _octree s' !! j = Some nd
                  ∧ node.N nd <= statistics.STOP (_stats s')
                  ∧ Query 9 (mkCoords 1000 (-1000) 1000) s' = Ok (node.KEYS nd).
Proof.
  eexists. split; [vm_compute; reflexivity|].
  apply (C10_query_terminates defaultMaxIterations defaultTol 10 "XYZ Medians" 2
           samplePoints 0 initial _ (mkCoords 1000 (-1000) 1000));
    [vm_compute; reflexivity | vm_compute; lia].
Defined.

(* ===================================================================== *)
(** ** Invariants of a built tree *)
(* ===================================================================== *)

Section TreeClaims.
Variable MaxIterations : Z.
Variable Tol : float.

Local Abbreviation Make := (Make MaxIterations Tol).

Lemma encodes_root (calcCenter : centerFn) (terminal_N : Z) (oct : list node.t)
    (i : nat) (pts : DataSet) (n : nat) :
  encodes calcCenter terminal_N oct i pts n →
  ∃ nd, oct !! i = Some nd ∧ node.N nd = len pts.
Proof. destruct 1; eauto. Qed.

Lemma leafCountsOf_bound (STOP : Z) (l : list node.t) :
  Forall (fun c => c <= STOP) (leafCountsOf STOP l).
Proof.
  unfold leafCountsOf. apply Forall_fmap, Forall_forall.
  by intros nd [? _]%list_elem_of_filter.
Qed.

(** C3. In the tree of a completed build with threshold t (above 1, as
    [Make] demands) every leaf's point count is at most t, and the leaf
    counts, which [calcStats] collects in [LEAFCOUNTS], add up to the size
    of the input point set. *)
Theorem C3_leaf_counts (fuel : nat) (method : string) (terminal_N : Z)
    (refPoints : DataSet) (elapsed : Z) (s s' : State) :
  Make fuel method terminal_N refPoints elapsed s = Ok s' →
  1 < terminal_N
  ∧ (∀ nd, nd ∈ _octree s' → node.N nd <= statistics.STOP (_stats s') →
       0 <= node.N nd <= terminal_N)
  ∧ statistics.LEAFCOUNTS (_stats s') = leafCountsOf terminal_N (_octree s')
  ∧ Forall (fun c => c <= terminal_N) (statistics.LEAFCOUNTS (_stats s'))
  ∧ sumZ (statistics.LEAFCOUNTS (_stats s')) = len refPoints.
Proof.
  intros HMake.
  destruct (Make_Ok _ _ _ _ _ _ _ _ _ HMake) as (Ht & _ & calcCenter & _ & Hbuilt & _).
  destruct (Make_stats _ _ _ _ _ _ _ _ _ HMake) as (_ & _ & HSTOP & _ & HLEAF & _).
  apply built_encodes in Hbuilt. rewrite HSTOP, HLEAF.
  split; [done|]. split.
  { intros nd [j Hj]%list_elem_of_lookup Hleaf.
    destruct (encodes_shape _ _ _ _ _ _ Hbuilt j nd) as [Hp|Hl];
      [pose proof (lookup_lt_Some _ _ _ Hj); lia | done | destruct Hp; lia |].
    by destruct Hl. }
  split; [done|]. split; [apply leafCountsOf_bound|].
  rewrite <- (encodes_leafSum _ _ _ _ _ _ Hbuilt). by rewrite segment_all.
Qed.

(** C5. In the tree of a completed build the threshold recorded in
    [_stats.STOP], the one every later pass compares with, is the build's;
    a node has the parent shape exactly when its count exceeds it and the
    leaf shape exactly when it does not, so it has one shape and not the
    other; node 0 is the root: it counts all the input points and every
    other node is linked from a parent before it; every link of a parent
    is an index of the node list greater than the parent's own. *)
Theorem C5_node_invariant (fuel : nat) (method : string) (terminal_N : Z)
    (refPoints : DataSet) (elapsed : Z) (s s' : State) :
  Make fuel method terminal_N refPoints elapsed s = Ok s' →
  let oct := _octree s' in
  let STOP := statistics.STOP (_stats s') in
  STOP = terminal_N
  ∧ (∀ j nd, oct !! j = Some nd →
       (parentShaped STOP oct j nd ↔ STOP < node.N nd)
       ∧ (leafShaped STOP nd ↔ node.N nd <= STOP)
       ∧ (parentShaped STOP oct j nd ∨ leafShaped STOP nd)
       ∧ ¬ (parentShaped STOP oct j nd ∧ leafShaped STOP nd))
  ∧ (∃ root, oct !! 0%nat = Some root ∧ node.N root = len refPoints)
  ∧ (∀ j, (0 < j < length oct)%nat →
       ∃ p nd o, (p < j)%nat ∧ oct !! p = Some nd ∧ STOP < node.N nd
                 ∧ node.CHILDREN nd !! o = Some (Z.of_nat j))
  ∧ (∀ j nd o c, oct !! j = Some nd → STOP < node.N nd →
       node.CHILDREN nd !! o = Some c →
       Z.of_nat j < c < Z.of_nat (length oct)).
Proof.
  intros HMake oct STOP. subst oct STOP.
  destruct (Make_Ok _ _ _ _ _ _ _ _ _ HMake) as (_ & _ & calcCenter & _ & Hbuilt & _).
  destruct (Make_stats _ _ _ _ _ _ _ _ _ HMake) as (_ & _ & HSTOP & _).
  apply built_encodes in Hbuilt. rewrite HSTOP.
  assert (Hshape : ∀ j nd, _octree s' !! j = Some nd →
            parentShaped terminal_N (_octree s') j nd ∨ leafShaped terminal_N nd).
  { intros j nd Hj. apply (encodes_shape _ _ _ _ _ _ Hbuilt j nd); [|done].
    pose proof (lookup_lt_Some _ _ _ Hj). lia. }
  split; [done|]. split.
  { intros j nd Hj. destruct (Hshape j nd Hj) as [Hp|Hl].
    - pose proof Hp as (? & _). unfold leafShaped. intuition lia.
    - pose proof Hl as (? & _). unfold parentShaped. intuition lia. }
  split; [by apply (encodes_root _ _ _ _ _ _ Hbuilt)|]. split.
  { intros j Hj.
    destruct (encodes_linked _ _ _ _ _ _ Hbuilt j ltac:(lia))
      as (p & nd & o & Hp & Hnd & Hpar & Hlink).
    exists p, nd, o. split; [lia | done]. }
  intros j nd o c Hj Hpar Hc. destruct (Hshape j nd Hj) as [Hp|Hl].
  - destruct Hp as (_ & _ & _ & Hlinks). by apply (Hlinks o).
  - destruct Hl; lia.
Qed.

End TreeClaims.

(** An instance of C3: the three sample points, threshold 2. *)
Lemma C3_leaf_counts_witness :
  ∃ s', Make defaultMaxIterations defaultTol 10 "DataMidPoint" 2 samplePoints 0 initial = Ok s'
        ∧ Forall (fun c => c <= 2) (statistics.LEAFCOUNTS (_stats s'))
        ∧ sumZ (statistics.LEAFCOUNTS (_stats s')) = 3.
Proof.
  eexists. split; [vm_compute; reflexivity|].
  apply (C3_leaf_counts defaultMaxIterations defaultTol 10 "DataMidPoint" 2
           samplePoints 0 initial _).
  vm_compute; reflexivity.
Defined.

(** An instance of C5: the tree of the sample points under the geometric
    median. *)
Lemma C5_node_invariant_witness :
  ∃ s', Make defaultMaxIterations defaultTol 10 "Geometric Median" 2 samplePoints 7 initial
        = Ok s'
        ∧ statistics.STOP (_stats s') = 2
        ∧ ∃ root, _octree s' !! 0%nat = Some root ∧ node.N root = 3.
Proof.
  eexists. split; [vm_compute; reflexivity|].
  pose proof (C5_node_invariant defaultMaxIterations defaultTol 10 "Geometric Median" 2
                samplePoints 7 initial _ ltac:(vm_compute; reflexivity)) as H.
  simpl in H. destruct H as (H1 & _ & H3 & _). split; [exact H1 | exact H3].
Defined.

(* ===================================================================== *)
(** ** Export and Import *)
(* ===================================================================== *)

Section Codec.

Lemma DecodeRuneInString_app (b : ascii) (r t : string) (k : nat) :
  GoUtf8.DecodeRuneInString b r = Some k →
  GoUtf8.DecodeRuneInString b (r +:+ t) = Some k.
Proof.
  unfold GoUtf8.DecodeRuneInString.
  destruct (GoUtf8.byte b <? 128); [done|].
  destruct (GoUtf8.first b) as [[[sz lo] hi]|]; [|done].
  destruct r as [|b1 r1]; [done|]. simpl.
  destruct (negb (GoUtf8.within lo hi b1)); [done|].
  destruct (sz <=? 2)%nat; [done|].
  destruct r1 as [|b2 r2]; [done|]. simpl.
  destruct (negb (GoUtf8.cont b2)); [done|].
  destruct (sz <=? 3)%nat; [done|].
  by destruct r2 as [|b3 r3].
Qed.

Lemma validFrom_app (s1 s2 : string) :
  ∀ k, GoUtf8.validFrom k s1 = true → GoUtf8.ValidString s2 = true →
       GoUtf8.validFrom k (s1 +:+ s2) = true.
Proof.
  induction s1 as [|b r IH]; intros k H1 H2; simpl in *.
  - by destruct k.
  - destruct k as [|k]; [|by apply IH].
    destruct (GoUtf8.DecodeRuneInString b r) as [k|] eqn:E; [|done].
    rewrite (DecodeRuneInString_app _ _ _ _ E). by apply IH.
Qed.

Lemma ValidString_Join (keys : list string) :
  Forall (fun k => GoUtf8.ValidString k = true) keys →
  GoUtf8.ValidString (GoStrings.Join keys ",") = true.
Proof.
  induction 1 as [|x rest Hx Hrest IH]; [done|].
  destruct rest as [|y rest]; [done|].
  change (GoStrings.Join (x :: y :: rest) ",")
    with (x +:+ ("," +:+ GoStrings.Join (y :: rest) ",")).
  apply validFrom_app; [done|]. exact IH.
Qed.

(** A valid string is written and read back unchanged. *)
Lemma ToValidUTF8_valid (s : string) :
  GoUtf8.ValidString s = true → GoUtf8.ToValidUTF8 s = s.
Proof.
  unfold GoUtf8.ValidString, GoUtf8.ToValidUTF8. generalize 0%nat.
  induction s as [|b r IH]; intros k H; simpl in *; [done|].
  destruct k as [|k]; [|by rewrite IH].
  destruct (GoUtf8.DecodeRuneInString b r) as [k|]; [|done]. by rewrite IH.
Qed.

(** A record with finite centers and valid strings comes back from its
    JSON text as it was. *)
Lemma jsonMarshal_Ok (jsonData : jsonOctree.t) :
  GoUtf8.ValidString (jsonOctree.HOW jsonData) = true →
  Forall (fun v => unsupportedValue v = false
                   ∧ GoUtf8.ValidString (jsonNode.KEYS v) = true)
         (jsonOctree.OCTREE jsonData) →
  jsonMarshal jsonData = Ok jsonData.
Proof.
  intros HHOW Hnodes. unfold jsonMarshal.
  assert (Hsup : existsb unsupportedValue (jsonOctree.OCTREE jsonData) = false).
  { apply not_true_is_false. intros (v & Hv & Hu)%existsb_exists.
    apply list_elem_of_In in Hv. rewrite Forall_forall in Hnodes.
    destruct (Hnodes v Hv) as [Hf _]. congruence. }
  rewrite Hsup, (ToValidUTF8_valid _ HHOW).
  assert (Hback : ∀ l, Forall (fun v => unsupportedValue v = false
                                        ∧ GoUtf8.ValidString (jsonNode.KEYS v) = true) l →
                       readBack <$> l = l).
  { induction 1 as [|v l [_ Hv] _ IH]; [done|].
    rewrite fmap_cons, IH. f_equal. unfold readBack. rewrite (ToValidUTF8_valid _ Hv).
    by destruct v. }
  rewrite (Hback _ Hnodes). by destruct jsonData.
Qed.

End Codec.

Section Exchange.

(** A loop that fills, in order, the slots of a slice made of zero values:
    each pass [step] replaces the slot at its position by [g]. *)
Lemma foldM_slots {A B : Type} (step : list A → Z * B → result (list A))
    (g : nat → B → A) (z : A) (P : B → Prop) :
  (∀ done todo v, P v →
     step (done ++ z :: todo) (Z.of_nat (length done), v)
     = Ok (done ++ g (length done) v :: todo)) →
  ∀ l, Forall P l →
    ∀ done n, (length l <= n)%nat →
      foldM step (imap (fun k v => (Z.of_nat (length done + k), v)) l)
            (done ++ replicate n z)
      = Ok (done ++ imap (fun k v => g (length done + k)%nat v) l
                 ++ replicate (n - length l) z).
Proof.
  intros Hstep l Hl. induction Hl as [|v l Hv Hl IH]; intros done n Hn; simpl.
  - by rewrite Nat.sub_0_r.
  - destruct n as [|n]; [simpl in Hn; lia|]. simpl.
    rewrite Nat.add_0_r, Hstep by done. simpl.
    specialize (IH (done ++ [g (length done) v]) n ltac:(simpl in Hn; lia)).
    rewrite <- !app_assoc in IH. simpl in IH.
    rewrite length_app in IH. simpl in IH.
    erewrite imap_ext; [erewrite IH|]; last first.
    { intros k x _. simpl. do 2 f_equal. lia. }
    do 4 f_equal. apply imap_ext. intros k x _. simpl. f_equal. lia.
Qed.

Lemma exportStep_slot (STOP : Z) (done todo : list jsonNode.t) (v : node.t) :
  exportStep STOP (done ++ jsonNode.zero :: todo) (Z.of_nat (length done), v)
  = Ok (done ++ exportNode STOP (Z.of_nat (length done)) v :: todo).
Proof.
  unfold exportStep. rewrite (update_nat _ _ _ jsonNode.zero)
    by (by rewrite list_lookup_middle).
  by rewrite insert_app_r_alt, Nat.sub_diag by lia.
Qed.

Lemma importStep_slot (STOP : Z) (done todo : list node.t) (v : jsonNode.t) :
  dereferenceable STOP v →
  importStep STOP (done ++ node.blank :: todo) (Z.of_nat (length done), v)
  = Ok (done ++ importNode STOP v :: todo).
Proof.
  intros Hv. unfold importStep, importNode.
  rewrite (update_nat _ _ _ node.blank) by (by rewrite list_lookup_middle).
  rewrite insert_app_r_alt, Nat.sub_diag by lia. simpl.
  destruct (Z.gtb_spec (jsonNode.N v) STOP) as [Hp|Hl].
  - destruct (Hv Hp) as [[c ->] [ch ->]].
    rewrite (update_nat _ _ _ (node.setN (jsonNode.N v) node.blank))
      by (by rewrite list_lookup_middle).
    by rewrite insert_app_r_alt, Nat.sub_diag by lia.
  - rewrite (update_nat _ _ _ (node.setN (jsonNode.N v) node.blank))
      by (by rewrite list_lookup_middle).
    by rewrite insert_app_r_alt, Nat.sub_diag by lia.
Qed.

(** The record that [Export] makes of a state whose recorded size is the
    length of its node list, when the slice can be allocated. *)
Lemma exportRecord_Ok (heap : Z) (s : State) :
  statistics.SIZE (_stats s) = Z.of_nat (length (_octree s)) →
  jsonNodeSize * statistics.SIZE (_stats s) <= maxAlloc →
  jsonNodeSize * statistics.SIZE (_stats s) <= heap →
  exportRecord heap s
  = Ok (jsonOctree.mk (statistics.HOW (_stats s)) (statistics.STOP (_stats s))
          (statistics.TIME (_stats s)) (statistics.SIZE (_stats s))
          (imap (fun k v => exportNode (statistics.STOP (_stats s)) (Z.of_nat k) v)
                (_octree s))).
Proof.
  intros HSIZE Hmax Hheap. unfold exportRecord. rewrite HSIZE in *.
  unfold makeSlice. destruct (Z.ltb_spec (Z.of_nat (length (_octree s))) 0); [lia|].
  destruct (Z.ltb_spec maxAlloc (jsonNodeSize * Z.of_nat (length (_octree s)))); [lia|].
  destruct (Z.ltb_spec heap (jsonNodeSize * Z.of_nat (length (_octree s)))); [lia|].
  simpl. rewrite Nat2Z.id.
  pose proof (foldM_slots (exportStep (statistics.STOP (_stats s)))
                (fun k v => exportNode (statistics.STOP (_stats s)) (Z.of_nat k) v)
                jsonNode.zero (fun _ => True)
                (fun done todo v _ => exportStep_slot _ done todo v)
                (_octree s) ltac:(by apply Forall_forall)
                [] (length (_octree s)) ltac:(lia)) as Hfold.
  simpl in Hfold. unfold ranged. rewrite Hfold. simpl.
  by rewrite Nat.sub_diag, app_nil_r.
Qed.

(** [Import] on a record that is long enough for its node list and
    whose parents carry their pointers, when the slice can be allocated. *)
Lemma importRecord_filled (jsonIn : jsonOctree.t) (heap : Z) (s : State) :
  0 <= jsonOctree.SIZE jsonIn →
  (length (jsonOctree.OCTREE jsonIn) <= Z.to_nat (jsonOctree.SIZE jsonIn))%nat →
  Forall (dereferenceable (jsonOctree.STOP jsonIn)) (jsonOctree.OCTREE jsonIn) →
  nodeSize * jsonOctree.SIZE jsonIn <= maxAlloc →
  nodeSize * jsonOctree.SIZE jsonIn <= heap →
  importRecord jsonIn heap s
  = calcStats
      (mkState
         ((importNode (jsonOctree.STOP jsonIn) <$> jsonOctree.OCTREE jsonIn)
            ++ replicate (Z.to_nat (jsonOctree.SIZE jsonIn)
                          - length (jsonOctree.OCTREE jsonIn)) node.blank)
         (statistics.setMeta (jsonOctree.HOW jsonIn) (jsonOctree.SIZE jsonIn)
            (jsonOctree.STOP jsonIn) (jsonOctree.TIME jsonIn) (_stats s))).
Proof.
  intros HSIZE Hlen Hderef Hmax Hheap. unfold importRecord. simpl.
  unfold makeSlice. destruct (Z.ltb_spec (jsonOctree.SIZE jsonIn) 0); [lia|].
  destruct (Z.ltb_spec maxAlloc (nodeSize * jsonOctree.SIZE jsonIn)); [lia|].
  destruct (Z.ltb_spec heap (nodeSize * jsonOctree.SIZE jsonIn)); [lia|]. simpl.
  pose proof (foldM_slots (importStep (jsonOctree.STOP jsonIn))
                (fun _ v => importNode (jsonOctree.STOP jsonIn) v)
                node.blank (dereferenceable (jsonOctree.STOP jsonIn))
                (fun done todo v Hv => importStep_slot _ done todo v Hv)
                (jsonOctree.OCTREE jsonIn) Hderef
                [] (Z.to_nat (jsonOctree.SIZE jsonIn)) Hlen) as Hfold.
  simpl in Hfold. unfold ranged. rewrite Hfold. simpl.
  by rewrite (imap_const (importNode (jsonOctree.STOP jsonIn))).
Qed.

(** A node of either shape is what [Import] makes of its exported
    record. *)
Lemma importNode_exportNode (STOP : Z) (oct : list node.t) (j : nat) (k : Z)
    (nd : node.t) :
  parentShaped STOP oct j nd ∨ leafShaped STOP nd →
  importNode STOP (exportNode STOP k nd) = nd
  ∧ dereferenceable STOP (exportNode STOP k nd).
Proof.
  unfold importNode, exportNode, dereferenceable.
  intros [(Hp & Hkeys & _)|(Hl & Hc & Hch)]; destruct nd as [n c ch keys]; simpl in *.
  - destruct (Z.gtb_spec n STOP); [|lia]. simpl.
    destruct (Z.gtb_spec n STOP); [|lia]. subst. eauto.
  - destruct (Z.gtb_spec n STOP); [lia|]. simpl.
    destruct (Z.gtb_spec n STOP); [lia|]. subst. split; [done | lia].
Qed.

End Exchange.

Section ImportOutcome.

Lemma okOrPanic_bind {A B : Type} (m : result A) (k : A → result B) :
  okOrPanic m → (∀ a, okOrPanic (k a)) → okOrPanic (m ≫= k).
Proof. intros [[a ->]|[p ->]] Hk; simpl; [apply Hk | right; eauto]. Qed.

Lemma okOrPanic_update {A : Type} (l : list A) (i : Z) (f : A → A) :
  okOrPanic (update l i f).
Proof.
  unfold update, index. destruct (i <? 0); [right; eauto|].
  destruct (l !! Z.to_nat i); simpl; [left | right]; eauto.
Qed.

Lemma okOrPanic_importStep (STOP : Z) (oct : list node.t) (kv : Z * jsonNode.t) :
  okOrPanic (importStep STOP oct kv).
Proof.
  destruct kv as [k v]. unfold importStep.
  apply okOrPanic_bind; [apply okOrPanic_update|]. intros oct'.
  destruct (jsonNode.N v >? STOP); [|apply okOrPanic_update].
  destruct (jsonNode.CENTER v), (jsonNode.CHILDREN v);
    try (right; eauto; fail). apply okOrPanic_update.
Qed.

Lemma okOrPanic_foldM {A B : Type} (f : A → B → result A) (l : list B) (a : A) :
  (∀ a b, okOrPanic (f a b)) → okOrPanic (foldM f l a).
Proof.
  intros Hf. revert a. induction l as [|b l IH]; intros a; simpl.
  - left; eauto.
  - apply okOrPanic_bind; [apply Hf | apply IH].
Qed.

Lemma okOrPanic_calcStats (s : State) : okOrPanic (calcStats s).
Proof.
  unfold calcStats. apply okOrPanic_bind.
  - unfold index. simpl. destruct (_octree s); simpl; [right | left]; eauto.
  - intros root. left; eauto.
Qed.

Lemma okOrPanic_importRecord (jsonIn : jsonOctree.t) (heap : Z) (s : State) :
  okOrPanic (importRecord jsonIn heap s).
Proof.
  unfold importRecord. apply okOrPanic_bind.
  - unfold makeSlice. destruct (_ || _); [right; eauto|].
    destruct (_ <? _); [right | left]; eauto.
  - intros oct. apply okOrPanic_bind; [|intros; apply okOrPanic_calcStats].
    apply okOrPanic_foldM. intros; apply okOrPanic_importStep.
Qed.

Lemma importStep_Ok (STOP : Z) (oct oct' : list node.t) (m : nat) (v : jsonNode.t) :
  importStep STOP oct (Z.of_nat m, v) = Ok oct' →
  (m < length oct)%nat ∧ length oct' = length oct ∧ dereferenceable STOP v.
Proof.
  unfold importStep, dereferenceable. rewrite bind_Ok.
  intros (oct1 & (a & _ & Ha & ->)%update_Ok & Hrest).
  rewrite Nat2Z.id in *. pose proof (lookup_lt_Some _ _ _ Ha).
  destruct (Z.gtb_spec (jsonNode.N v) STOP) as [Hp|Hl].
  - destruct (jsonNode.CENTER v), (jsonNode.CHILDREN v); try discriminate.
    apply update_Ok in Hrest as (a' & _ & _ & ->).
    rewrite !length_insert. eauto.
  - apply update_Ok in Hrest as (a' & _ & _ & ->).
    rewrite !length_insert. split; [done|]. split; [done | lia].
Qed.

Lemma foldM_importStep_Ok (STOP : Z) (l : list jsonNode.t) :
  ∀ (m : nat) (oct oct' : list node.t),
    foldM (importStep STOP) (imap (fun k v => (Z.of_nat (m + k), v)) l) oct = Ok oct' →
    (length l <= length oct - m)%nat ∧ Forall (dereferenceable STOP) l.
Proof.
  induction l as [|v l IH]; intros m oct oct'; simpl.
  - intros _. split; [lia | constructor].
  - fold (@mbind result _). rewrite bind_Ok, Nat.add_0_r.
    intros (oct1 & (Hm & Hlen & Hv)%importStep_Ok & Hrest).
    erewrite imap_ext in Hrest; [apply (IH (S m)) in Hrest as [Hl HF]|].
    + split; [lia | by constructor].
    + intros k x _. simpl. do 2 f_equal. lia.
Qed.

(** An [Import] that succeeds was given a non-negative node count, a
    node list no longer than it, and both pointers in every record
    whose count makes it a parent. *)
Lemma importRecord_Ok (jsonIn : jsonOctree.t) (heap : Z) (s s' : State) :
  importRecord jsonIn heap s = Ok s' →
  0 <= jsonOctree.SIZE jsonIn
  ∧ (length (jsonOctree.OCTREE jsonIn) <= Z.to_nat (jsonOctree.SIZE jsonIn))%nat
  ∧ Forall (dereferenceable (jsonOctree.STOP jsonIn)) (jsonOctree.OCTREE jsonIn)
  ∧ nodeSize * jsonOctree.SIZE jsonIn <= maxAlloc
  ∧ nodeSize * jsonOctree.SIZE jsonIn <= heap.
Proof.
  unfold importRecord. simpl. rewrite bind_Ok. intros (oct & Hmake & Hrest).
  apply bind_Ok in Hrest as (oct' & Hfold & _).
  unfold makeSlice in Hmake.
  destruct (Z.ltb_spec (jsonOctree.SIZE jsonIn) 0); [discriminate|].
  destruct (Z.ltb_spec maxAlloc (nodeSize * jsonOctree.SIZE jsonIn)); [discriminate|].
  destruct (Z.ltb_spec heap (nodeSize * jsonOctree.SIZE jsonIn)); [discriminate|].
  injection Hmake as <-.
  apply (foldM_importStep_Ok _ _ 0%nat) in Hfold as [Hlen HF].
  rewrite length_replicate in Hlen. split; [done|]. split; [lia | done].
Qed.

End ImportOutcome.

(* ===================================================================== *)
(** ** Round trip, invalid calls and invalid imports *)
(* ===================================================================== *)

Section ExchangeClaims.
Variable MaxIterations : Z.
Variable Tol : float.

Local Abbreviation Make := (Make MaxIterations Tol).

(** The four method names are valid UTF-8. *)
Lemma makeCalcCenter_valid (method : string) (calcCenter : centerFn) :
  makeCalcCenter MaxIterations Tol method = Ok calcCenter →
  GoUtf8.ValidString method = true.
Proof.
  unfold makeCalcCenter.
  destruct (String.eqb_spec method "Centroid") as [->|_]; [done|].
  destruct (String.eqb_spec method "DataMidPoint") as [->|_]; [done|].
  destruct (String.eqb_spec method "Geometric Median") as [->|_]; [done|].
  destruct (String.eqb_spec method "XYZ Medians") as [->|_]; [done|].
  discriminate.
Qed.

(** The keys of every node of a tree built on identifiers that are valid
    UTF-8 are valid UTF-8. *)
Lemma encodes_valid_keys (calcCenter : centerFn) (terminal_N : Z) (oct : list node.t)
    (i : nat) (pts : DataSet) (n : nat) :
  encodes calcCenter terminal_N oct i pts n →
  (∀ k v, pts !! k = Some v → GoUtf8.ValidString k = true) →
  ∀ j nd, (i <= j < n)%nat → oct !! j = Some nd →
    GoUtf8.ValidString (node.KEYS nd) = true.
Proof.
  induction 1 as [i pts Hn Hi | i pts center bnd Hn Hc Hi H0 Hkids IH];
    intros Hvalid j nd Hj Hnd.
  - replace j with i in * by lia. simplify_eq. simpl.
    apply ValidString_Join, Forall_forall. intros k [v Hk]%elem_of_keysOf. eauto.
  - pose proof (encodes_kids_ordered _ _ _ _ _ _ 8 Hkids) as Hord.
    destruct (decide (j = i)) as [->|Hne]; [by simplify_eq|].
    destruct (bnd_locate bnd j) as (o & Ho & Hjo);
      [intros o Ho; apply (Hord o Ho) | lia |].
    apply (IH o Ho) with (j := j); [|done|done].
    intros k v [Hk _]%childSet_lookup. eauto.
Qed.

(** The center of a parent of a tree with finite centers is no
    unsupported value. *)
Lemma finiteCenters_supported (STOP : Z) (oct : list node.t) (nd : node.t) (k : Z) :
  finiteCenters STOP oct = true → nd ∈ oct → STOP < node.N nd →
  unsupportedValue (jsonNode.mk k (node.N nd) (Some (node.CENTER nd))
                      (Some (node.CHILDREN nd)) EmptyString) = false.
Proof.
  unfold finiteCenters, unsupportedValue. rewrite forallb_forall.
  intros Hfin Hnd%list_elem_of_In Hp. specialize (Hfin nd Hnd).
  destruct (Z.gtb_spec (node.N nd) STOP); [|lia]. simpl in *.
  revert Hfin.
  destruct (GoMath.notFinite (c0 (node.CENTER nd))),
           (GoMath.notFinite (c1 (node.CENTER nd))),
           (GoMath.notFinite (c2 (node.CENTER nd))); simpl; congruence.
Qed.

(** C2 (as amended). For the tree of every completed build whose
    partition centers are all finite and whose identifiers are valid UTF-8,
    when the file can be written and the node slices can be allocated,
    [Export] writes an exchange record with the build's method, threshold and
    node count, and [Import] of the file, whatever the engine held before,
    yields the very state the build left: the same node list (count,
    center, children and keys of every node), the same metadata, and the
    same statistics, recomputed by [calcStats]. *)
Theorem C2_export_import (fuel : nat) (method : string) (terminal_N : Z)
    (refPoints : DataSet) (elapsed : Z) (s s' : State) (file : string) (compact : bool)
    (heap : Z) (s0 : State) :
  Make fuel method terminal_N refPoints elapsed s = Ok s' →
  file ≠ EmptyString →
  finiteCenters terminal_N (_octree s') = true →
  (∀ k v, refPoints !! k = Some v → GoUtf8.ValidString k = true) →
  nodeSize * Z.of_nat (length (_octree s')) <= maxAlloc →
  nodeSize * Z.of_nat (length (_octree s')) <= heap →
  ∃ jsonData,
    Export file compact NoFault heap s' = Ok (Document jsonData)
    ∧ jsonOctree.HOW jsonData = method
    ∧ jsonOctree.STOP jsonData = terminal_N
    ∧ jsonOctree.SIZE jsonData = Z.of_nat (length (_octree s'))
    ∧ length (jsonOctree.OCTREE jsonData) = length (_octree s')
    ∧ Import (Document jsonData) heap s0 = Ok s'.
Proof.
  intros HMake Hfile Hfin Hkeys Hmax Hheap.
  destruct (Make_Ok _ _ _ _ _ _ _ _ _ HMake)
    as (_ & _ & calcCenter & Hcc & Hbuilt & Hstats).
  destruct (Make_stats _ _ _ _ _ _ _ _ _ HMake) as (HHOW & HSIZE & HSTOP & HTIME & _ & Hne).
  apply built_encodes in Hbuilt.
  set (jsonData :=
         jsonOctree.mk method terminal_N elapsed (Z.of_nat (length (_octree s')))
           (imap (fun k v => exportNode terminal_N (Z.of_nat k) v) (_octree s'))).
  assert (Hrec : exportRecord heap s' = Ok jsonData).
  { rewrite exportRecord_Ok; [by rewrite HHOW, HSTOP, HSIZE, HTIME | done | |];
      rewrite HSIZE; unfold jsonNodeSize, nodeSize in *; lia. }
  assert (Hm : jsonMarshal jsonData = Ok jsonData).
  { apply jsonMarshal_Ok; simpl; [exact (makeCalcCenter_valid _ _ Hcc)|].
    apply Forall_forall. intros v [j Hv]%list_elem_of_lookup.
    rewrite list_lookup_imap in Hv.
    destruct (_octree s' !! j) as [nd|] eqn:Hj; [|done]. simpl in Hv.
    injection Hv as <-. unfold exportNode.
    destruct (Z.gtb_spec (node.N nd) terminal_N) as [Hp|Hl].
    - split; [|done].
      apply (finiteCenters_supported terminal_N (_octree s')); [done | | done].
      by apply list_elem_of_lookup_2 in Hj.
    - split; [done|]. simpl.
      apply (encodes_valid_keys _ _ _ _ _ _ Hbuilt Hkeys j); [|done].
      pose proof (lookup_lt_Some _ _ _ Hj). lia. }
  exists jsonData. split.
  { unfold Export. rewrite HSIZE.
    destruct (Z.eqb_spec (Z.of_nat (length (_octree s'))) 0) as [E|_].
    { destruct (_octree s'); [done | simpl in E; lia]. }
    destruct (String.eqb_spec file "") as [E|_]; [done|].
    rewrite Hrec. simpl. unfold jsonMarshalIndent. rewrite Hm. by destruct compact. }
  simpl. rewrite length_imap. repeat (split; [done|]).
  unfold Import.
  rewrite importRecord_filled; simpl; rewrite ?length_imap, ?Nat2Z.id; [|lia|lia| |done|done].
  - rewrite Nat.sub_diag, app_nil_r. etrans; [|exact Hstats].
    apply calcStats_ext; simpl; try done.
    apply list_eq. intros j. rewrite list_lookup_fmap, list_lookup_imap.
    destruct (_octree s' !! j) as [nd|] eqn:Hj; [|done]. simpl. f_equal.
    apply (importNode_exportNode terminal_N (_octree s') j).
    apply (encodes_shape _ _ _ _ _ _ Hbuilt j nd); [|done].
    pose proof (lookup_lt_Some _ _ _ Hj). lia.
  - apply Forall_forall. intros v [j Hv]%list_elem_of_lookup.
    rewrite list_lookup_imap in Hv.
    destruct (_octree s' !! j) as [nd|] eqn:Hj; [|done]. simpl in Hv.
    injection Hv as <-.
    apply (importNode_exportNode terminal_N (_octree s') j).
    apply (encodes_shape _ _ _ _ _ _ Hbuilt j nd); [|done].
    pose proof (lookup_lt_Some _ _ _ Hj). lia.
Qed.

Lemma makeCalcCenter_unrecognized (method : string) :
  method ∉ methods → makeCalcCenter MaxIterations Tol method = Halt InvalidMethod.
Proof.
  intros Hm. unfold makeCalcCenter, methods in *.
  destruct (String.eqb_spec method "Centroid") as [->|_];
    [exfalso; apply Hm; set_solver|].
  destruct (String.eqb_spec method "DataMidPoint") as [->|_];
    [exfalso; apply Hm; set_solver|].
  destruct (String.eqb_spec method "Geometric Median") as [->|_];
    [exfalso; apply Hm; set_solver|].
  destruct (String.eqb_spec method "XYZ Medians") as [->|_];
    [exfalso; apply Hm; set_solver|].
  reflexivity.
Qed.

(** C8. [Make] with a threshold of 1, or any threshold not above 1, halts
    with the invalid-threshold message; with a valid threshold, a
    non-empty point set and a method name that is none of the four, "bogus"
    for one, it halts with the unrecognized-method message; [Query] on an
    engine that holds no tree (node count 0, as before any build or import)
    halts with the no-octree message.  Each halt precedes the construction:
    it is the outcome for every fuel, also fuel 0, with which the builder
    cannot run, and whatever the engine held before. *)
Theorem C8_invalid_calls :
  (∀ fuel method terminal_N refPoints elapsed s,
     terminal_N <= 1 →
     Make fuel method terminal_N refPoints elapsed s = Halt InvalidThreshold)
  ∧ (∀ fuel method terminal_N (refPoints : DataSet) elapsed s,
       1 < terminal_N → refPoints ≠ ∅ → method ∉ methods →
       Make fuel method terminal_N refPoints elapsed s = Halt InvalidMethod)
  ∧ ("bogus" ∉ methods)
  ∧ (∀ fuel q s,
       statistics.SIZE (_stats s) = 0 → Query fuel q s = Halt EmptyTree)
  ∧ statistics.SIZE (_stats initial) = 0.
Proof.
  split; [|split; [|split; [|split]]].
  - intros fuel method terminal_N refPoints elapsed s Ht. unfold Make.
    by destruct (Z.gtb_spec terminal_N 1); [lia|].
  - intros fuel method terminal_N refPoints elapsed s Ht Hpts Hm. unfold Make.
    destruct (Z.gtb_spec terminal_N 1); [simpl|lia].
    destruct (Z.eqb_spec (len refPoints) 0) as [E|_].
    { exfalso. apply Hpts, map_size_empty_iff. unfold len in E. lia. }
    by rewrite makeCalcCenter_unrecognized.
  - unfold methods. intros H.
    repeat (apply elem_of_cons in H as [H|H]; [discriminate|]).
    by apply elem_of_nil in H.
  - intros fuel q s HSIZE. unfold Query. by rewrite HSIZE.
  - reflexivity.
Qed.

(** C9 (as amended). [Import] has no corrupt-data failure and does not
    check the structure of what it reads: it halts for a file that is
    missing or empty, that cannot be read, or that [json.Unmarshal] rejects,
    and for nothing else.  On a structurally valid record (a positive node
    count equal to the length of the node list, center and children present
    in every record whose count exceeds the threshold) whose node slice can
    be allocated it succeeds.  The status of a node is decided by its count
    alone: each record becomes a parent with the record's center and
    children and no keys when its count exceeds the threshold, a leaf with
    the record's keys and neither center nor children when it does not,
    whichever optional fields the record holds. *)
Theorem C9_import_outcomes (input : fileData) (heap : Z) (s : State) :
  (∀ e, Import input heap s = Halt e ↔
        ((input = NoFile ∨ input = EmptyFile) ∧ e = FileMissingOrEmpty)
        ∨ (input = Unreadable ∧ e = ReadFileFailed)
        ∨ (input = Undecodable ∧ e = UnmarshalFailed))
  ∧ (∀ jsonIn,
       let STOP := jsonOctree.STOP jsonIn in
       let SIZE := jsonOctree.SIZE jsonIn in
       let nodes := jsonOctree.OCTREE jsonIn in
       input = Document jsonIn →
       0 < SIZE → Z.of_nat (length nodes) = SIZE →
       Forall (dereferenceable STOP) nodes →
       nodeSize * SIZE <= maxAlloc → nodeSize * SIZE <= heap →
       ∃ s', Import input heap s = Ok s'
             ∧ _octree s' = importNode STOP <$> nodes
             ∧ statistics.STOP (_stats s') = STOP
             ∧ statistics.SIZE (_stats s') = SIZE)
  ∧ (∀ STOP v, node.N (importNode STOP v) = jsonNode.N v
          ∧ (STOP < jsonNode.N v →
             node.KEYS (importNode STOP v) = EmptyString
             ∧ node.CENTER (importNode STOP v) = default zeroCoords (jsonNode.CENTER v)
             ∧ node.CHILDREN (importNode STOP v) = default zeroLinks (jsonNode.CHILDREN v))
          ∧ (jsonNode.N v <= STOP →
             node.KEYS (importNode STOP v) = jsonNode.KEYS v
             ∧ node.CENTER (importNode STOP v) = zeroCoords
             ∧ node.CHILDREN (importNode STOP v) = zeroLinks)).
Proof.
  split; [|split].
  - intros e. destruct input as [| | | |jsonIn]; simpl.
    + split; [intros [= <-]; left; eauto|].
      intros [[_ ->]|[[? _]|[? _]]]; done.
    + split; [intros [= <-]; left; eauto|].
      intros [[_ ->]|[[? _]|[? _]]]; done.
    + split; [intros [= <-]; right; left; eauto|].
      intros [[[?|?] _]|[[_ ->]|[? _]]]; done.
    + split; [intros [= <-]; right; right; eauto|].
      intros [[[?|?] _]|[[? _]|[_ ->]]]; done.
    + split.
      * intros H. destruct (okOrPanic_importRecord jsonIn heap s) as [[s' Hs']|[p Hp]];
          congruence.
      * intros [[[?|?] _]|[[? _]|[? _]]]; done.
  - intros jsonIn STOP SIZE nodes -> Hpos Hlen Hderef Hmax Hheap. subst STOP SIZE nodes.
    simpl. rewrite importRecord_filled by (done || lia).
    rewrite <- Hlen, Nat2Z.id, Nat.sub_diag, app_nil_r.
    edestruct calcStats_total as [s' Hs']; last first.
    + exists s'. split; [exact Hs'|].
      apply calcStats_Ok in Hs' as (-> & _ & -> & -> & _). simpl. by rewrite Hlen.
    + simpl. intros E. apply (f_equal length) in E.
      rewrite length_fmap in E. simpl in E. lia.
  - intros STOP v. unfold importNode.
    destruct (Z.gtb_spec (jsonNode.N v) STOP); simpl;
      (split; [done|]); split; intros; (lia || done).
Qed.

End ExchangeClaims.

(** An instance of C2 (as amended): the sample tree survives the round
    trip. *)
Lemma C2_export_import_witness :
  ∃ s' jsonData,
    Make defaultMaxIterations defaultTol 10 "Centroid" 2 samplePoints 0 initial = Ok s'
    ∧ Export "demo.json" true NoFault (2 ^ 30) s' = Ok (Document jsonData)
    ∧ Import (Document jsonData) (2 ^ 30) initial = Ok s'.
Proof.
  assert (Hkeys : ∀ k v, samplePoints !! k = Some v → GoUtf8.ValidString k = true).
  { intros k v Hk. apply elem_of_map_to_list in Hk. vm_compute in Hk.
    repeat (apply elem_of_cons in Hk as [Hk|Hk]; [injection Hk as -> _; reflexivity|]).
    apply elem_of_nil in Hk. destruct Hk. }
  assert (HM : ∃ s', Make defaultMaxIterations defaultTol 10 "Centroid" 2 samplePoints 0
                       initial = Ok s'
                     ∧ finiteCenters 2 (_octree s') = true
                     ∧ length (_octree s') = 9%nat)
    by (eexists; split; [|split]; vm_compute; reflexivity).
  destruct HM as (s' & HM & Hfin & Hlen).
  destruct (C2_export_import defaultMaxIterations defaultTol 10 "Centroid" 2 samplePoints 0
              initial s' "demo.json" true (2 ^ 30) initial HM ltac:(discriminate) Hfin Hkeys)
    as (jsonData & HE & _ & _ & _ & _ & HI);
    [rewrite Hlen; vm_compute; discriminate ..|].
  exists s', jsonData. split; [exact HM|]. split; [exact HE | exact HI].
Defined.

(** C2 as stated fails.  The build on three points with the abscissa
    2^1023 completes, with a root whose center is infinite on the first
    axis, and [Export] of its tree halts: [json.Marshal] refuses the center.
    The build on a point whose identifier is the byte 0xFF completes, and
    the tree that [Import] reads from the exported file holds U+FFFD as its
    key, not that identifier. *)
Lemma C2_export_counterexample :
  (∃ s', Make defaultMaxIterations defaultTol 10 "Centroid" 2 hugePoints 0 initial = Ok s'
         ∧ length (_octree s') = 9%nat
         ∧ Export "demo.json" true NoFault (2 ^ 30) s' = Halt MarshalFailed)
  ∧ (∃ s' output s'',
       Make defaultMaxIterations defaultTol 10 "Centroid" 2 invalidKeyPoints 0 initial = Ok s'
       ∧ Export "demo.json" true NoFault (2 ^ 30) s' = Ok output
       ∧ Import output (2 ^ 30) initial = Ok s''
       ∧ node.KEYS <$> _octree s' = [invalidKey]
       ∧ node.KEYS <$> _octree s'' = [GoUtf8.replacement]).
Proof.
  split.
  - eexists. split; [vm_compute; reflexivity|]. split; vm_compute; reflexivity.
  - eexists _, _, _. split; [vm_compute; reflexivity|].
    split; [vm_compute; reflexivity|]. split; [vm_compute; reflexivity|].
    split; vm_compute; reflexivity.
Qed.

(** Instances of C8: the three invalid calls of the specification. *)
Lemma C8_invalid_calls_witness :
  Make defaultMaxIterations defaultTol 0 "XYZ Medians" 1 samplePoints 0 initial
    = Halt InvalidThreshold
  ∧ Make defaultMaxIterations defaultTol 0 "bogus" 2 samplePoints 0 initial
    = Halt InvalidMethod
  ∧ Query 0 zeroCoords initial = Halt EmptyTree.
Proof.
  destruct (C8_invalid_calls defaultMaxIterations defaultTol) as (H1 & H2 & H3 & H4 & H5).
  split; [apply H1; lia|]. split; [apply H2; [lia | discriminate | exact H3]|].
  apply H4. exact H5.
Defined.

(** C9 as stated fails: a record that declares two nodes and lists one is
    imported without any error, the missing node turning into an empty leaf;
    a record that lists more nodes than it declares, and a record whose
    parent lacks center and children, end in a run-time panic, not in a
    corrupt-data error. *)
Lemma C9_import_counterexample :
  (∃ s', Import (Document shortRecord) (2 ^ 30) initial = Ok s'
         ∧ jsonOctree.SIZE shortRecord = 2
         ∧ length (jsonOctree.OCTREE shortRecord) = 1%nat
         ∧ _octree s' = [node.mk 1 zeroCoords zeroLinks "A"; node.blank])
  ∧ Import (Document longRecord) (2 ^ 30) initial = Panic IndexOutOfRange
  ∧ Import (Document orphanRecord) (2 ^ 30) initial = Panic NilDereference.
Proof.
  split; [|split]; [|vm_compute; reflexivity ..].
  eexists. split; [vm_compute; reflexivity|]. by vm_compute.
Qed.

(** Instances of C9 (as amended): the canonical record is imported, each
    of its nine records by its count; a missing and an undecodable file
    halt. *)
Lemma C9_import_outcomes_witness :
  (∃ s', Import (Document canonicalRecord) (2 ^ 30) initial = Ok s'
         ∧ length (_octree s') = 9%nat)
  ∧ Import NoFile (2 ^ 30) initial = Halt FileMissingOrEmpty
  ∧ Import Undecodable (2 ^ 30) initial = Halt UnmarshalFailed.
Proof.
  split; [|split].
  - destruct (C9_import_outcomes (Document canonicalRecord) (2 ^ 30) initial)
      as (_ & H & _).
    assert (HF : Forall (dereferenceable (jsonOctree.STOP canonicalRecord))
                        (jsonOctree.OCTREE canonicalRecord)).
    { unfold canonicalRecord, dereferenceable. simpl.
      repeat (constructor; [simpl; first [by eauto | intros ?; lia]|]). constructor. }
    destruct (H canonicalRecord eq_refl ltac:(simpl; lia) ltac:(reflexivity) HF
                ltac:(vm_compute; discriminate) ltac:(vm_compute; discriminate))
      as (s' & Hs' & Hoct & _).
    exists s'. split; [exact Hs'|]. by rewrite Hoct.
  - destruct (C9_import_outcomes NoFile (2 ^ 30) initial) as (H & _).
    apply H. left. eauto.
  - destruct (C9_import_outcomes Undecodable (2 ^ 30) initial) as (H & _).
    apply H. right. right. eauto.
Defined.

(* ===================================================================== *)
(** ** The geometric-median estimator *)
(* ===================================================================== *)

Section Estimator.
Variable MaxIterations : Z.
Variable Tol : float.
Variable refPoints : DataSet.

Local Abbreviation ctrlLoopOn := (ctrlLoop Tol refPoints).
Local Abbreviation medianLoopOn := (medianLoop MaxIterations Tol refPoints).
Local Abbreviation macroIterationOn := (macroIteration Tol refPoints).
Local Abbreviation estimatorOn := (estimator MaxIterations Tol refPoints).

(** The pass over [ctrl] = 1, 2, 3 on the arrays is the macro-iteration
    on the guess [medians[0]]; what the other entries of [medians] and
    [diffs] held before the pass does not matter. *)
Lemma ctrlLoop_macroIteration (e0 m1 m2 m3 d0 d1 d2 d3 : DataCoords) :
  match ctrlLoopOn [1%nat; 2%nat; 3%nat] (mkEstimates [e0; m1; m2; m3] [d0; d1; d2; d3]) with
  | inl r => macroIterationOn e0 = Converged r
  | inr e' =>
      length (medians (nextGuess e')) = 4%nat
      ∧ length (diffs (nextGuess e')) = 4%nat
      ∧ macroIterationOn e0 = NextGuess (medians (nextGuess e') !!! 0%nat)
  end.
Proof.
  unfold macroIteration, ctrlLoop, ctrlBody, nextGuess, belowTol, absDiff.
  generalize (calcWeiszfeldEstimate refPoints) calcAitkenEstimate GoMath.Max GoMath.Abs.
  intros W A Max Abs. simpl.
  destruct (PrimFloat.ltb _ Tol); [done|]. simpl.
  destruct (PrimFloat.ltb _ Tol); [done|]. simpl.
  destruct (PrimFloat.ltb _ Tol); [done|]. simpl.
  done.
Qed.

(** The loop of the code is the estimator of the specification, from
    whatever arrays of four estimates and four differences. *)
Lemma medianLoop_estimator (fuel : nat) :
  ∀ (iterations : Z) (e : estimates),
    length (medians e) = 4%nat → length (diffs e) = 4%nat →
    medianLoopOn fuel iterations e = estimatorOn fuel iterations (medians e !!! 0%nat).
Proof.
  induction fuel as [|fuel IH]; intros iterations [ms ds] Hm Hd; simpl in Hm, Hd;
    destruct ms as [|e0 [|m1 [|m2 [|m3 [|]]]]]; try discriminate;
    destruct ds as [|d0 [|d1 [|d2 [|d3 [|]]]]]; try discriminate;
    unfold medianLoop, estimator;
    fold (medianLoop MaxIterations Tol refPoints);
    fold (estimator MaxIterations Tol refPoints);
    destruct (Z.ltb_spec iterations MaxIterations), (Z.leb_spec MaxIterations iterations);
    try lia; try reflexivity.
  pose proof (ctrlLoop_macroIteration e0 m1 m2 m3 d0 d1 d2 d3) as Hpass.
  destruct (ctrlLoopOn _ _) as [r|e'].
  - change (medians (mkEstimates [e0; m1; m2; m3] [d0; d1; d2; d3]) !!! 0%nat) with e0.
    by rewrite Hpass.
  - destruct Hpass as (Hm' & Hd' & Hpass).
    change (medians (mkEstimates [e0; m1; m2; m3] [d0; d1; d2; d3]) !!! 0%nat) with e0.
    rewrite Hpass. by apply IH.
Qed.

Lemma wrap_small (z : Z) : - 2 ^ 63 <= z < 2 ^ 63 → GoMath.wrap z = z.
Proof. intros Hz. unfold GoMath.wrap. rewrite Z.mod_small; lia. Qed.

(** With a bound that the counter can reach without wrapping around, the
    estimator ends, with an estimate or with the failure, within the
    passes that the bound allows. *)
Lemma estimator_total (fuel : nat) :
  MaxIterations <= 2 ^ 63 - 3 →
  ∀ (counter : Z) (e0 : DataCoords),
    0 <= counter → MaxIterations - counter <= 3 * Z.of_nat fuel →
    (∃ e, estimatorOn fuel counter e0 = Ok e)
    ∨ estimatorOn fuel counter e0 = Halt MaxIterationsExceeded.
Proof.
  intros Hmax. induction fuel as [|fuel IH]; intros counter e0 Hc Hf;
    unfold estimator; fold (estimator MaxIterations Tol refPoints);
    destruct (Z.leb_spec MaxIterations counter); auto; [lia|].
  destruct (macroIterationOn e0) as [e|e0']; [eauto|].
  rewrite wrap_small by lia. apply IH; lia.
Qed.

End Estimator.

(** C6. The geometric-median strategy of the code is the estimator that
    the specification describes: from the centroid, macro-iterations of two
    Weiszfeld steps and one Aitken step, the convergence test (the maximum
    over the axes of the current absolute differences below [Tol]) after
    each of the three sub-steps with the estimate returned at once, else the
    next guess chosen axis by axis (the Aitken value where the differences
    strictly decrease, the second Weiszfeld value elsewhere), the counter
    advanced by 3, and the failure when the counter has reached
    [MaxIterations].  For a bound that the counter reaches without wrapping
    around it ends with one of the two.  The center function that
    [makeCalcCenter] installs for the name [Geometric Median] is that
    estimator, run from the centroid with the counter at 0 for the passes
    that the bound allows. *)
Theorem C6_estimator_refinement (MaxIterations : Z) (Tol : float) (refPoints : DataSet) :
  (∀ fuel,
     calcGeometricMedianFuel MaxIterations Tol refPoints fuel
     = estimator MaxIterations Tol refPoints fuel 0 (calcCentroid refPoints))
  ∧ (MaxIterations <= 2 ^ 63 - 3 →
     (∃ e, calcGeometricMedian MaxIterations Tol refPoints = Ok e)
     ∨ calcGeometricMedian MaxIterations Tol refPoints = Halt MaxIterationsExceeded)
  ∧ calcGeometricMedian MaxIterations Tol refPoints
    = estimator MaxIterations Tol refPoints (medianFuel MaxIterations) 0
        (calcCentroid refPoints)
  ∧ makeCalcCenter MaxIterations Tol "Geometric Median"
    = Ok (calcGeometricMedian MaxIterations Tol).
Proof.
  assert (Href : ∀ fuel,
            calcGeometricMedianFuel MaxIterations Tol refPoints fuel
            = estimator MaxIterations Tol refPoints fuel 0 (calcCentroid refPoints)).
  { intros fuel. unfold calcGeometricMedianFuel. by rewrite medianLoop_estimator. }
  split; [done|].
  split; [|split; [unfold calcGeometricMedian; by rewrite Href | reflexivity]].
  intros Hmax. unfold calcGeometricMedian. rewrite Href.
  apply estimator_total; [done | lia |].
  unfold medianFuel. destruct (Z.le_gt_cases 0 MaxIterations) as [Hpos|Hneg].
  - rewrite Z2Nat.id by (apply Z.div_pos; lia).
    pose proof (Z.div_mod (MaxIterations + 2) 3 ltac:(lia)).
    pose proof (Z.mod_pos_bound (MaxIterations + 2) 3 ltac:(lia)). lia.
  - lia.
Qed.

(** An instance of C6 with the default settings, and the run on the
    sample points. *)
Lemma C6_estimator_refinement_witness :
  ((∃ e, calcGeometricMedian defaultMaxIterations defaultTol samplePoints = Ok e)
   ∨ calcGeometricMedian defaultMaxIterations defaultTol samplePoints
     = Halt MaxIterationsExceeded)
  ∧ (∃ e, estimator defaultMaxIterations defaultTol samplePoints 334 0
                    (calcCentroid samplePoints) = Ok e)
  ∧ (∃ e, estimator defaultMaxIterations defaultTol samplePoints
                    (medianFuel defaultMaxIterations) 0 (calcCentroid samplePoints) = Ok e
          ∧ e ≠ calcCentroid samplePoints).
Proof.
  destruct (C6_estimator_refinement defaultMaxIterations defaultTol samplePoints)
    as (Href & Htotal & Hinstalled & _).
  split; [apply Htotal; vm_compute; discriminate|].
  split; [rewrite <- Href; eexists; vm_compute; reflexivity|].
  rewrite <- Hinstalled. eexists. split; [vm_compute; reflexivity|].
  intros E. apply (f_equal (fun c => PrimFloat.eqb (c1 c) (c1 (calcCentroid samplePoints))))
    in E. vm_compute in E. discriminate E.
Defined.

(* ===================================================================== *)
(** ** The Weiszfeld step at distance zero *)
(* ===================================================================== *)

Section Weiszfeld.

Lemma nonFinite_add_l (x y : float) : nonFinite x → nonFinite (x + y)%float.
Proof.
  unfold nonFinite. rewrite add_spec. unfold SF64add, SFadd.
  destruct (Prim2SF x) as [|[]| |]; try done; by destruct (Prim2SF y) as [|[]| |].
Qed.

Lemma nonFinite_add_r (x y : float) : nonFinite y → nonFinite (x + y)%float.
Proof.
  unfold nonFinite. rewrite add_spec. unfold SF64add, SFadd.
  destruct (Prim2SF y) as [|[]| |]; try done; by destruct (Prim2SF x) as [[]|[]| |].
Qed.

Lemma isZero_spec (m : float) :
  GoMath.isZero m = true → ∃ sign, Prim2SF m = S754_zero sign.
Proof.
  unfold GoMath.isZero. rewrite FloatAxioms.eqb_spec.
  change (Prim2SF 0) with (S754_zero false). unfold SFeqb.
  destruct (Prim2SF m) as [sign|[]| |[]]; try discriminate. eauto.
Qed.

(** A division by a zero gives an infinity or NaN, whatever is divided. *)
Lemma nonFinite_div_zero (x m : float) :
  GoMath.isZero m = true → nonFinite (x / m)%float.
Proof.
  intros [sign Hm]%isZero_spec. unfold nonFinite.
  rewrite div_spec, Hm. unfold SF64div, SFdiv.
  by destruct (Prim2SF x).
Qed.

(** Infinity or NaN over infinity or NaN is NaN. *)
Lemma nonFinite_div (x d : float) :
  nonFinite x → nonFinite d → (x / d)%float = nan.
Proof.
  unfold nonFinite. intros Hx Hd.
  rewrite <- (SF2Prim_Prim2SF (x / d)), div_spec. unfold SF64div, SFdiv.
  destruct (Prim2SF x); try done; by destruct (Prim2SF d).
Qed.

(** C7 (as amended). The Weiszfeld step has no numerical-degeneracy
    failure: whenever some input point lies at distance zero from the
    current estimate, the step divides by that zero and returns, as its
    estimate, NaN on every axis. *)
Theorem C7_weiszfeld_zero_distance (refPoints : DataSet) (refEstimate : DataCoords) :
  (∃ k v, refPoints !! k = Some v ∧ GoMath.isZero (metricTo refEstimate v) = true) →
  calcWeiszfeldEstimate refPoints refEstimate = nanCoords.
Proof.
  intros Hzero. unfold calcWeiszfeldEstimate.
  set (f := fun (_ : string) (v : DataCoords) '(denom, num) =>
              let metric := metricTo refEstimate v in
              ((denom + 1 / metric)%float,
               perAxis (fun k => (coord num k + coord v k / metric)%float))).
  assert (Hacc : nonFinite (map_fold f (0%float, zeroCoords) refPoints).1
                 ∧ ∀ k, nonFinite (coord (map_fold f (0%float, zeroCoords) refPoints).2 k)).
  { revert Hzero.
    apply (map_fold_weak_ind
             (fun (acc : float * DataCoords) (m : DataSet) =>
                (∃ k v, m !! k = Some v ∧ GoMath.isZero (metricTo refEstimate v) = true) →
                nonFinite acc.1 ∧ ∀ k, nonFinite (coord acc.2 k))).
    - intros (k & v & Hk & _). by rewrite lookup_empty in Hk.
    - intros i x m [denom num] Hi IH (k & v & Hk & Hv). simpl.
      destruct (decide (i = k)) as [->|Hne].
      + rewrite lookup_insert_eq in Hk. injection Hk as ->. split.
        * by apply nonFinite_add_r, nonFinite_div_zero.
        * intros [|[|a]]; simpl; by apply nonFinite_add_r, nonFinite_div_zero.
      + rewrite lookup_insert_ne in Hk by done.
        destruct IH as [Hd Hn]; [eauto|]. simpl in Hd. split.
        * by apply nonFinite_add_l.
        * intros [|[|a]]; simpl; apply nonFinite_add_l;
            [apply (Hn 0%nat) | apply (Hn 1%nat) | apply (Hn 2%nat)]. }
  destruct (map_fold f (0%float, zeroCoords) refPoints) as [denom num].
  destruct Hacc as [Hd Hn]. simpl in Hd, Hn.
  unfold perAxis, nanCoords.
  by rewrite (nonFinite_div _ _ (Hn 0%nat) Hd), (nonFinite_div _ _ (Hn 1%nat) Hd),
    (nonFinite_div _ _ (Hn 2%nat) Hd).
Qed.

End Weiszfeld.

(** An instance of C7 (as amended): the estimate at the origin, where the
    point "a" of the degenerate sample lies. *)
Lemma C7_weiszfeld_zero_distance_witness :
  calcWeiszfeldEstimate degeneratePoints zeroCoords = nanCoords.
Proof.
  apply C7_weiszfeld_zero_distance. exists "a", zeroCoords.
  split; [reflexivity | vm_compute; reflexivity].
Defined.

(** C7 as stated fails: with the point "a" on the first guess (the
    centroid) the Weiszfeld step raises nothing and returns NaN on every
    axis; the NaN passes every convergence test as not converged, so that the
    strategy, and a build with it, only end when the iteration bound is
    exhausted, with the failure of the bound. *)
Lemma C7_weiszfeld_counterexample :
  degeneratePoints !! "a" = Some zeroCoords
  ∧ calcCentroid degeneratePoints = zeroCoords
  ∧ metricTo zeroCoords zeroCoords = 0%float
  ∧ calcWeiszfeldEstimate degeneratePoints (calcCentroid degeneratePoints) = nanCoords
  ∧ calcGeometricMedian defaultMaxIterations defaultTol degeneratePoints
    = Halt MaxIterationsExceeded
  ∧ Make defaultMaxIterations defaultTol 10 "Geometric Median" 2 degeneratePoints 0 initial
    = Halt MaxIterationsExceeded.
Proof. repeat split; vm_compute; reflexivity. Qed.

(* ===================================================================== *)
(** ** Further properties: validation and the engine state *)
(* ===================================================================== *)

Section Validation.
Variable MaxIterations : Z.
Variable Tol : float.

Local Abbreviation MakeOn := (Make MaxIterations Tol).

Lemma makeCalcCenter_methods (method : string) :
  method ∈ methods → ∃ calcCenter, makeCalcCenter MaxIterations Tol method = Ok calcCenter.
Proof.
  unfold methods. intros H.
  repeat (apply elem_of_cons in H as [->|H]; [unfold makeCalcCenter; simpl; eauto|]).
  by apply elem_of_nil in H.
Qed.

(** The method names are matched exactly: [makeCalcCenter] returns a
    center function for the four names and for nothing else. *)
Theorem makeCalcCenter_recognized (method : string) :
  (∃ calcCenter, makeCalcCenter MaxIterations Tol method = Ok calcCenter)
  ↔ method ∈ methods.
Proof.
  split; [|apply makeCalcCenter_methods].
  intros [calcCenter H]. destruct (decide (method ∈ methods)) as [|Hn]; [done|].
  by rewrite makeCalcCenter_unrecognized in H.
Qed.

(** The checks of [Make] come in a fixed order: with a valid threshold
    and no points the call halts for the empty input, even when the method
    name is unrecognized as well. *)
Theorem Make_empty_input (fuel : nat) (method : string) (terminal_N : Z)
    (elapsed : Z) (s : State) :
  1 < terminal_N →
  MakeOn fuel method terminal_N ∅ elapsed s = Halt EmptyInput.
Proof.
  intros Ht. unfold Make. by destruct (Z.gtb_spec terminal_N 1); [|lia].
Qed.

(** [Make] discards whatever the engine held before: its outcome, tree and
    statistics included, does not depend on the previous state. *)
Theorem Make_discards_state (fuel : nat) (method : string) (terminal_N : Z)
    (refPoints : DataSet) (elapsed : Z) (s1 s2 : State) :
  MakeOn fuel method terminal_N refPoints elapsed s1
  = MakeOn fuel method terminal_N refPoints elapsed s2.
Proof.
  unfold Make. destruct (negb _); [done|]. destruct (_ =? 0); [done|].
  destruct (makeCalcCenter _ _ _) as [calcCenter| | |]; simpl; try done.
Qed.

(** [Import] too replaces the engine state as a whole. *)
Theorem Import_discards_state (input : fileData) (heap : Z) (s1 s2 : State) :
  Import input heap s1 = Import input heap s2.
Proof.
  by destruct input.
Qed.

(** A point set that fits the threshold gives a tree of one node: the
    root is a leaf that holds every identifier, and every query returns its
    keys. *)
Theorem Make_single_leaf (fuel : nat) (method : string) (terminal_N : Z)
    (refPoints : DataSet) (elapsed : Z) (s : State) :
  1 < terminal_N → refPoints ≠ ∅ → len refPoints <= terminal_N → method ∈ methods →
  ∃ s', MakeOn (S fuel) method terminal_N refPoints elapsed s = Ok s'
        ∧ _octree s' = [node.mk (len refPoints) zeroCoords zeroLinks
                                (GoStrings.Join (keysOf refPoints) ",")]
        ∧ ∀ qfuel q, Query qfuel q s' = Ok (GoStrings.Join (keysOf refPoints) ",").
Proof.
  intros Ht Hne Hfit [calcCenter Hcc]%makeCalcCenter_methods.
  assert (Hb : builder calcCenter terminal_N (S fuel) refPoints (mkBuild [] 0)
               = Ok (mkBuild [node.mk (len refPoints) zeroCoords zeroLinks
                                      (GoStrings.Join (keysOf refPoints) ",")] 0)).
  { simpl. unfold update, index. simpl.
    by destruct (Z.leb_spec (len refPoints) terminal_N); [|lia]. }
  set (leaf := node.mk (len refPoints) zeroCoords zeroLinks
                      (GoStrings.Join (keysOf refPoints) ",")) in *.
  destruct (calcStats_total
              (mkState [leaf] (statistics.setMeta method 1 terminal_N elapsed (_stats s))))
    as [s' Hs']; [done|].
  assert (HM : MakeOn (S fuel) method terminal_N refPoints elapsed s = Ok s').
  { unfold Make. destruct (Z.gtb_spec terminal_N 1); [|lia].
    destruct (Z.eqb_spec (len refPoints) 0) as [E|_].
    { exfalso. apply Hne, map_size_empty_iff. unfold len in E. lia. }
    cbn [negb]. apply bind_Ok. exists calcCenter. split; [done|].
    apply bind_Ok. eexists. split; [exact Hb | exact Hs']. }
  exists s'. split; [done|].
  destruct (Make_stats _ _ _ _ _ _ _ _ _ HM) as (_ & _ & HSTOP & _).
  assert (Hoct : _octree s' = [leaf]) by (by apply calcStats_Ok in Hs' as (-> & _)).
  split; [done|]. intros qfuel q.
  rewrite (Query_descend _ _ _ _ _ _ _ _ _ _ _ HM), Hoct.
  destruct qfuel; simpl; by destruct (Z.gtb_spec (len refPoints) terminal_N); [lia|].
Qed.

End Validation.

(** The sample points under a threshold of 3 give one leaf. *)
Lemma Make_single_leaf_witness :
  ∃ s', Make defaultMaxIterations defaultTol 1 "XYZ Medians" 3 samplePoints 0 initial = Ok s'
        ∧ length (_octree s') = 1%nat.
Proof.
  destruct (Make_single_leaf defaultMaxIterations defaultTol 0 "XYZ Medians" 3
              samplePoints 0 initial)
    as (s' & HM & Hoct & _);
    [lia | discriminate | vm_compute; discriminate | unfold methods; set_solver |].
  exists s'. split; [exact HM | by rewrite Hoct].
Defined.

(** An instance of the order of the checks. *)
Lemma Make_empty_input_witness :
  Make defaultMaxIterations defaultTol 0 "bogus" 2 ∅ 0 initial = Halt EmptyInput.
Proof. apply Make_empty_input. lia. Defined.

(* ===================================================================== *)
(** ** Further properties: the builder *)
(* ===================================================================== *)

Section BuilderProperties.
Variable calcCenter : centerFn.
Variable terminal_N : Z.

Local Abbreviation builderOn := (builder calcCenter terminal_N).

(** The loop that fills [childPts] shares the points out among the eight
    maps: a point is put in the map of its octant and in no other, and
    nothing else is put in any map. *)
Theorem segregate_partition (center : DataCoords) (refPoints : DataSet) :
  length (segregate center refPoints) = 8%nat
  ∧ (∀ k v, refPoints !! k = Some v →
       ∃ childPts, index (segregate center refPoints) (assignOctant center v) = Ok childPts
                   ∧ childPts !! k = Some v)
  ∧ (∀ o childPts k v,
       segregate center refPoints !! o = Some childPts → childPts !! k = Some v →
       refPoints !! k = Some v ∧ assignOctant center v = Z.of_nat o)
  ∧ sum_list (size <$> segregate center refPoints) = size refPoints.
Proof.
  rewrite segregate_childSet. split; [by rewrite length_fmap, length_seq|].
  split; [|split].
  - intros k v Hk. destruct (octant_nat center v) as [Ho Heq].
    exists (childSet center refPoints (Z.to_nat (assignOctant center v))). split.
    + rewrite Heq at 1. apply index_nat.
      by rewrite list_lookup_fmap, lookup_seq_lt.
    + by apply childSet_lookup.
  - intros o childPts k v Ho Hk. rewrite list_lookup_fmap in Ho.
    destruct (seq 0 8 !! o) as [o'|] eqn:E; [|done].
    apply lookup_seq in E as [-> _]. simpl in Ho. injection Ho as <-.
    by apply childSet_lookup in Hk.
  - rewrite <- list_fmap_compose. apply childSet_sizes.
Qed.

Lemma foldM_Ok_elem {A B : Type} (f : A → B → result A) (l : list B) (a r : A) (x : B) :
  foldM f l a = Ok r → x ∈ l → ∃ a1 a2, f a1 x = Ok a2.
Proof.
  revert a. induction l as [|b l IH]; intros a H Hx; [by apply elem_of_nil in Hx|].
  simpl in H. apply bind_Ok in H as (a' & Hstep & Hrest).
  apply elem_of_cons in Hx as [->|Hx]; [eauto | by apply (IH a')].
Qed.

Lemma builder_S (fuel : nat) (refPoints : DataSet) (b : build) :
  builderOn (S fuel) refPoints b =
    (oct ← update (octree b ++ [node.blank]) (masterNodeIdx b) (node.setN (len refPoints));
     if len refPoints <=? terminal_N then
       oct ← update oct (masterNodeIdx b)
               (node.setKEYS (GoStrings.Join (keysOf refPoints) ","));
       Ok (mkBuild oct (masterNodeIdx b))
     else
       center ← calcCenter refPoints;
       oct ← update oct (masterNodeIdx b) (node.setCENTER center);
       foldM (createChild (builderOn fuel) (masterNodeIdx b) (segregate center refPoints))
             octants (mkBuild oct (masterNodeIdx b))).
Proof. reflexivity. Qed.

Lemma builder_same_octant (refPoints : DataSet) (center : DataCoords) (o : nat) :
  terminal_N < len refPoints →
  calcCenter refPoints = Ok center →
  (∀ k v, refPoints !! k = Some v → assignOctant center v = Z.of_nat o) →
  ∀ fuel b b', builderOn fuel refPoints b ≠ Ok b'.
Proof.
  intros Hn Hc Hall.
  assert (Hsame : ∃ o', (o' < 8)%nat ∧ childSet center refPoints o' = refPoints).
  { destruct (decide (refPoints = ∅)) as [->|Hne].
    - exists 0%nat. split; [lia | apply childSet_empty].
    - destruct (map_choose refPoints Hne) as (k & v & Hk).
      exists o. split.
      + pose proof (assignOctant_range center v). rewrite (Hall k v Hk) in *. lia.
      + unfold childSet. apply map_filter_id. intros i x Hi. simpl.
        exact (Hall i x Hi). }
  destruct Hsame as (o' & Ho' & Hsame).
  induction fuel as [|fuel IH]; intros b b'; [discriminate|].
  rewrite builder_S. intros H. apply bind_Ok in H as (oct1 & _ & H).
  destruct (Z.leb_spec (len refPoints) terminal_N); [lia|].
  apply bind_Ok in H as (center' & Hc' & H).
  rewrite Hc in Hc'. injection Hc' as <-.
  apply bind_Ok in H as (oct2 & _ & H).
  apply (foldM_Ok_elem _ _ _ _ (Z.of_nat o')) in H as (b1 & b2 & H).
  - unfold createChild in H. apply bind_Ok in H as (oct3 & _ & H).
    rewrite segregate_index, Hsame in H by done.
    apply bind_Ok in H as (pts & [= <-] & H).
    by apply IH in H.
  - unfold octants.
    destruct o' as [|[|[|[|[|[|[|[|o']]]]]]]]; [set_solver .. | lia].
Qed.


Lemma builder_coincident (refPoints : DataSet) (v0 : DataCoords) :
  terminal_N < len refPoints →
  (∀ k v, refPoints !! k = Some v → v = v0) →
  ∀ fuel b b', builderOn fuel refPoints b ≠ Ok b'.
Proof.
  intros Hn Hall fuel b b' H.
  destruct (calcCenter refPoints) as [center| | |] eqn:Hc.
  1: { destruct (octant_nat center v0) as [_ Heq].
       apply (builder_same_octant refPoints center (Z.to_nat (assignOctant center v0))
                Hn Hc) in H; [done|].
       intros k v Hk. by rewrite (Hall k v Hk). }
  all: destruct fuel; [discriminate|]; rewrite builder_S in H;
    apply bind_Ok in H as (oct1 & _ & H);
    (destruct (Z.leb_spec (len refPoints) terminal_N); [lia|]);
    apply bind_Ok in H as (center' & Hc' & _); congruence.
Qed.

End BuilderProperties.

(* ===================================================================== *)
(** ** Further properties: node counts and statistics *)
(* ===================================================================== *)

Section Counting.
Variable calcCenter : centerFn.
Variable terminal_N : Z.

Local Abbreviation encodesOn := (encodes calcCenter terminal_N).

Lemma parentCount_app (l1 l2 : list node.t) :
  parentCount terminal_N (l1 ++ l2)
  = (parentCount terminal_N l1 + parentCount terminal_N l2)%nat.
Proof. unfold parentCount. by rewrite filter_app, length_app. Qed.

(** An encoded subtree has one node for its root and eight for each of
    its parents. *)
Lemma encodes_size (oct : list node.t) (i : nat) (pts : DataSet) (n : nat) :
  encodesOn oct i pts n →
  (n - i = 1 + 8 * parentCount terminal_N (segment oct i n))%nat.
Proof.
  induction 1 as [i pts Hn Hi | i pts center bnd Hn Hc Hi H0 Hkids IH].
  - rewrite (segment_cons _ _ _ _ Hi) by lia.
    unfold segment. rewrite Nat.sub_diag, take_0.
    unfold parentCount. rewrite filter_cons_False by (simpl; lia). simpl. lia.
  - pose proof (encodes_kids_ordered _ _ _ _ _ _ 8 Hkids) as Hord.
    pose proof (Hord 0%nat ltac:(lia)).
    rewrite (segment_cons _ _ _ _ Hi) by lia.
    unfold parentCount at 1. rewrite filter_cons_True by (simpl; lia).
    simpl length. fold (parentCount terminal_N (segment oct (S i) (bnd 8%nat))).
    rewrite <- H0.
    assert (Hm : ∀ m, (m <= 8)%nat →
              (bnd m - bnd 0
               = m + 8 * parentCount terminal_N (segment oct (bnd 0%nat) (bnd m)))%nat).
    { induction m as [|m IHm]; intros Hm.
      - unfold segment. rewrite Nat.sub_diag, take_0. unfold parentCount. simpl. lia.
      - pose proof (Hord m ltac:(lia)).
        rewrite (segment_split _ _ (bnd m)) by lia.
        rewrite parentCount_app. specialize (IHm ltac:(lia)).
        specialize (IH m ltac:(lia)). lia. }
    specialize (Hm 8%nat ltac:(lia)). lia.
Qed.

Lemma parents_and_leaves (l : list node.t) :
  (parentCount terminal_N l + length (leafCountsOf terminal_N l))%nat = length l.
Proof.
  unfold parentCount, leafCountsOf. rewrite length_fmap.
  induction l as [|nd l IH]; [done|].
  destruct (decide (terminal_N < node.N nd)).
  - rewrite filter_cons_True, (filter_cons_False (fun nd => node.N nd <= terminal_N))
      by lia. simpl. lia.
  - rewrite filter_cons_False, (filter_cons_True (fun nd => node.N nd <= terminal_N))
      by lia. simpl. lia.
Qed.

(** The first loop of [calcStats], tally by tally. *)
Lemma tally_fold (l : list node.t) (t : tally) :
  fold_left (tallyNode terminal_N) l t
  = mkTally (fold_left Z.min (leafCountsOf terminal_N l) (minPts t))
            (fold_left Z.max (leafCountsOf terminal_N l) (maxPts t))
            (numParents t + Z.of_nat (parentCount terminal_N l))
            (numLeaves t + Z.of_nat (length (leafCountsOf terminal_N l)))
            (numEmpty t
             + Z.of_nat (length (filter (fun c => c = 0) (leafCountsOf terminal_N l))))
            (leafCounts t ++ leafCountsOf terminal_N l).
Proof.
  revert t. induction l as [|nd l IH]; intros [mn mx np nl ne lc]; simpl.
  - unfold parentCount, leafCountsOf. simpl. rewrite app_nil_r. f_equal; change (list_fmap node.t Z node.N) with (fmap (M:=list) node.N); lia.
  - rewrite IH. unfold tallyNode, parentCount, leafCountsOf.
    destruct (Z.gtb_spec (node.N nd) terminal_N).
    + rewrite (filter_cons_True (fun nd => terminal_N < node.N nd)),
        (filter_cons_False (fun nd => node.N nd <= terminal_N)) by lia.
      simpl. f_equal; change (list_fmap node.t Z node.N) with (fmap (M:=list) node.N); lia.
    + rewrite (filter_cons_False (fun nd => terminal_N < node.N nd)),
        (filter_cons_True (fun nd => node.N nd <= terminal_N)) by lia.
      simpl. rewrite <- app_assoc. simpl.
      destruct (Z.eqb_spec (node.N nd) 0) as [E|E].
      * rewrite (filter_cons_True (fun c => c = 0)) by done. simpl. f_equal; change (list_fmap node.t Z node.N) with (fmap (M:=list) node.N); lia.
      * rewrite (filter_cons_False (fun c => c = 0)) by done. f_equal; change (list_fmap node.t Z node.N) with (fmap (M:=list) node.N); lia.
Qed.

Lemma fold_min_le (l : list Z) (a : Z) :
  fold_left Z.min l a <= a ∧ Forall (fun c => fold_left Z.min l a <= c) l.
Proof.
  revert a. induction l as [|x l IH]; intros a; simpl; [split; [lia | constructor]|].
  destruct (IH (Z.min a x)) as [H1 H2]. split; [lia|].
  constructor; [lia | done].
Qed.

Lemma fold_max_ge (l : list Z) (a : Z) :
  a <= fold_left Z.max l a ∧ Forall (fun c => c <= fold_left Z.max l a) l.
Proof.
  revert a. induction l as [|x l IH]; intros a; simpl; [split; [lia | constructor]|].
  destruct (IH (Z.max a x)) as [H1 H2]. split; [lia|].
  constructor; [lia | done].
Qed.

Lemma fold_min_bound (l : list Z) (a lo : Z) :
  lo <= a → Forall (fun c => lo <= c) l → lo <= fold_left Z.min l a.
Proof.
  revert a. induction l as [|x l IH]; intros a Ha Hl; simpl; [done|].
  apply Forall_cons in Hl as [Hx Hl]. apply IH; [lia | done].
Qed.

Lemma fold_max_bound (l : list Z) (a hi : Z) :
  a <= hi → Forall (fun c => c <= hi) l → fold_left Z.max l a <= hi.
Proof.
  revert a. induction l as [|x l IH]; intros a Ha Hl; simpl; [done|].
  apply Forall_cons in Hl as [Hx Hl]. apply IH; [lia | done].
Qed.

End Counting.

Section Statistics.

(** What [calcStats] always delivers, on any non-empty node list: parents
    and leaves add up to the nodes, there is one leaf count per leaf, the
    empty leaves are the zero counts, and every leaf count lies between the
    recorded minimum and maximum. *)
Theorem calcStats_counts (s s' : State) :
  calcStats s = Ok s' →
  let st := _stats s' in
  statistics.NUMPARENTS st + statistics.NUMLEAVES st = Z.of_nat (length (_octree s))
  ∧ statistics.NUMLEAVES st = Z.of_nat (length (statistics.LEAFCOUNTS st))
  ∧ statistics.NUMEMPTY st
    = Z.of_nat (length (filter (fun c => c = 0) (statistics.LEAFCOUNTS st)))
  ∧ Forall (fun c => statistics.XMIN st <= c <= statistics.XMAX st)
           (statistics.LEAFCOUNTS st)
  ∧ Forall (fun c => c <= statistics.STOP st) (statistics.LEAFCOUNTS st)
  ∧ statistics.MINPTS st = statistics.XMIN st
  ∧ statistics.MAXPTS st = statistics.XMAX st.
Proof.
  unfold calcStats. rewrite bind_Ok. intros (root & _ & [= <-]). simpl.
  rewrite tally_fold. simpl.
  pose proof (parents_and_leaves (statistics.STOP (_stats s)) (_octree s)).
  split; [lia|]. split; [done|]. split; [done|]. split; [|split; [|done]].
  - apply Forall_forall. intros c Hc.
    destruct (fold_min_le (leafCountsOf (statistics.STOP (_stats s)) (_octree s)) MaxInt)
      as [_ Hmin].
    destruct (fold_max_ge (leafCountsOf (statistics.STOP (_stats s)) (_octree s)) MinInt)
      as [_ Hmax].
    rewrite Forall_forall in Hmin, Hmax. split; [by apply Hmin | by apply Hmax].
  - apply leafCountsOf_bound.
Qed.

End Statistics.

Section BuiltStatistics.
Variable MaxIterations : Z.
Variable Tol : float.

Local Abbreviation MakeOn := (Make MaxIterations Tol).

(** The statistics of a completed build: the tree has eight nodes for
    each parent and one for the root, so seven leaves for each parent and
    one more; the recorded number of points is the size of the input, and
    the smallest and largest leaf counts lie between 0 and the threshold. *)
Theorem Make_statistics (fuel : nat) (method : string) (terminal_N : Z)
    (refPoints : DataSet) (elapsed : Z) (s s' : State) :
  MakeOn fuel method terminal_N refPoints elapsed s = Ok s' →
  let st := _stats s' in
  statistics.SIZE st = 8 * statistics.NUMPARENTS st + 1
  ∧ statistics.NUMLEAVES st = 7 * statistics.NUMPARENTS st + 1
  ∧ 0 <= statistics.NUMPARENTS st
  ∧ statistics.NUMPTS st = len refPoints
  ∧ 0 <= statistics.XMIN st <= statistics.XMAX st
  ∧ statistics.XMAX st <= terminal_N
  ∧ statistics.OCTREELEN st = Z.of_nat (length (_octree s'))
  ∧ statistics.TERMINAL_N st = terminal_N.
Proof.
  intros HMake.
  destruct (Make_Ok _ _ _ _ _ _ _ _ _ HMake) as (Ht & _ & calcCenter & _ & Hbuilt & Hstats).
  apply built_encodes in Hbuilt.
  pose proof (encodes_size _ _ _ _ _ _ Hbuilt) as Hsize. rewrite segment_all in Hsize.
  pose proof (parents_and_leaves terminal_N (_octree s')) as Hpl.
  destruct (encodes_root _ _ _ _ _ _ Hbuilt) as (root & Hroot & HrootN).
  assert (Hnonneg : Forall (fun c => 0 <= c) (leafCountsOf terminal_N (_octree s'))).
  { unfold leafCountsOf. apply Forall_fmap, Forall_forall.
    intros nd [Hleaf [j Hj]%list_elem_of_lookup]%list_elem_of_filter. simpl.
    destruct (encodes_shape _ _ _ _ _ _ Hbuilt j nd) as [Hp|Hl];
      [pose proof (lookup_lt_Some _ _ _ Hj); lia | done | destruct Hp; lia |].
    destruct Hl as [? _]. lia. }
  pose proof (leafCountsOf_bound terminal_N (_octree s')) as Hle.
  unfold calcStats in Hstats. apply bind_Ok in Hstats as (root' & Hroot' & Hs').
  apply index_Ok in Hroot' as [_ Hroot'].
  change (Z.to_nat 0) with 0%nat in Hroot'. cbn [_octree] in Hroot'.
  rewrite Hroot in Hroot'. injection Hroot' as <-.
  injection Hs' as <-. simpl. rewrite tally_fold. simpl.
  set (leaves := leafCountsOf terminal_N (_octree s')) in *.
  pose proof (fold_min_bound leaves MaxInt 0 ltac:(unfold MaxInt; lia) Hnonneg).
  pose proof (fold_max_bound leaves MinInt terminal_N ltac:(unfold MinInt; lia) Hle).
  destruct (fold_min_le leaves MaxInt) as [_ Hmin].
  destruct (fold_max_ge leaves MinInt) as [_ Hmax].
  assert (Hleaf : ∃ c, c ∈ leaves).
  { destruct leaves as [|c ?]; [simpl in Hpl; lia | exists c; by left]. }
  destruct Hleaf as [c Hc]. rewrite Forall_forall in Hmin, Hmax.
  pose proof (Hmin c Hc). pose proof (Hmax c Hc).
  repeat split; try done; lia.
Qed.

(** No [Make] on more points than the threshold, all of them at the same
    coordinates, completes, whatever the method and the fuel. *)
Theorem Make_coincident (fuel : nat) (method : string) (terminal_N : Z)
    (refPoints : DataSet) (v0 : DataCoords) (elapsed : Z) (s s' : State) :
  terminal_N < len refPoints →
  (∀ k v, refPoints !! k = Some v → v = v0) →
  MakeOn fuel method terminal_N refPoints elapsed s ≠ Ok s'.
Proof.
  intros Hn Hall HMake.
  destruct (Make_Ok _ _ _ _ _ _ _ _ _ HMake)
    as (_ & _ & calcCenter & _ & (fuel' & b & Hb & _) & _).
  by apply (builder_coincident calcCenter terminal_N refPoints v0 Hn Hall) in Hb.
Qed.

End BuiltStatistics.

(** An instance: the statistics of the sample tree. *)
Lemma Make_statistics_witness :
  ∃ s', Make defaultMaxIterations defaultTol 10 "Centroid" 2 samplePoints 0 initial = Ok s'
        ∧ statistics.SIZE (_stats s') = 8 * statistics.NUMPARENTS (_stats s') + 1
        ∧ statistics.NUMLEAVES (_stats s') = 7 * statistics.NUMPARENTS (_stats s') + 1.
Proof.
  assert (HM : ∃ s', Make defaultMaxIterations defaultTol 10 "Centroid" 2 samplePoints 0
                       initial = Ok s') by (eexists; vm_compute; reflexivity).
  destruct HM as [s' HM]. exists s'. split; [exact HM|].
  destruct (Make_statistics _ _ _ _ _ _ _ _ _ HM) as (H1 & H2 & _).
  split; [exact H1 | exact H2].
Defined.

(** An instance: three points at one place, threshold 2. *)
Lemma Make_coincident_witness :
  ¬ ∃ s', Make defaultMaxIterations defaultTol 50 "DataMidPoint" 2 coincidentPoints 0 initial
          = Ok s'.
Proof.
  intros [s' HM]. revert HM.
  apply (Make_coincident defaultMaxIterations defaultTol 50 "DataMidPoint" 2
           coincidentPoints (mkCoords 1 2 3)).
  - vm_compute. reflexivity.
  - intros k v Hk. apply elem_of_map_to_list in Hk.
    vm_compute in Hk.
    repeat (apply elem_of_cons in Hk as [Hk|Hk]; [by injection Hk as -> ->|]).
    by apply elem_of_nil in Hk.
Defined.

(** An instance of the statistics on an imported list of three nodes. *)
Lemma calcStats_counts_witness :
  ∃ s', calcStats (mkState [node.mk 9 zeroCoords zeroLinks ""; node.mk 2 zeroCoords zeroLinks "";
                            node.mk 0 zeroCoords zeroLinks ""]
                           (statistics.setMeta "Centroid" 3 2 0 statistics.zero)) = Ok s'
        ∧ statistics.NUMPARENTS (_stats s') + statistics.NUMLEAVES (_stats s') = 3.
Proof.
  eexists. split; [reflexivity|].
  apply (calcStats_counts
           (mkState [node.mk 9 zeroCoords zeroLinks ""; node.mk 2 zeroCoords zeroLinks "";
                     node.mk 0 zeroCoords zeroLinks ""]
                    (statistics.setMeta "Centroid" 3 2 0 statistics.zero))).
  reflexivity.
Defined.

(* ===================================================================== *)
(** ** Further properties: queries and the exchange record *)
(* ===================================================================== *)

Section QueryProperties.
Variable MaxIterations : Z.
Variable Tol : float.

Local Abbreviation MakeOn := (Make MaxIterations Tol).

Lemma childSet_subseteq (center : DataCoords) (pts : DataSet) (o : nat) :
  childSet center pts o ⊆ pts.
Proof. apply map_filter_subseteq. Qed.

(** The leaf that the descent reaches holds points of the subtree's own
    point set, no more of them than the threshold. *)
Lemma descend_subset (calcCenter : centerFn) (terminal_N : Z) (oct : list node.t)
    (i : nat) (pts : DataSet) (n : nat) (q : DataCoords) :
  encodes calcCenter terminal_N oct i pts n →
  ∀ fuel, (n - i <= fuel)%nat →
    ∃ pts', pts' ⊆ pts ∧ len pts' <= terminal_N
            ∧ descend fuel oct terminal_N q (Z.of_nat i)
              = Ok (GoStrings.Join (keysOf pts') ",").
Proof.
  induction 1 as [i pts Hn Hi | i pts center bnd Hn Hc Hi H0 Hkids IH]; intros fuel Hfuel.
  - exists pts. split; [done|]. split; [done|].
    destruct fuel; simpl; rewrite (index_nat _ _ _ Hi); simpl;
      destruct (Z.gtb_spec (len pts) terminal_N); try lia; done.
  - pose proof (encodes_kids_ordered _ _ _ _ _ _ 8 Hkids) as Hord.
    destruct (linksOf_index bnd center q) as (o & Ho & _ & Hidx).
    pose proof (Hord o Ho) as Ho3. pose proof (Hord 0%nat ltac:(lia)).
    destruct fuel as [|fuel]; [lia|].
    destruct (IH o Ho fuel ltac:(lia)) as (pts' & Hsub & Hlen & Hdesc).
    exists pts'. split; [|split; [done|]].
    + etrans; [exact Hsub | apply childSet_subseteq].
    + simpl. rewrite (index_nat _ _ _ Hi). simpl.
      destruct (Z.gtb_spec (len pts) terminal_N); [|lia].
      rewrite Hidx. simpl. exact Hdesc.
Qed.

Lemma Split_Join (keys : list string) :
  keys ≠ [] →
  Forall (fun k => GoStrings.lacksByte k comma = true) keys →
  GoStrings.Split (GoStrings.Join keys ",") comma = keys.
Proof.
  intros Hne Hall. induction Hall as [|x rest Hx Hrest IH]; [done|].
  destruct rest as [|y rest].
  - simpl. by apply Split_lacksByte.
  - change (GoStrings.Join (x :: y :: rest) ",")
      with (String.append x (String comma (GoStrings.Join (y :: rest) ","))).
    rewrite Split_append, Split_lacksByte by done. simpl. f_equal. by apply IH.
Qed.

(** A query on a completed build, for any point, returns the joined keys
    of some of the input points, at most as many as the threshold; when no
    identifier of the input holds a comma and the leaf is not empty, the
    identifiers read from the answer are exactly those keys. *)
Theorem Query_returns_input_keys (fuel : nat) (method : string) (terminal_N : Z)
    (refPoints : DataSet) (elapsed : Z) (s s' : State) (q : DataCoords) (qfuel : nat) :
  MakeOn fuel method terminal_N refPoints elapsed s = Ok s' →
  (length (_octree s') <= qfuel)%nat →
  ∃ pts', pts' ⊆ refPoints
          ∧ len pts' <= terminal_N
          ∧ Query qfuel q s' = Ok (GoStrings.Join (keysOf pts') ",")
          ∧ (∀ k, k ∈ keysOf pts' → is_Some (refPoints !! k))
          ∧ Z.of_nat (length (keysOf pts')) <= terminal_N
          ∧ ((∀ k, is_Some (refPoints !! k) → GoStrings.lacksByte k comma = true) →
             pts' ≠ ∅ →
             identifiers (GoStrings.Join (keysOf pts') ",") = keysOf pts').
Proof.
  intros HMake Hq.
  destruct (Make_Ok _ _ _ _ _ _ _ _ _ HMake) as (_ & _ & calcCenter & _ & Hbuilt & _).
  apply built_encodes in Hbuilt.
  destruct (descend_subset _ _ _ _ _ _ q Hbuilt qfuel ltac:(lia))
    as (pts' & Hsub & Hlen & Hdesc).
  exists pts'. split; [done|]. split; [done|].
  split; [by rewrite (Query_descend _ _ _ _ _ _ _ _ _ _ _ HMake)|].
  assert (Hin : ∀ k, k ∈ keysOf pts' → is_Some (refPoints !! k)).
  { intros k [v Hv]%elem_of_keysOf. exists v.
    by apply (proj1 (map_subseteq_spec pts' refPoints) Hsub). }
  split; [done|]. split; [rewrite length_keysOf; exact Hlen|].
  intros Hcomma Hne. unfold identifiers. apply Split_Join.
  - intros E. apply Hne, map_size_empty_iff.
    rewrite <- length_keysOf, E. done.
  - apply Forall_forall. intros k Hk. apply Hcomma, Hin, Hk.
Qed.

(** A parent whose link for the octant of the query point leads back to
    the parent itself keeps the descent there: no amount of steps ends it. *)
Lemma descend_self_link (oct : list node.t) (STOP : Z) (q : DataCoords) (i : nat)
    (nd : node.t) :
  oct !! i = Some nd →
  STOP < node.N nd →
  index (node.CHILDREN nd) (assignOctant (node.CENTER nd) q) = Ok (Z.of_nat i) →
  ∀ fuel, descend fuel oct STOP q (Z.of_nat i) = OutOfFuel.
Proof.
  intros Hnd Hp Hlink fuel. induction fuel as [|fuel IH]; simpl;
    rewrite (index_nat _ _ _ Hnd); simpl;
    destruct (Z.gtb_spec (node.N nd) STOP); try lia; [done|].
  rewrite Hlink. simpl. exact IH.
Qed.

(** [Import] accepts a record whose root is a parent linked to itself,
    and [Query] on the imported tree never returns: the descent has no bound
    other than reaching a leaf. *)
Theorem Query_imported_cycle (jsonIn : jsonOctree.t) (heap : Z) (s s' : State)
    (v : jsonNode.t) (center : DataCoords) (children : nodeLinks) (q : DataCoords) :
  Import (Document jsonIn) heap s = Ok s' →
  jsonOctree.OCTREE jsonIn !! 0%nat = Some v →
  jsonOctree.STOP jsonIn < jsonNode.N v →
  jsonNode.CENTER v = Some center →
  jsonNode.CHILDREN v = Some children →
  index children (assignOctant center q) = Ok 0 →
  ∀ fuel, Query fuel q s' = OutOfFuel.
Proof.
  intros HI Hv Hp Hc Hch Hlink fuel. simpl in HI.
  destruct (importRecord_Ok _ _ _ _ HI) as (HSIZE & Hlen & Hderef & Hmax & Hheap).
  rewrite importRecord_filled in HI by done.
  apply calcStats_Ok in HI as (Hoct & _ & HS & HSTOP & _). simpl in *.
  assert (Hroot : _octree s' !! 0%nat = Some (importNode (jsonOctree.STOP jsonIn) v)).
  { rewrite Hoct. rewrite lookup_app_l by (rewrite length_fmap; by eapply lookup_lt_Some).
    by rewrite list_lookup_fmap, Hv. }
  unfold Query. rewrite HS, HSTOP.
  destruct (Z.eqb_spec (jsonOctree.SIZE jsonIn) 0) as [E|_].
  { apply lookup_lt_Some in Hv. lia. }
  apply (descend_self_link _ _ _ 0%nat _ Hroot).
  - unfold importNode. by destruct (Z.gtb_spec (jsonNode.N v) (jsonOctree.STOP jsonIn)).
  - unfold importNode. destruct (Z.gtb_spec (jsonNode.N v) (jsonOctree.STOP jsonIn)); [|lia].
    simpl. by rewrite Hc, Hch.
Qed.

Lemma exportNode_importNode (STOP : Z) (k : nat) (v : jsonNode.t) :
  canonicalNode STOP k v → exportNode STOP (Z.of_nat k) (importNode STOP v) = v.
Proof.
  intros (Hid & Hp & Hl). unfold exportNode, importNode. destruct v as [id n c ch keys].
  simpl in *. destruct (Z.gtb_spec n STOP) as [H|H]; simpl;
    destruct (Z.gtb_spec n STOP); try lia.
  - destruct (Hp H) as ([c' ->] & [ch' ->] & ->). simpl. by subst.
  - destruct (Hl H) as (-> & ->). by subst.
Qed.

(** The round trip from the file: [Import] of a canonical exchange
    record that the JSON codec renders unchanged succeeds, memory allowing,
    and [Export] of the imported tree writes the record back. *)
Theorem Import_Export (jsonIn : jsonOctree.t) (heap : Z) (s : State) (file : string)
    (compact : bool) :
  canonical jsonIn →
  encodable jsonIn →
  file ≠ EmptyString →
  nodeSize * jsonOctree.SIZE jsonIn <= maxAlloc →
  nodeSize * jsonOctree.SIZE jsonIn <= heap →
  ∃ s', Import (Document jsonIn) heap s = Ok s'
        ∧ Export file compact NoFault heap s' = Ok (Document jsonIn).
Proof.
  intros (HSIZE & Hne & Hcan) [HHOWv Hnodes] Hfile Hmax Hheap. simpl.
  assert (Hderef : Forall (dereferenceable (jsonOctree.STOP jsonIn))
                          (jsonOctree.OCTREE jsonIn)).
  { apply Forall_forall. intros v [k Hk]%list_elem_of_lookup Hp.
    destruct (Hcan k v Hk) as (_ & H & _). destruct (H Hp) as (? & ? & _). done. }
  rewrite importRecord_filled by (done || lia).
  replace (replicate (Z.to_nat (jsonOctree.SIZE jsonIn) - length (jsonOctree.OCTREE jsonIn))
             node.blank)
    with (@nil node.t) by (by rewrite HSIZE, Nat2Z.id, Nat.sub_diag).
  rewrite app_nil_r.
  edestruct calcStats_total as [s' Hs']; last first.
  - exists s'. split; [exact Hs'|].
    pose proof (calcStats_Ok _ _ Hs') as (Hoct & HHOW & HS & HSTOP & HTIME & _).
    simpl in Hoct, HHOW, HS, HSTOP, HTIME.
    assert (Hrec : exportRecord heap s' = Ok jsonIn).
    { rewrite exportRecord_Ok;
        [| rewrite HS, Hoct, length_fmap; done
         | rewrite HS; unfold jsonNodeSize, nodeSize in *; lia
         | rewrite HS; unfold jsonNodeSize, nodeSize in *; lia].
      rewrite HHOW, HS, HSTOP, HTIME, Hoct. destruct jsonIn as [how stop time size nodes].
      simpl in *. do 2 f_equal.
      apply list_eq. intros k. rewrite list_lookup_imap, list_lookup_fmap.
      destruct (nodes !! k) as [v|] eqn:Hk; [|done]. simpl. f_equal.
      by apply exportNode_importNode, Hcan. }
    unfold Export. rewrite HS.
    destruct (Z.eqb_spec (jsonOctree.SIZE jsonIn) 0) as [E|_].
    { rewrite HSIZE in E. destruct (jsonOctree.OCTREE jsonIn); [done | simpl in E; lia]. }
    destruct (String.eqb_spec file "") as [E|_]; [done|].
    rewrite Hrec. simpl. unfold jsonMarshalIndent.
    rewrite (jsonMarshal_Ok jsonIn HHOWv Hnodes). by destruct compact.
  - simpl. by destruct (jsonOctree.OCTREE jsonIn).
Qed.

End QueryProperties.

(** An instance: a query far from the sample points. *)
Lemma Query_returns_input_keys_witness :
  ∃ s' pts',
    Make defaultMaxIterations defaultTol 10 "Centroid" 2 samplePoints 0 initial = Ok s'
    ∧ pts' ⊆ samplePoints
    ∧ Query (length (_octree s')) (mkCoords 100 100 100) s'
      = Ok (GoStrings.Join (keysOf pts') ",").
Proof.
  assert (HM : ∃ s', Make defaultMaxIterations defaultTol 10 "Centroid" 2 samplePoints 0
                       initial = Ok s') by (eexists; vm_compute; reflexivity).
  destruct HM as [s' HM].
  destruct (Query_returns_input_keys _ _ _ _ _ _ _ _ _ (mkCoords 100 100 100)
              (length (_octree s')) HM ltac:(lia))
    as (pts' & Hsub & _ & HQ & _).
  exists s', pts'. split; [exact HM|]. split; [exact Hsub | exact HQ].
Defined.

(** An instance: the cyclic record is imported, and no query on it ends. *)
Lemma Query_imported_cycle_witness :
  ∃ s', Import (Document cyclicRecord) (2 ^ 30) initial = Ok s'
        ∧ Query 1000 (mkCoords 1 1 1) s' = OutOfFuel.
Proof.
  assert (HI : ∃ s', Import (Document cyclicRecord) (2 ^ 30) initial = Ok s')
    by (eexists; vm_compute; reflexivity).
  destruct HI as [s' HI]. exists s'. split; [exact HI|].
  apply (Query_imported_cycle cyclicRecord (2 ^ 30) initial s'
           (jsonNode.mk 0 5 (Some zeroCoords) (Some zeroLinks) "") zeroCoords zeroLinks
           (mkCoords 1 1 1) HI); try reflexivity.
Defined.

(** An instance: the canonical record makes the round trip. *)
Lemma Import_Export_witness :
  ∃ s', Import (Document canonicalRecord) (2 ^ 30) initial = Ok s'
        ∧ Export "demo.json" false NoFault (2 ^ 30) s' = Ok (Document canonicalRecord).
Proof.
  apply (Import_Export canonicalRecord (2 ^ 30) initial "demo.json" false);
    [| | discriminate | vm_compute; discriminate | vm_compute; discriminate].
  - split; [reflexivity|]. split; [discriminate|].
    intros k v Hk. unfold canonicalRecord in *. simpl in *.
    do 9 (destruct k as [|k]; [injection Hk as <-; unfold canonicalNode; simpl;
                                split; [reflexivity|]; split; intros; (lia || eauto)|]).
    discriminate.
  - split; [reflexivity|]. unfold canonicalRecord. simpl.
    repeat (constructor; [split; vm_compute; reflexivity|]). constructor.
Defined.

(* ===================================================================== *)
(** ** Further properties: the center strategies *)
(* ===================================================================== *)

Section Strategies.

Lemma index_in_range {A : Type} (l : list A) (i : Z) :
  0 <= i < Z.of_nat (length l) → ∃ a, index l i = Ok a ∧ a ∈ l.
Proof.
  intros Hi. destruct (lookup_lt_is_Some_2 l (Z.to_nat i) ltac:(lia)) as [a Ha].
  exists a. split; [apply index_Ok; split; [lia | done] | by eapply list_elem_of_lookup_2].
Qed.

Lemma index_negative {A : Type} (l : list A) (i : Z) :
  i < 0 → index l i = Panic IndexOutOfRange.
Proof. intros Hi. unfold index. by destruct (Z.ltb_spec i 0); [|lia]. Qed.

Lemma length_insertFloat64 (x : float) (l : list float) :
  length (insertFloat64 x l) = S (length l).
Proof.
  induction l as [|y l IH]; simpl; [done|].
  destruct (Float64Less y x); simpl; by rewrite ?IH.
Qed.

Lemma length_sortFloat64s (l : list float) : length (sortFloat64s l) = length l.
Proof.
  unfold sortFloat64s. induction l as [|x l IH]; simpl; [done|].
  by rewrite length_insertFloat64, IH.
Qed.

Lemma elem_of_insertFloat64 (x y : float) (l : list float) :
  y ∈ insertFloat64 x l ↔ y = x ∨ y ∈ l.
Proof.
  induction l as [|z l IH]; simpl.
  - rewrite list_elem_of_singleton. split; [by left | intros [?|?%elem_of_nil]; done].
  - destruct (Float64Less z x); rewrite !elem_of_cons, ?IH; tauto.
Qed.

(** Sorting rearranges the slice: it neither loses nor invents a value. *)
Lemma elem_of_sortFloat64s (y : float) (l : list float) :
  y ∈ sortFloat64s l ↔ y ∈ l.
Proof.
  unfold sortFloat64s. induction l as [|x l IH]; simpl; [done|].
  rewrite elem_of_insertFloat64, elem_of_cons, IH. tauto.
Qed.

Lemma length_ordinatesOf (pts : DataSet) (k : nat) :
  length (ordinatesOf pts k) = size pts.
Proof.
  unfold ordinatesOf.
  apply (map_fold_weak_ind (fun l (m : DataSet) => length l = size m)).
  - by rewrite map_size_empty.
  - intros i x m r Hi IH. rewrite length_app, IH, map_size_insert_None by done.
    simpl. lia.
Qed.

Lemma elem_of_ordinatesOf (pts : DataSet) (k : nat) (x : float) :
  x ∈ ordinatesOf pts k → ∃ key v, pts !! key = Some v ∧ x = coord v k.
Proof.
  unfold ordinatesOf.
  apply (map_fold_weak_ind
           (fun l (m : DataSet) => x ∈ l → ∃ key v, m !! key = Some v ∧ x = coord v k)).
  - by intros ?%elem_of_nil.
  - intros i v m r Hi IH [Hin|Hin%list_elem_of_singleton]%elem_of_app.
    + destruct (IH Hin) as (key & v' & Hkey & ->). exists key, v'.
      split; [|done]. rewrite lookup_insert_ne; [done|]. intros ->. congruence.
    + exists i, v. by rewrite lookup_insert_eq.
Qed.

(** The median that [XYZ Medians] takes on one axis: the middle value of
    the sorted ordinates for an odd number of points, the mean of the two
    middle values for an even number; in both cases made of ordinates of
    input points. *)
Lemma median_defined (refPoints : DataSet) (k : nat) :
  refPoints ≠ ∅ →
  let numPts := len refPoints in
  let ordinates := sortFloat64s (ordinatesOf refPoints k) in
  ∃ m key1 v1 key2 v2,
    (if negb (Z.rem numPts 2 =? 0) then index ordinates (Z.quot numPts 2)
     else a ← index ordinates (Z.quot numPts 2 - 1);
          b ← index ordinates (Z.quot numPts 2);
          Ok ((a + b) / 2)%float) = Ok m
    ∧ refPoints !! key1 = Some v1 ∧ refPoints !! key2 = Some v2
    ∧ m = (if negb (Z.rem numPts 2 =? 0) then coord v2 k
           else ((coord v1 k + coord v2 k) / 2)%float).
Proof.
  intros Hne numPts ordinates.
  assert (Hn : 0 < numPts).
  { unfold numPts, len. apply map_size_non_empty_iff in Hne. lia. }
  assert (Hlen : Z.of_nat (length ordinates) = numPts).
  { unfold ordinates. by rewrite length_sortFloat64s, length_ordinatesOf. }
  assert (Hsrc : ∀ x, x ∈ ordinates → ∃ key v, refPoints !! key = Some v ∧ x = coord v k).
  { intros x Hx. by apply elem_of_ordinatesOf, elem_of_sortFloat64s. }
  assert (Hq : 0 <= Z.quot numPts 2 < numPts) by (Z.quot_rem_to_equations; lia).
  destruct (index_in_range ordinates (Z.quot numPts 2) ltac:(lia)) as (b & Hb & Hbin).
  destruct (Hsrc b Hbin) as (key2 & v2 & Hk2 & ->).
  destruct (Z.eqb_spec (Z.rem numPts 2) 0) as [Heven|Hodd]; simpl.
  - assert (Hq' : 0 <= Z.quot numPts 2 - 1 < numPts) by (Z.quot_rem_to_equations; lia).
    destruct (index_in_range ordinates (Z.quot numPts 2 - 1) ltac:(lia)) as (a & Ha & Hain).
    destruct (Hsrc a Hain) as (key1 & v1 & Hk1 & ->).
    exists ((coord v1 k + coord v2 k) / 2)%float, key1, v1, key2, v2.
    rewrite Ha, Hb. done.
  - exists (coord v2 k), key2, v2, key2, v2. by rewrite Hb.
Qed.

(** [XYZ Medians] gives a center for every non-empty point set, each
    coordinate of it an ordinate of an input point (odd size) or the mean of
    two (even size); on the empty set it reads the slice at index -1 and
    panics. *)
Theorem calcXYZMedians_defined (refPoints : DataSet) :
  (refPoints ≠ ∅ →
   ∃ c, calcXYZMedians refPoints = Ok c
        ∧ ∀ k, (k < 3)%nat →
            ∃ key1 v1 key2 v2,
              refPoints !! key1 = Some v1 ∧ refPoints !! key2 = Some v2
              ∧ coord c k = (if negb (Z.rem (len refPoints) 2 =? 0) then coord v2 k
                             else ((coord v1 k + coord v2 k) / 2)%float))
  ∧ calcXYZMedians ∅ = Panic IndexOutOfRange.
Proof.
  split; [|reflexivity]. intros Hne.
  destruct (median_defined refPoints 0 Hne)
    as (m0 & ka0 & va0 & kb0 & vb0 & Hm0 & Ha0 & Hb0 & E0).
  destruct (median_defined refPoints 1 Hne)
    as (m1 & ka1 & va1 & kb1 & vb1 & Hm1 & Ha1 & Hb1 & E1).
  destruct (median_defined refPoints 2 Hne)
    as (m2 & ka2 & va2 & kb2 & vb2 & Hm2 & Ha2 & Hb2 & E2).
  exists (mkCoords m0 m1 m2). split.
  - unfold calcXYZMedians. unfold ordinatesOf in Hm0, Hm1, Hm2.
    apply bind_Ok. exists m0. split; [exact Hm0|].
    apply bind_Ok. exists m1. split; [exact Hm1|].
    apply bind_Ok. exists m2. split; [exact Hm2 | reflexivity].
  - intros [|[|[|k]]] Hk; [| | |lia].
    + exists ka0, va0, kb0, vb0. split; [done|]. split; [done | exact E0].
    + exists ka1, va1, kb1, vb1. split; [done|]. split; [done | exact E1].
    + exists ka2, va2, kb2, vb2. split; [done|]. split; [done | exact E2].
Qed.

Lemma isNaN_spec (x : float) : GoMath.isNaN x = true → Prim2SF x = S754_nan.
Proof.
  unfold GoMath.isNaN. rewrite FloatAxioms.eqb_spec. unfold SFeqb.
  destruct (Prim2SF x) as [s|s| |s m e]; try done.
  - by destruct s.
  - by rewrite SFcompare_finite_refl.
Qed.

Lemma gtb_nan (x y : float) :
  GoMath.isNaN x = true ∨ GoMath.isNaN y = true → GoMath.gtb x y = false.
Proof.
  unfold GoMath.gtb. rewrite ltb_spec. unfold SFltb.
  intros [->%isNaN_spec | ->%isNaN_spec]; [by destruct (Prim2SF y) | done].
Qed.

(** NaN goes to the low side: on an axis where the center's or the
    point's coordinate is NaN the octant's bit is unset, so that a center
    that is NaN on every axis sends every point to octant 0. *)
Theorem assignOctant_nan (c p : DataCoords) :
  (∀ k, (k < 3)%nat →
     GoMath.isNaN (coord c k) = true ∨ GoMath.isNaN (coord p k) = true →
     Z.testbit (assignOctant c p) (Z.of_nat k) = false)
  ∧ ((∀ k, (k < 3)%nat → GoMath.isNaN (coord c k) = true) → assignOctant c p = 0).
Proof.
  split.
  - intros k Hk H. rewrite assignOctant_testbit by done. apply gtb_nan. tauto.
  - intros H. rewrite assignOctant_unfold.
    rewrite !gtb_nan by (right; apply H; lia). reflexivity.
Qed.

End Strategies.

Section Reimport.

Lemma normalNode_importNode (STOP : Z) (v : jsonNode.t) :
  normalNode STOP (importNode STOP v).
Proof.
  unfold normalNode, importNode.
  destruct (Z.gtb_spec (jsonNode.N v) STOP); simpl; split; intros; (lia || done).
Qed.

Lemma normalNode_blank (STOP : Z) : normalNode STOP node.blank.
Proof. by split. Qed.

Lemma normalNode_roundtrip (STOP : Z) (k : Z) (nd : node.t) :
  normalNode STOP nd →
  importNode STOP (exportNode STOP k nd) = nd
  ∧ dereferenceable STOP (exportNode STOP k nd).
Proof.
  unfold normalNode, importNode, exportNode, dereferenceable.
  intros [Hp Hl]. destruct nd as [n c ch keys]. simpl in *.
  destruct (Z.gtb_spec n STOP) as [H|H]; simpl; destruct (Z.gtb_spec n STOP); try lia.
  - rewrite (Hp H). eauto.
  - destruct (Hl H) as [-> ->]. split; [done | lia].
Qed.

Lemma canonicalNode_exportNode (STOP : Z) (k : nat) (nd : node.t) :
  canonicalNode STOP k (exportNode STOP (Z.of_nat k) nd).
Proof.
  unfold canonicalNode, exportNode.
  destruct (Z.gtb_spec (node.N nd) STOP); simpl; split; try done;
    split; intros; try lia; eauto.
Qed.

Lemma encodable_exportNode (STOP : Z) (k : Z) (v : jsonNode.t) :
  unsupportedValue v = false → GoUtf8.ValidString (jsonNode.KEYS v) = true →
  unsupportedValue (exportNode STOP k (importNode STOP v)) = false
  ∧ GoUtf8.ValidString (jsonNode.KEYS (exportNode STOP k (importNode STOP v))) = true.
Proof.
  unfold exportNode, importNode, unsupportedValue. destruct v as [id n c ch keys]. simpl.
  intros Hu Hk.
  destruct (Z.gtb_spec n STOP); simpl; destruct (Z.gtb_spec n STOP); try lia; simpl;
    [|done].
  split; [|done]. by destruct c.
Qed.

Lemma encodable_blank (STOP : Z) (k : Z) :
  unsupportedValue (exportNode STOP k node.blank) = false
  ∧ GoUtf8.ValidString (jsonNode.KEYS (exportNode STOP k node.blank)) = true.
Proof. unfold exportNode. simpl. by destruct (0 >? STOP). Qed.

(** Every tree that [Import] reads from a record that the JSON codec
    renders unchanged is exported to a canonical record, and importing the
    exported file, whatever the engine holds then, gives the same tree and
    statistics again. *)
Theorem Import_Export_Import (jsonIn : jsonOctree.t) (heap : Z) (s s' : State)
    (file : string) (compact : bool) (s0 : State) :
  Import (Document jsonIn) heap s = Ok s' →
  encodable jsonIn →
  file ≠ EmptyString →
  ∃ jsonData,
    Export file compact NoFault heap s' = Ok (Document jsonData)
    ∧ canonical jsonData
    ∧ jsonOctree.SIZE jsonData = jsonOctree.SIZE jsonIn
    ∧ jsonOctree.STOP jsonData = jsonOctree.STOP jsonIn
    ∧ Import (Document jsonData) heap s0 = Ok s'.
Proof.
  intros HI [HHOWv Hnodes] Hfile. simpl in HI.
  destruct (importRecord_Ok _ _ _ _ HI) as (HSIZE & Hlen & Hderef & Hmax & Hheap).
  pose proof HI as HI'. rewrite importRecord_filled in HI' by done.
  set (STOP := jsonOctree.STOP jsonIn) in *.
  set (oct := (importNode STOP <$> jsonOctree.OCTREE jsonIn)
              ++ replicate (Z.to_nat (jsonOctree.SIZE jsonIn)
                            - length (jsonOctree.OCTREE jsonIn)) node.blank) in *.
  pose proof (calcStats_Ok _ _ HI') as (Hoct & HHOW & HS & HSTOP & HTIME & _ & root & Hroot & _).
  simpl in Hoct, HHOW, HS, HSTOP, HTIME, Hroot.
  assert (Hlenoct : Z.of_nat (length oct) = jsonOctree.SIZE jsonIn).
  { unfold oct. rewrite length_app, length_fmap, length_replicate. lia. }
  assert (Hnormal : ∀ k nd, oct !! k = Some nd → normalNode STOP nd).
  { intros k nd Hk. unfold oct in Hk. apply lookup_app_Some in Hk as [Hk|[_ Hk]].
    - rewrite list_lookup_fmap in Hk.
      destruct (jsonOctree.OCTREE jsonIn !! k); [|done]. injection Hk as <-.
      apply normalNode_importNode.
    - apply lookup_replicate in Hk as [-> _]. apply normalNode_blank. }
  assert (Hne : oct ≠ []) by (intros E; by rewrite E in Hroot).
  set (jsonData :=
         jsonOctree.mk (jsonOctree.HOW jsonIn) STOP (jsonOctree.TIME jsonIn)
           (jsonOctree.SIZE jsonIn)
           (imap (fun k v => exportNode STOP (Z.of_nat k) v) oct)).
  assert (Hrec : exportRecord heap s' = Ok jsonData).
  { rewrite exportRecord_Ok;
      [by rewrite HHOW, HS, HSTOP, HTIME, Hoct
      | by rewrite HS, Hoct
      | rewrite HS; unfold jsonNodeSize, nodeSize in *; lia
      | rewrite HS; unfold jsonNodeSize, nodeSize in *; lia]. }
  assert (Hm : jsonMarshal jsonData = Ok jsonData).
  { apply jsonMarshal_Ok; [done|]. simpl.
    apply Forall_forall. intros v [k Hv]%list_elem_of_lookup.
    rewrite list_lookup_imap in Hv.
    destruct (oct !! k) as [nd|] eqn:Hk; [|done]. injection Hv as <-.
    unfold oct in Hk. apply lookup_app_Some in Hk as [Hk|[_ Hk]].
    - rewrite list_lookup_fmap in Hk.
      destruct (jsonOctree.OCTREE jsonIn !! k) as [v|] eqn:Hv; [|done]. injection Hk as <-.
      rewrite Forall_forall in Hnodes.
      destruct (Hnodes v) as [Hu Hkeys]; [by apply list_elem_of_lookup_2 in Hv|].
      by apply encodable_exportNode.
    - apply lookup_replicate in Hk as [-> _]. apply encodable_blank. }
  exists jsonData. split.
  { unfold Export. rewrite HS.
    destruct (Z.eqb_spec (jsonOctree.SIZE jsonIn) 0) as [E|_].
    { rewrite <- Hlenoct in E. destruct oct; [done | simpl in E; lia]. }
    destruct (String.eqb_spec file "") as [E|_]; [done|].
    rewrite Hrec. simpl. unfold jsonMarshalIndent. rewrite Hm. by destruct compact. }
  split; [|split; [done|split; [done|]]].
  - unfold canonical. simpl. split; [by rewrite length_imap|]. split.
    + intros E. apply (f_equal length) in E. rewrite length_imap in E.
      by destruct oct.
    + intros k v Hk. rewrite list_lookup_imap in Hk.
      destruct (oct !! k); [|done]. injection Hk as <-.
      apply canonicalNode_exportNode.
  - simpl. rewrite importRecord_filled; simpl; rewrite ?length_imap; [|lia|lia| |done|done].
    + rewrite <- Hlenoct, Nat2Z.id, Nat.sub_diag, app_nil_r. etrans; [|exact HI'].
      apply calcStats_ext; simpl; try done; try lia.
      apply list_eq. intros k. rewrite list_lookup_fmap, list_lookup_imap.
      destruct (oct !! k) as [nd|] eqn:Hk; [|done]. simpl. f_equal.
      by apply normalNode_roundtrip, (Hnormal k).
    + apply Forall_forall. intros v [k Hv]%list_elem_of_lookup.
      rewrite list_lookup_imap in Hv.
      destruct (oct !! k) as [nd|] eqn:Hk; [|done]. injection Hv as <-.
      by apply normalNode_roundtrip, (Hnormal k).
Qed.

End Reimport.

Section NoIterations.
Variable MaxIterations : Z.
Variable Tol : float.

(** With an iteration bound of zero or less the geometric median never
    starts: a build with it, on more points than a valid threshold, halts
    for the exceeded bound. *)
Theorem Make_no_iterations (fuel : nat) (terminal_N : Z) (refPoints : DataSet)
    (elapsed : Z) (s : State) :
  MaxIterations <= 0 →
  1 < terminal_N →
  terminal_N < len refPoints →
  Make MaxIterations Tol (S fuel) "Geometric Median" terminal_N refPoints elapsed s
  = Halt MaxIterationsExceeded.
Proof.
  intros Hmax Ht Hn. unfold Make.
  destruct (Z.gtb_spec terminal_N 1); [|lia].
  destruct (Z.eqb_spec (len refPoints) 0); [lia|].
  cbn [negb makeCalcCenter String.eqb Ascii.eqb Bool.eqb]. simpl String.eqb.
  change (Ok (calcGeometricMedian MaxIterations Tol) ≫= ?k)
    with (k (calcGeometricMedian MaxIterations Tol)). cbv beta.
  rewrite builder_S. unfold update at 1, index. simpl octree. simpl masterNodeIdx.
  change (([] ++ [node.blank]) !! Z.to_nat 0) with (Some node.blank). cbn [Z.ltb Z.compare].
  change (Ok node.blank ≫= ?k) with (k node.blank). cbv beta.
  change (Ok ?x ≫= ?k) with (k x). cbv beta.
  destruct (Z.leb_spec (len refPoints) terminal_N); [lia|].
  assert (Hgm : calcGeometricMedian MaxIterations Tol refPoints = Halt MaxIterationsExceeded).
  { unfold calcGeometricMedian, calcGeometricMedianFuel.
    destruct (medianFuel MaxIterations); simpl;
      by destruct (Z.ltb_spec 0 MaxIterations); [lia|]. }
  by rewrite Hgm.
Qed.

End NoIterations.

(** An instance: the medians of the three sample points. *)
Lemma calcXYZMedians_defined_witness :
  ∃ c, calcXYZMedians samplePoints = Ok c.
Proof.
  destruct (calcXYZMedians_defined samplePoints) as [H _].
  destruct (H ltac:(discriminate)) as (c & Hc & _). by exists c.
Defined.

(** An instance: a center that is NaN on every axis. *)
Lemma assignOctant_nan_witness :
  assignOctant nanCoords (mkCoords 1 2 3) = 0.
Proof.
  apply (assignOctant_nan nanCoords (mkCoords 1 2 3)).
  intros [|[|[|k]]] Hk; [reflexivity .. | lia].
Defined.


(** An instance: the short record, once imported, is exported whole and
    imported again to the same state. *)
Lemma Import_Export_Import_witness :
  ∃ s' jsonData,
    Import (Document shortRecord) (2 ^ 30) initial = Ok s'
    ∧ Export "demo.json" true NoFault (2 ^ 30) s' = Ok (Document jsonData)
    ∧ jsonOctree.SIZE jsonData = 2
    ∧ Import (Document jsonData) (2 ^ 30) initial = Ok s'.
Proof.
  assert (HI : ∃ s', Import (Document shortRecord) (2 ^ 30) initial = Ok s')
    by (eexists; vm_compute; reflexivity).
  destruct HI as [s' HI].
  assert (Henc : encodable shortRecord).
  { split; [reflexivity|]. unfold shortRecord. simpl.
    repeat (constructor; [split; vm_compute; reflexivity|]). constructor. }
  destruct (Import_Export_Import shortRecord (2 ^ 30) initial s' "demo.json" true initial
              HI Henc ltac:(discriminate)) as (jsonData & HE & _ & HS & _ & HI2).
  exists s', jsonData. split; [exact HI|]. split; [exact HE|]. split; [exact HS | exact HI2].
Defined.

(** An instance: an iteration bound of 0 and the three sample points. *)
Lemma Make_no_iterations_witness :
  Make 0 defaultTol 1 "Geometric Median" 2 samplePoints 0 initial
  = Halt MaxIterationsExceeded.
Proof.
  apply Make_no_iterations; [lia | lia | vm_compute; reflexivity].
Defined.

(** An instance: the sample points around the point (1, 0.5, 0.5). *)
Lemma segregate_partition_witness :
  ∃ childPts, index (segregate (mkCoords 1 0.5 0.5) samplePoints) 6 = Ok childPts
              ∧ childPts !! "B" = Some (mkCoords 1 1 1).
Proof.
  destruct (segregate_partition (mkCoords 1 0.5 0.5) samplePoints) as (_ & H & _).
  exact (H "B" (mkCoords 1 1 1) eq_refl).
Defined.

(* ===================================================================== *)
(** ** Further properties: how a build can fail *)
(* ===================================================================== *)

Section Failures.
Variable calcCenter : centerFn.
Variable terminal_N : Z.






End Failures.

Section MakeFailures.
Variable MaxIterations : Z.
Variable Tol : float.







(** A tree with a parent whose center is NaN or infinite on some axis is
    not exported: [Export] halts on the error of [json.Marshal], whatever
    the operating system would do to the writing of the file. *)
Theorem Export_unsupported_center (file : string) (compact : bool) (os : osFault)
    (heap : Z) (s : State) :
  statistics.SIZE (_stats s) = Z.of_nat (length (_octree s)) →
  _octree s ≠ [] →
  file ≠ EmptyString →
  os ≠ CreateFails →
  nodeSize * statistics.SIZE (_stats s) <= maxAlloc →
  nodeSize * statistics.SIZE (_stats s) <= heap →
  finiteCenters (statistics.STOP (_stats s)) (_octree s) = false →
  Export file compact os heap s = Halt MarshalFailed.
Proof.
  intros HSIZE Hne Hfile Hos Hmax Hheap Hfin. unfold Export.
  destruct (Z.eqb_spec (statistics.SIZE (_stats s)) 0) as [E|_].
  { rewrite HSIZE in E. destruct (_octree s); [done | simpl in E; lia]. }
  destruct (String.eqb_spec file "") as [E|_]; [done|].
  rewrite exportRecord_Ok by (done || unfold jsonNodeSize, nodeSize in *; lia).
  set (STOP := statistics.STOP (_stats s)) in *.
  assert (Hm : ∀ jsonData,
            jsonOctree.OCTREE jsonData
            = imap (fun k v => exportNode STOP (Z.of_nat k) v) (_octree s) →
            jsonMarshal jsonData = Halt MarshalFailed).
  { intros jsonData Hnodes. unfold jsonMarshal.
    assert (Hex : existsb unsupportedValue (jsonOctree.OCTREE jsonData) = true);
      [|by rewrite Hex].
    unfold finiteCenters in Hfin.
    apply not_true_iff_false in Hfin. apply not_false_is_true. intros Hno. apply Hfin.
    apply forallb_forall. intros nd Hnd%list_elem_of_In.
    apply list_elem_of_lookup in Hnd as [k Hk].
    destruct (Z.gtb_spec (node.N nd) STOP) as [Hp|Hl]; [|done]. simpl.
    assert (Hu : unsupportedValue (exportNode STOP (Z.of_nat k) nd) = false).
    { destruct (unsupportedValue (exportNode STOP (Z.of_nat k) nd)) eqn:Hu; [|done].
      exfalso. apply not_true_iff_false in Hno. apply Hno.
      apply existsb_exists. exists (exportNode STOP (Z.of_nat k) nd). split; [|done].
      apply list_elem_of_In. rewrite Hnodes. apply list_elem_of_lookup.
      exists k. by rewrite list_lookup_imap, Hk. }
    unfold exportNode in Hu. destruct (Z.gtb_spec (node.N nd) STOP); [|lia].
    unfold unsupportedValue in Hu. simpl in Hu. revert Hu.
    destruct (GoMath.notFinite (c0 (node.CENTER nd))),
             (GoMath.notFinite (c1 (node.CENTER nd))),
             (GoMath.notFinite (c2 (node.CENTER nd))); simpl; congruence. }
  simpl. unfold jsonMarshalIndent. rewrite Hm by done.
  destruct os; try done. by destruct compact. all: by destruct compact.
Qed.

End MakeFailures.


(** An instance: the tree of the three points with abscissa 2^1023. *)
Lemma Export_unsupported_center_witness :
  ∃ s', Make defaultMaxIterations defaultTol 10 "Centroid" 2 hugePoints 0 initial = Ok s'
        ∧ Export "demo.json" false WriteFails (2 ^ 30) s' = Halt MarshalFailed.
Proof.
  assert (HM : ∃ s', Make defaultMaxIterations defaultTol 10 "Centroid" 2 hugePoints 0
                       initial = Ok s'
                     ∧ statistics.SIZE (_stats s') = Z.of_nat (length (_octree s'))
                     ∧ length (_octree s') = 9%nat
                     ∧ finiteCenters (statistics.STOP (_stats s')) (_octree s') = false)
    by (eexists; split; [|split; [|split]]; vm_compute; reflexivity).
  destruct HM as (s' & HM & HS & Hlen & Hfin). exists s'. split; [exact HM|].
  clear HM.
  apply (Export_unsupported_center "demo.json" false WriteFails (2 ^ 30) s' HS).
  - intros E. rewrite E in Hlen. discriminate Hlen.
  - discriminate.
  - discriminate.
  - rewrite HS, Hlen. vm_compute. discriminate.
  - rewrite HS, Hlen. vm_compute. discriminate.
  - exact Hfin.
Defined.

(** An instance: the name [XYZ Medians] is recognized, [xyz medians] is
    not. *)
Lemma makeCalcCenter_recognized_witness :
  (∃ calcCenter, makeCalcCenter defaultMaxIterations defaultTol "XYZ Medians" = Ok calcCenter)
  ∧ ¬ ∃ calcCenter, makeCalcCenter defaultMaxIterations defaultTol "xyz medians"
                    = Ok calcCenter.
Proof.
  split.
  - apply (makeCalcCenter_recognized defaultMaxIterations defaultTol "XYZ Medians").
    unfold methods. set_solver.
  - intros H.
    apply (makeCalcCenter_recognized defaultMaxIterations defaultTol "xyz medians") in H.
    unfold methods in H.
    repeat (apply elem_of_cons in H as [H|H]; [discriminate H|]).
    by apply elem_of_nil in H.
Defined.
